(** * Cache-aside layer and engagement counters of the blog service

    A shallow embedding of [blog.service.ts] (the revision built on the
    [safeRedis*] helpers) together with the Redis and Prisma calls it makes,
    and the properties of the specification checked against it.

    Modelling conventions.
    - Every [await]ed call is one atomic step of a state-and-error monad
      over a [World]: the Redis keyspace, the [blogs] collection, the clock,
      the JavaScript heap holding the tag arrays, and a log of the calls
      made on the durable store (what a test double would record).
    - JavaScript strings are [string]s (code units below 256), compared
      code unit by code unit as the default comparator of [sort] does.
    - A cached payload [JSON.stringify x] is represented by the value [x] it
      parses back to; the text ['1'] of a like marker and the decimal text
      of a counter are [RInt].  Every stored text is non-empty, so a value
      read back is truthy exactly when the key is present.
    - Redis counters are signed 64-bit integers, as in the server; the
      persisted [views] and [likes] columns are unbounded integers.
    - The durable store is always reachable; only Redis can be down, and
      then every command fails.  Redis may become unreachable or reachable
      again between two requests ([set_up]); it keeps its keys. *)

From Stdlib Require Import ZArith Lia Ascii String.
From stdpp Require Import gmap strings pretty list fin_maps sorting.

Local Open Scope string_scope.
Local Open Scope list_scope.
Local Open Scope Z_scope.

(** ** Data model *)

(** A row of the [blogs] collection.  The joined [user] object selected by
    the [include] clauses is not part of the model. *)
Module Blog.
Record t : Type := mk {
  id : string;
  slug : string;
  title : string;
  description : string;
  tags : list string;
  published : bool;
  isDeleted : bool;
  userId : string;
  views : Z;
  likes : Z;
  createdAt : Z;
  updatedAt : Z
}.
End Blog.

(** The [data] argument of [prisma.blogs.update]: a field is either left
    alone, set, or (for the numeric columns) incremented or decremented.
    [updateIntoDb] passes the request body on as [data]; a body with a
    field the collection does not have, or with a value of another type, is
    rejected by Prisma and is not represented. *)
Inductive NumOp : Type :=
| NSet (z : Z)
| NIncrement (z : Z)
| NDecrement (z : Z).

Record Patch : Type := mkPatch {
  p_title : option string;
  p_description : option string;
  p_slug : option string;
  p_tags : option (list string);
  p_published : option bool;
  p_isDeleted : option bool;
  p_views : option NumOp;
  p_likes : option NumOp;
  p_updatedAt : option Z
}.

Definition apply_num (o : option NumOp) (z : Z) : Z :=
  match o with
  | None => z
  | Some (NSet v) => v
  | Some (NIncrement d) => z + d
  | Some (NDecrement d) => z - d
  end.

Definition apply_patch (p : Patch) (b : Blog.t) : Blog.t :=
  Blog.mk (Blog.id b)
    (default (Blog.slug b) (p_slug p))
    (default (Blog.title b) (p_title p))
    (default (Blog.description b) (p_description p))
    (default (Blog.tags b) (p_tags p))
    (default (Blog.published b) (p_published p))
    (default (Blog.isDeleted b) (p_isDeleted p))
    (Blog.userId b)
    (apply_num (p_views p) (Blog.views b))
    (apply_num (p_likes p) (Blog.likes b))
    (Blog.createdAt b)
    (default (Blog.updatedAt b) (p_updatedAt p)).

(** What a Redis key holds. *)
Inductive RVal : Type :=
| RInt (z : Z)
| RBlog (b : Blog.t)
| RBlogs (bs : list Blog.t).

(** A stored value and the instant its key expires, if it has a TTL. *)
Record Entry : Type := mkEntry { e_val : RVal; e_expire : option Z }.

(** The [where] clause of the lookups. [BySlug None] is [{ slug: undefined }],
    which Prisma reads as no condition at all. *)
Inductive Where : Type :=
| ById (i : string)
| BySlug (s : option string).

Inductive DbCall : Type :=
| FindUnique (q : Where)
| FindFirst (q : Where)
| FindMany (ts : list string)
| Create (i : string)
| Update (i : string) (p : Patch)
| Delete (i : string).

Inductive Error : Type :=
| AppError (status : Z) (message : string)
| RedisError
| PrismaNotFound
| PrismaUnique
| TypeConfusion.

Module httpStatus.
Definition BAD_REQUEST : Z := 400.
Definition UNAUTHORIZED : Z := 401.
Definition NOT_FOUND : Z := 404.
Definition CONFLICT : Z := 409.
End httpStatus.

Record World : Type := mkWorld {
  redis : gmap string Entry;
  redis_up : bool;
  now : Z;
  db : list Blog.t;
  dblog : list DbCall;
  heap : gmap nat (list string)
}.

Definition set_redis (f : gmap string Entry → gmap string Entry) (w : World) : World :=
  mkWorld (f (redis w)) (redis_up w) (now w) (db w) (dblog w) (heap w).

Definition set_db (f : list Blog.t → list Blog.t) (w : World) : World :=
  mkWorld (redis w) (redis_up w) (now w) (f (db w)) (dblog w) (heap w).

Definition log_call (c : DbCall) (w : World) : World :=
  mkWorld (redis w) (redis_up w) (now w) (db w) (dblog w ++ [c]) (heap w).

Definition set_heap (f : gmap nat (list string) → gmap nat (list string)) (w : World) : World :=
  mkWorld (redis w) (redis_up w) (now w) (db w) (dblog w) (f (heap w)).

(** Time passing between two requests. *)
Definition tick (d : Z) (w : World) : World :=
  mkWorld (redis w) (redis_up w) (now w + d) (db w) (dblog w) (heap w).

(** The Redis server becoming reachable or unreachable between two
    requests; the keys it holds are kept. *)
Definition set_up (up : bool) (w : World) : World :=
  mkWorld (redis w) up (now w) (db w) (dblog w) (heap w).

(** ** The monad of service code *)

Inductive Result (A : Type) : Type :=
| Ok (a : A)
| Err (e : Error).
Arguments Ok {A} a.
Arguments Err {A} e.

Definition M (A : Type) : Type := World → Result A * World.

Definition ret {A} (a : A) : M A := λ w, (Ok a, w).

Definition bind {A B} (m : M A) (k : A → M B) : M B :=
  λ w, match m w with
       | (Ok a, w') => k a w'
       | (Err e, w') => (Err e, w')
       end.

Definition throw {A} (e : Error) : M A := λ w, (Err e, w).

(** [try { m } catch (err) { h err }]: the effects of [m] up to the throw
    are kept. *)
Definition try_catch {A} (m : M A) (h : Error → M A) : M A :=
  λ w, match m w with
       | (Ok a, w') => (Ok a, w')
       | (Err e, w') => h e w'
       end.

Definition gets {A} (f : World → A) : M A := λ w, (Ok (f w), w).
Definition modify (f : World → World) : M unit := λ w, (Ok tt, f w).

Declare Scope svc_scope.
Delimit Scope svc_scope with svc.
Notation "'let*' x ':=' m 'in' k" := (bind m (λ x, k))
  (at level 10, x pattern, m at level 100, k at level 200) : svc_scope.
Local Open Scope svc_scope.

(** ** Redis *)

(** Constants of the service. *)
Module CacheTTL.
Definition blog : Z := 3600.
Definition list : Z := 600.
Definition trending : Z := 300.
Definition userLike : Z := 86400 * 30.
End CacheTTL.

(** The cache key of each kind of entry. *)
Module CacheKeys.
Definition blog (id : string) : string := "blog:" +:+ id.
Definition blogSlug (slug : string) : string := "blog:slug:" +:+ slug.
Definition allBlogs (page limit : Z) : string :=
  "blogs:all:" +:+ pretty page +:+ ":" +:+ pretty limit.
Definition myBlogs (userId : string) : string := "blogs:user:" +:+ userId.
Definition trending : string := "blogs:trending".
Definition views (id : string) : string := "blog:views:" +:+ id.
Definition likes (id : string) : string := "blog:likes:" +:+ id.
Definition userLike (userId blogId : string) : string :=
  "blog:userlike:" +:+ userId +:+ ":" +:+ blogId.
End CacheKeys.

(** An entry whose expiry has been reached is gone. *)
Definition fresh (t : Z) (e : Entry) : bool :=
  match e_expire e with
  | None => true
  | Some x => t <? x
  end.

(** What [GET k] answers at the current instant. *)
Definition live (w : World) (k : string) : option RVal :=
  match redis w !! k with
  | Some e => if fresh (now w) e then Some (e_val e) else None
  | None => None
  end.

(** Glob matching of [KEYS]: [*] is any run of characters, [?] any single
    one, a backslash takes the next character literally.  Bracket classes
    are not modelled. *)
Fixpoint glob (p : string) : string → bool :=
  fix at_subject (s : string) : bool :=
    match p with
    | EmptyString => match s with EmptyString => true | _ => false end
    | String "*"%char p' =>
        glob p' s || match s with EmptyString => false | String _ s' => at_subject s' end
    | String "?"%char p' =>
        match s with EmptyString => false | String _ s' => glob p' s' end
    | String "\"%char (String c p') =>
        match s with
        | EmptyString => false
        | String d s' => bool_decide (c = d) && glob p' s'
        end
    | String c p' =>
        match s with
        | EmptyString => false
        | String d s' => bool_decide (c = d) && glob p' s'
        end
    end.

(** Every command fails while the server is unreachable. *)
Definition redis_cmd {A} (m : M A) : M A :=
  λ w, if redis_up w then m w else (Err RedisError, w).

Module Redis.
Definition get (k : string) : M (option RVal) :=
  redis_cmd (gets (λ w, live w k)).

Definition setex (k : string) (ttl : Z) (v : RVal) : M unit :=
  redis_cmd (λ w, (Ok tt, set_redis (<[k := mkEntry v (Some (now w + ttl))]>) w)).

Definition del (ks : list string) : M unit :=
  redis_cmd (modify (set_redis (λ m, foldr delete m ks))).

Definition int64_max : Z := 9223372036854775807.
Definition int64_min : Z := -9223372036854775808.

(** [INCRBY k d]: a missing key counts as 0 and gets no expiry, a TTL
    already on the key is kept, a non-integer value or a result outside
    the signed 64-bit range is an error. *)
Definition incrby (k : string) (d : Z) : M Z :=
  redis_cmd (λ w,
    match redis w !! k with
    | Some e =>
        if fresh (now w) e then
          match e_val e with
          | RInt z =>
              if (int64_min <=? z + d) && (z + d <=? int64_max)
              then (Ok (z + d), set_redis (<[k := mkEntry (RInt (z + d)) (e_expire e)]>) w)
              else (Err RedisError, w)
          | _ => (Err RedisError, w)
          end
        else (Ok d, set_redis (<[k := mkEntry (RInt d) None]>) w)
    | None => (Ok d, set_redis (<[k := mkEntry (RInt d) None]>) w)
    end).

Definition incr (k : string) : M Z := incrby k 1.
Definition decr (k : string) : M Z := incrby k (-1).

Definition keys (pat : string) : M (list string) :=
  redis_cmd (gets (λ w,
    filter (λ k, glob pat k = true ∧ is_Some (live w k))
           (map fst (map_to_list (redis w))))).
End Redis.

(** ** Prisma: the [blogs] collection

    Rows are kept in insertion order.  [update] and [delete] fail when no row
    has the identifier; [create], and an [update] that writes the slug, fail
    when another row already has that slug.  Every call is logged, also a
    failing one. *)

Module Prisma.
Definition matches (q : Where) (b : Blog.t) : bool :=
  match q with
  | ById i => bool_decide (Blog.id b = i)
  | BySlug (Some s) => bool_decide (Blog.slug b = s)
  | BySlug None => true
  end.

Definition lookup (q : Where) (rows : list Blog.t) : option Blog.t :=
  List.find (matches q) rows.

Definition findUnique (q : Where) : M (option Blog.t) :=
  λ w, (Ok (lookup q (db w)), log_call (FindUnique q) w).

Definition findFirst (q : Where) : M (option Blog.t) :=
  λ w, (Ok (lookup q (db w)), log_call (FindFirst q) w).

Definition slug_taken (s : string) (except : string) (rows : list Blog.t) : bool :=
  existsb (λ b, bool_decide (Blog.slug b = s) && negb (bool_decide (Blog.id b = except))) rows.

Definition create (b : Blog.t) : M Blog.t :=
  λ w, let w' := log_call (Create (Blog.id b)) w in
       if slug_taken (Blog.slug b) (Blog.id b) (db w)
       then (Err PrismaUnique, w')
       else (Ok b, set_db (λ rows, rows ++ [b]) w').

Definition replace_row (i : string) (p : Patch) (rows : list Blog.t) : list Blog.t :=
  map (λ b, if bool_decide (Blog.id b = i) then apply_patch p b else b) rows.

Definition update (i : string) (p : Patch) : M Blog.t :=
  λ w, let w' := log_call (Update i p) w in
       match lookup (ById i) (db w) with
       | None => (Err PrismaNotFound, w')
       | Some b =>
           if match p_slug p with
              | Some s => slug_taken s i (db w)
              | None => false
              end
           then (Err PrismaUnique, w')
           else (Ok (apply_patch p b), set_db (replace_row i p) w')
       end.

Definition delete (i : string) : M unit :=
  λ w, let w' := log_call (Delete i) w in
       match lookup (ById i) (db w) with
       | None => (Err PrismaNotFound, w')
       | Some _ =>
           (Ok tt, set_db (filter (λ b, Blog.id b ≠ i)) w')
       end.

(** [hasSome]: the row carries at least one of the tags. *)
Definition hasSome (ts : list string) (b : Blog.t) : bool :=
  existsb (λ t, bool_decide (t ∈ Blog.tags b)) ts.

Definition newer (a b : Blog.t) : Prop := Blog.createdAt b ≤ Blog.createdAt a.

#[global] Instance newer_dec : RelDecision newer.
Proof. intros a b. unfold newer. apply _. Defined.

(** [orderBy]: the rows in the order [R]; rows the order does not tell
    apart stay in insertion order.  [place] puts a row before the first one
    it may precede. *)
Fixpoint place {A} (R : relation A) `{!RelDecision R} (x : A) (l : list A) : list A :=
  match l with
  | [] => [x]
  | y :: l' => if decide (R x y) then x :: l else y :: place R x l'
  end.

Definition orderBy {A} (R : relation A) `{!RelDecision R} (l : list A) : list A :=
  foldr (place R) [] l.

(** [findMany] of the tag search: published, not deleted, one of the tags,
    newest first. *)
Definition findMany (ts : list string) : M (list Blog.t) :=
  λ w, (Ok (orderBy newer
              (filter (λ b, hasSome ts b = true ∧ Blog.published b = true
                            ∧ Blog.isDeleted b = false) (db w))),
        log_call (FindMany ts) w).
End Prisma.

(** ** blog.service.ts *)

(** JavaScript truthiness of a string, and of a string that may be
    [undefined]. *)
Definition truthy (s : string) : bool := negb (bool_decide (s = "")).

Definition truthy_opt (o : option string) : bool :=
  match o with
  | Some s => truthy s
  | None => false
  end.

Definition safeRedisSet (key : string) (ttl : Z) (value : RVal) : M unit :=
  try_catch (Redis.setex key ttl value) (λ _, ret tt).

Definition safeRedisDel (keys : list string) : M unit :=
  match keys with
  | [] => ret tt
  | _ => try_catch (Redis.del keys) (λ _, ret tt)
  end.

Definition safeRedisGet (key : string) : M (option RVal) :=
  try_catch (Redis.get key) (λ _, ret None).

Definition invalidateBlogCache (blogId : string) (slug : option string) : M unit :=
  let keysToDelete :=
    [CacheKeys.blog blogId; CacheKeys.trending]
    ++ match slug with
       | Some s => if truthy s then [CacheKeys.blogSlug s] else []
       | None => []
       end in
  let* listKeys := try_catch (Redis.keys "blogs:all:*") (λ _, ret []) in
  let* userBlogsKeys := try_catch (Redis.keys "blogs:user:*") (λ _, ret []) in
  safeRedisDel (keysToDelete ++ listKeys ++ userBlogsKeys).

(** The request of [createIntoDb]: the authenticated user and the body, as
    the handler destructures it and with the field types of a post.  The
    routes validate nothing: a body whose [title], [description] or [slug]
    is missing or of another type is passed on to Prisma, which rejects the
    call; such bodies are not represented, and what is stated about
    [createIntoDb] is stated for the bodies that are. *)
Record Request : Type := mkRequest {
  req_user : option string;
  body_title : string;
  body_description : string;
  body_slug : string;
  body_tags : option (list string);
  body_published : option bool
}.

Definition NotFound : Error := AppError httpStatus.NOT_FOUND "Blog not found".
Definition Conflict : Error :=
  AppError httpStatus.CONFLICT "Blog with this slug already exists".
Definition Unauthorized : Error :=
  AppError httpStatus.UNAUTHORIZED "User not authenticated".
Definition AlreadyLiked : Error :=
  AppError httpStatus.BAD_REQUEST "You have already liked this blog".
Definition NotLiked : Error :=
  AppError httpStatus.BAD_REQUEST "You haven't liked this blog".

(** [newId] is the identifier the database gives the new row; the counters
    start at zero and the row is not deleted, as the schema defaults are
    taken to be. *)
Definition createIntoDb (req : Request) (newId : string) : M Blog.t :=
  match req_user req with
  | None => throw Unauthorized
  | Some userId =>
      if negb (truthy userId) then throw Unauthorized else
      let* existingBlog := Prisma.findUnique (BySlug (Some (body_slug req))) in
      match existingBlog with
      | Some _ => throw Conflict
      | None =>
          let* t := gets now in
          let* blog := Prisma.create
            (Blog.mk newId (body_slug req) (body_title req) (body_description req)
               (default [] (body_tags req)) (default false (body_published req))
               false userId 0 0 t t) in
          let* _ := safeRedisSet (CacheKeys.blog (Blog.id blog)) CacheTTL.blog (RBlog blog) in
          let* _ := safeRedisSet (CacheKeys.blogSlug (Blog.slug blog)) CacheTTL.blog (RBlog blog) in
          let* listKeys := try_catch (Redis.keys "blogs:all:*") (λ _, ret []) in
          let* userBlogsKeys :=
            try_catch (Redis.keys ("blogs:user:" +:+ userId +:+ "*")) (λ _, ret []) in
          let* _ := safeRedisDel (listKeys ++ userBlogsKeys) in
          ret blog
      end
  end.

Definition views_flush : Patch :=
  mkPatch None None None None None None (Some (NIncrement 10)) None None.

Definition incrementViews (blogId : string) (currentUserId : option string) : M unit :=
  try_catch
    (let* own :=
       match currentUserId with
       | Some u =>
           if truthy u then
             let* blog := Prisma.findUnique (ById blogId) in
             ret (match blog with
                  | Some b => bool_decide (Blog.userId b = u)
                  | None => false
                  end)
           else ret false
       | None => ret false
       end in
     if (own : bool) then ret tt else
     let* views := Redis.incr (CacheKeys.views blogId) in
     let* _ := if Z.rem views 10 =? 0
               then let* _ := Prisma.update blogId views_flush in ret tt
               else ret tt in
     safeRedisDel [CacheKeys.blog blogId])
    (λ _, ret tt).

Definition with_views (b : Blog.t) (v : Z) : Blog.t :=
  Blog.mk (Blog.id b) (Blog.slug b) (Blog.title b) (Blog.description b)
    (Blog.tags b) (Blog.published b) (Blog.isDeleted b) (Blog.userId b)
    v (Blog.likes b) (Blog.createdAt b) (Blog.updatedAt b).

(** A key whose payload is of another kind than the reader expects (only
    possible when an identifier collides with a key prefix, as [views:x]
    does with the counter of [x]) is not modelled: the code goes on with
    whatever [JSON.parse] gives, here the read stops with [TypeConfusion].
    What is stated about the result of a read is stated for keys that hold
    a payload of their kind. *)
Definition getBlog (id slug : option string) : M Blog.t :=
  let cacheKey :=
    match id with
    | Some i => if truthy i then CacheKeys.blog i
                else CacheKeys.blogSlug (default "undefined" slug)
    | None => CacheKeys.blogSlug (default "undefined" slug)
    end in
  let* cached := safeRedisGet cacheKey in
  match cached with
  | Some (RBlog blog) =>
      let* _ := incrementViews (Blog.id blog) None in
      let* counter := safeRedisGet (CacheKeys.views (Blog.id blog)) in
      match counter with
      | Some (RInt redisViews) => ret (with_views blog (Blog.views blog + redisViews))
      | None => ret (with_views blog (Blog.views blog + 0))
      | Some _ => throw TypeConfusion
      end
  | Some _ => throw TypeConfusion
  | None =>
      let* blog := Prisma.findFirst (if truthy_opt id then ById (default "" id) else BySlug slug) in
      match blog with
      | None => throw NotFound
      | Some b =>
          if Blog.isDeleted b then throw NotFound else
          let* _ := safeRedisSet cacheKey CacheTTL.blog (RBlog b) in
          let* _ := incrementViews (Blog.id b) None in
          ret b
      end
  end.

Definition getBlogByIdFromDB (id : string) : M Blog.t := getBlog (Some id) None.
Definition getBlogBySlug (slug : string) : M Blog.t := getBlog None (Some slug).

(** [data] with [updatedAt: new Date()] spread over it. *)
Definition stamped (data : Patch) (t : Z) : Patch :=
  mkPatch (p_title data) (p_description data) (p_slug data) (p_tags data)
    (p_published data) (p_isDeleted data) (p_views data) (p_likes data) (Some t).

Definition updateIntoDb (id : string) (data : Patch) : M Blog.t :=
  let* existingBlog := Prisma.findUnique (ById id) in
  match existingBlog with
  | None => throw NotFound
  | Some existing =>
      if Blog.isDeleted existing then throw NotFound else
      let* _ :=
        match p_slug data with
        | Some s =>
            if truthy s && negb (bool_decide (s = Blog.slug existing)) then
              let* slugExists := Prisma.findUnique (BySlug (Some s)) in
              match slugExists with
              | Some _ => throw Conflict
              | None => ret tt
              end
            else ret tt
        | None => ret tt
        end in
      let* t := gets now in
      let* updatedBlog := Prisma.update id (stamped data t) in
      let* _ := invalidateBlogCache id (Some (Blog.slug existing)) in
      let* _ := safeRedisSet (CacheKeys.blog id) CacheTTL.blog (RBlog updatedBlog) in
      let* _ :=
        if negb (bool_decide (Blog.slug updatedBlog = Blog.slug existing))
        then safeRedisSet (CacheKeys.blogSlug (Blog.slug updatedBlog)) CacheTTL.blog
               (RBlog updatedBlog)
        else ret tt in
      ret updatedBlog
  end.

Definition deleteIntoDb (id : string) : M string :=
  let* blog := Prisma.findUnique (ById id) in
  match blog with
  | None => throw NotFound
  | Some b =>
      let* _ := Prisma.delete id in
      let* _ := invalidateBlogCache id (Some (Blog.slug b)) in
      ret "Blog deleted successfully"
  end.

Definition soft_delete (t : Z) : Patch :=
  mkPatch None None None None None (Some true) None None (Some t).

Definition softDeleteIntoDb (id : string) : M string :=
  let* blog := Prisma.findUnique (ById id) in
  match blog with
  | None => throw NotFound
  | Some b =>
      if Blog.isDeleted b then throw NotFound else
      let* t := gets now in
      let* _ := Prisma.update id (soft_delete t) in
      let* _ := invalidateBlogCache id (Some (Blog.slug b)) in
      ret "Blog soft deleted successfully"
  end.

Definition likes_by (o : NumOp) : Patch :=
  mkPatch None None None None None None None (Some o) None.

Definition likeBlog (blogId userId : string) : M string :=
  let userLikeKey := CacheKeys.userLike userId blogId in
  let* marker := safeRedisGet userLikeKey in
  match marker with
  | Some _ => throw AlreadyLiked
  | None =>
      let* _ := safeRedisSet userLikeKey CacheTTL.userLike (RInt 1) in
      let* _ := try_catch (let* _ := Redis.incr (CacheKeys.likes blogId) in ret tt)
                  (λ _, ret tt) in
      let* _ := Prisma.update blogId (likes_by (NIncrement 1)) in
      let* _ := invalidateBlogCache blogId None in
      ret "Blog liked successfully"
  end.

Definition unlikeBlog (blogId userId : string) : M string :=
  let userLikeKey := CacheKeys.userLike userId blogId in
  let* marker := safeRedisGet userLikeKey in
  match marker with
  | None => throw NotLiked
  | Some _ =>
      let* _ := safeRedisDel [userLikeKey] in
      let* _ := try_catch (let* _ := Redis.decr (CacheKeys.likes blogId) in ret tt)
                  (λ _, ret tt) in
      let* _ := Prisma.update blogId (likes_by (NDecrement 1)) in
      let* _ := invalidateBlogCache blogId None in
      ret "Blog unliked successfully"
  end.

(** [tags.sort()]: the default comparator orders strings by code units; the
    array is sorted in place and returned. *)
Definition sort (tags : list string) : list string := merge_sort String.le tags.

Definition join (sep : string) (l : list string) : string := String.concat sep l.

Definition search_key (tags : list string) : string :=
  "blogs:search:tags:" +:+ join "," (sort tags).

(** The argument is a reference to an array on the heap; a dangling
    reference cannot occur in a well-typed call. *)
Definition searchByTags (tags : nat) : M (list Blog.t) :=
  let* arr := gets (λ w, heap w !! tags) in
  match arr with
  | None => throw TypeConfusion
  | Some elems =>
      let* _ := modify (set_heap (<[tags := sort elems]>)) in
      let cacheKey := search_key elems in
      let* cached := safeRedisGet cacheKey in
      match cached with
      | Some (RBlogs blogs) => ret blogs
      | Some _ => throw TypeConfusion
      | None =>
          let* blogs := Prisma.findMany (sort elems) in
          let* _ := safeRedisSet cacheKey CacheTTL.list (RBlogs blogs) in
          ret blogs
      end
  end.

(** ** The earlier revision of the service

    The repository also carries the revision that calls Redis directly,
    without the [safeRedis*] helpers.  Its view counter, unlike and tag
    search are checked against the same properties. *)

Module Legacy.
Definition incrementViews (blogId : string) : M unit :=
  let viewKey := CacheKeys.views blogId in
  try_catch
    (let* views := Redis.incr viewKey in
     let* _ := if Z.rem views 10 =? 0
               then let* _ := Prisma.update blogId views_flush in ret tt
               else ret tt in
     Redis.del [CacheKeys.blog blogId])
    (λ _, ret tt).

Definition unlikeBlog (blogId userId : string) : M string :=
  let likeKey := CacheKeys.likes blogId in
  let userLikeKey := CacheKeys.userLike userId blogId in
  let* hasLiked := Redis.get userLikeKey in
  match hasLiked with
  | None => throw NotLiked
  | Some _ =>
      let* _ := Redis.del [userLikeKey] in
      let* _ := Redis.decr likeKey in
      let* _ := Prisma.update blogId (likes_by (NDecrement 1)) in
      let* _ := Redis.del [CacheKeys.blog blogId] in
      ret "Blog unliked successfully"
  end.

Definition searchByTags (tags : nat) : M (list Blog.t) :=
  let* arr := gets (λ w, heap w !! tags) in
  match arr with
  | None => throw TypeConfusion
  | Some elems =>
      let* _ := modify (set_heap (<[tags := sort elems]>)) in
      let cacheKey := search_key elems in
      let* cached := Redis.get cacheKey in
      match cached with
      | Some (RBlogs blogs) => ret blogs
      | Some _ => throw TypeConfusion
      | None =>
          let* blogs := Prisma.findMany (sort elems) in
          let* _ := Redis.setex cacheKey CacheTTL.list (RBlogs blogs) in
          ret blogs
      end
  end.
End Legacy.

(** ** The listings of the service

    [getMyBlog] and [getTrendingBlogs] read the collection with a [findMany]
    of their own.  These queries are plain reads of the rows; they are not
    entered in the call log, which records the calls on single posts and the
    tag search.  Rows with equal sort keys stay in insertion order
    ([Prisma.orderBy]). *)

Module Listings.
(** [orderBy: [{ views: 'desc' }, { likes: 'desc' }]]. *)
Definition hotter (a b : Blog.t) : Prop :=
  Blog.views b < Blog.views a
  ∨ (Blog.views b = Blog.views a ∧ Blog.likes b ≤ Blog.likes a).

#[global] Instance hotter_dec : RelDecision hotter.
Proof. intros a b. unfold hotter. apply _. Defined.

(** [take: n] keeps the first [n] rows of the ordered result; a negative
    [n] keeps the last [-n] of them. *)
Definition take (n : Z) (rows : list Blog.t) : list Blog.t :=
  if 0 <=? n then firstn (Z.to_nat n) rows
  else skipn (length rows - Z.to_nat (- n)) rows.

(** [where: { userId, isDeleted: false }], newest first. *)
Definition ofUser (userId : string) (rows : list Blog.t) : list Blog.t :=
  Prisma.orderBy Prisma.newer
    (filter (λ b, Blog.userId b = userId ∧ Blog.isDeleted b = false) rows).

(** [where: { published: true, isDeleted: false }], most viewed first, the
    like count deciding between equal view counts. *)
Definition trending (limit : Z) (rows : list Blog.t) : list Blog.t :=
  take limit
    (Prisma.orderBy hotter
       (filter (λ b, Blog.published b = true ∧ Blog.isDeleted b = false) rows)).
End Listings.

Definition getMyBlog (userId : string) : M (list Blog.t) :=
  let cacheKey := CacheKeys.myBlogs userId in
  let* cached := safeRedisGet cacheKey in
  match cached with
  | Some (RBlogs blogs) => ret blogs
  | Some _ => throw TypeConfusion
  | None =>
      let* blogs := gets (λ w, Listings.ofUser userId (db w)) in
      let* _ := safeRedisSet cacheKey CacheTTL.blog (RBlogs blogs) in
      ret blogs
  end.

(** [limit] is [None] when the argument is left out, and the default 10
    applies. *)
Definition getTrendingBlogs (limit : option Z) : M (list Blog.t) :=
  let limit := default 10 limit in
  let cacheKey := CacheKeys.trending in
  let* cached := safeRedisGet cacheKey in
  match cached with
  | Some (RBlogs blogs) => ret blogs
  | Some _ => throw TypeConfusion
  | None =>
      let* blogs := gets (λ w, Listings.trending limit (db w)) in
      let* _ := safeRedisSet cacheKey CacheTTL.trending (RBlogs blogs) in
      ret blogs
  end.

(** ** blog.controller.ts: the tag search

    [s.split(',')]: the pieces between the commas; the empty string gives
    one empty piece. *)
Fixpoint split (sep : ascii) (s : string) : list string :=
  match s with
  | EmptyString => [""]
  | String c s' =>
      if bool_decide (c = sep) then "" :: split sep s'
      else match split sep s' with
           | piece :: pieces => String c piece :: pieces
           | [] => [String c ""]
           end
  end.

(** A new array on the heap. *)
Definition alloc (elems : list string) : M nat :=
  λ w, let ref := base.fresh (dom (heap w)) in
       (Ok ref, set_heap (<[ref := elems]>) w).

Module BlogController.
(** [(req.query.tags as string)?.split(',') || []]: [req.query.tags] is a
    string when the parameter is given once and undefined when it is left
    out. *)
Definition tags (query_tags : option string) : list string :=
  match query_tags with
  | Some s => split "," s
  | None => []
  end.

(** The handler passes a new array to the service; the result of the
    service is what [sendResponse] is given as [data]. *)
Definition searchByTags (query_tags : option string) : M (list Blog.t) :=
  let* tags := alloc (tags query_tags) in
  searchByTags tags.
End BlogController.

(** ** The earlier revision: writes

    [createIntoDb] and [likeBlog] of the revision that calls Redis directly:
    a failing Redis command is not caught. *)

Module LegacyWrites.
Definition createIntoDb (req : Request) (newId : string) : M Blog.t :=
  match req_user req with
  | None => throw Unauthorized
  | Some userId =>
      if negb (truthy userId) then throw Unauthorized else
      let* existingBlog := Prisma.findUnique (BySlug (Some (body_slug req))) in
      match existingBlog with
      | Some _ => throw Conflict
      | None =>
          let* t := gets now in
          let* blog := Prisma.create
            (Blog.mk newId (body_slug req) (body_title req) (body_description req)
               (default [] (body_tags req)) (default false (body_published req))
               false userId 0 0 t t) in
          let* _ := Redis.setex (CacheKeys.blog (Blog.id blog)) CacheTTL.blog (RBlog blog) in
          let* _ := Redis.setex (CacheKeys.blogSlug (Blog.slug blog)) CacheTTL.blog
                      (RBlog blog) in
          let* listKeys := Redis.keys "blogs:all:*" in
          let* userBlogsKeys := Redis.keys ("blogs:user:" +:+ userId +:+ "*") in
          let* _ := match listKeys ++ userBlogsKeys with
                    | [] => ret tt
                    | ks => Redis.del ks
                    end in
          ret blog
      end
  end.

Definition likeBlog (blogId userId : string) : M string :=
  let likeKey := CacheKeys.likes blogId in
  let userLikeKey := CacheKeys.userLike userId blogId in
  let* alreadyLiked := Redis.get userLikeKey in
  match alreadyLiked with
  | Some _ => throw AlreadyLiked
  | None =>
      let* _ := Redis.setex userLikeKey CacheTTL.userLike (RInt 1) in
      let* _ := Redis.incr likeKey in
      let* _ := Prisma.update blogId (likes_by (NIncrement 1)) in
      let* _ := Redis.del [CacheKeys.blog blogId] in
      ret "Blog liked successfully"
  end.
End LegacyWrites.

(** * Notions used in the statements and proofs *)

#[global] Instance NumOp_eq_dec : EqDecision NumOp.
Proof. solve_decision. Defined.

#[global] Instance Patch_eq_dec : EqDecision Patch.
Proof. solve_decision. Defined.

#[global] Instance Where_eq_dec : EqDecision Where.
Proof. solve_decision. Defined.

#[global] Instance DbCall_eq_dec : EqDecision DbCall.
Proof. solve_decision. Defined.

(** ** Sample data *)

Definition sample_post : Blog.t :=
  Blog.mk "64f0c2a1" "hello-world" "Hello" "First post" ["intro"] true false
    "u1" 0 0 900 900.

(** One published post, an empty cache, Redis up. *)
Definition sample_world : World := mkWorld ∅ true 1000 [sample_post] [] ∅.

(** The same store with Redis down. *)
Definition degraded_world : World := mkWorld ∅ false 1000 [sample_post] [] ∅.

(** The same store, and the array [["ts", "cache"]] at heap location 0. *)
Definition tags_world : World :=
  mkWorld ∅ true 1000 [sample_post] [] (<[0%nat := ["ts"; "cache"]]> ∅).

Definition empty_world : World := mkWorld ∅ true 1000 [] [] ∅.

(** A create request whose body carries the empty string as slug. *)
Definition untitled_request : Request :=
  mkRequest (Some "u1") "Draft" "No slug yet" "" None None.

(** The world after a user created a post whose slug is the empty string. *)
Definition empty_slug_world : World :=
  snd (createIntoDb untitled_request "64f0c2a1" empty_world).

Definition retitle : Patch :=
  mkPatch (Some "Hello again") None None None None None None None None.

Definition reset_likes : Patch :=
  mkPatch None None None None None None None (Some (NSet 0)) None.

(** User [u2] likes the post, then an update request writes [likes: 0]. *)
Definition reset_likes_world : World :=
  snd ((let* _ := likeBlog "64f0c2a1" "u2" in updateIntoDb "64f0c2a1" reset_likes)
         sample_world).

(** A create request of user [u2]. *)
Definition second_request : Request :=
  mkRequest (Some "u2") "Caching" "Second post" "caching" (Some ["cache"]) (Some true).

(** The world after user [u2] created a post in [sample_world]: the new
    post is cached under its primary key and under its slug. *)
Definition created_world : World :=
  snd (createIntoDb second_request "75a1d3b2" sample_world).

(** The post it holds. *)
Definition second_post : Blog.t :=
  Blog.mk "75a1d3b2" "caching" "Caching" "Second post" ["cache"] true false
    "u2" 0 0 1000 1000.

(** A warm cache: after the post was created, its author's listing and the
    trending list were read, and a listing page is cached as well. *)
Definition warm_world : World :=
  set_redis (<["blogs:all:1:10" := mkEntry (RBlogs [second_post; sample_post]) (Some 1600)]>)
    (snd ((let* _ := createIntoDb second_request "75a1d3b2" in
           let* _ := getMyBlog "u2" in
           let* _ := getTrendingBlogs None in
           ret tt) sample_world)).

(** The post of [sample_world] was read by slug, which cached its snapshot;
    then Redis became unreachable. *)
Definition outage_world : World :=
  set_up false (snd (getBlogBySlug "hello-world" sample_world)).

(** ** Rows after an update *)

(** The row [b] after [update] of the row with identifier [i]. *)
Definition patched (i : string) (p : Patch) (b : Blog.t) : Blog.t :=
  if bool_decide (Blog.id b = i) then apply_patch p b else b.

(** ** The view counter while Redis is up *)

Definition max_safe_integer : Z := 9007199254740991.

(** The integer a counter key holds, 0 when the key is absent. *)
Definition count (w : World) (k : string) : Z :=
  match live w k with
  | Some (RInt z) => z
  | _ => 0
  end.

(** The key is absent or holds a count that JavaScript represents exactly. *)
Definition counter_ok (w : World) (k : string) : Prop :=
  match live w k with
  | None => True
  | Some (RInt z) => 0 ≤ z < max_safe_integer
  | Some _ => False
  end.

(** The expiry a live key carries; [INCR] keeps it. *)
Definition expiry_of (w : World) (k : string) : option Z :=
  match redis w !! k with
  | Some e => if fresh (now w) e then e_expire e else None
  | None => None
  end.

(** The world after a successful [INCR k]. *)
Definition bump (k : string) (w : World) : World :=
  set_redis (<[k := mkEntry (RInt (count w k + 1)) (expiry_of w k)]>) w.

(** The next recorded view reaches a multiple of 10. *)
Definition flush_due (w : World) (id : string) : bool :=
  Z.rem (count w (CacheKeys.views id) + 1) 10 =? 0.

(** The world after one [incrementViews] that meets no error. *)
Definition views_step (id : string) (w : World) : World :=
  let w1 := bump (CacheKeys.views id) w in
  let w2 := if flush_due w id
            then set_db (Prisma.replace_row id views_flush)
                   (log_call (Update id views_flush) w1)
            else w1 in
  set_redis (λ m, foldr delete m [CacheKeys.blog id]) w2.

(** ** Counter flush boundary (C2) *)

(** [n] view recordings of the same post, one after the other. *)
Fixpoint repeat_views (n : nat) (id : string) : M unit :=
  match n with
  | O => ret tt
  | S n' => let* _ := repeat_views n' id in incrementViews id None
  end.

(** The world they leave. *)
Definition after_views (n : nat) (id : string) (w : World) : World :=
  snd (repeat_views n id w).

(** Durable increments of 10 issued on the view count of [id]. *)
Definition flushes (id : string) (log : list DbCall) : nat :=
  length (filter (λ c, c = Update id views_flush) log).

(** The persisted view count of [id], and its Redis counter. *)
Definition persisted_views (w : World) (id : string) : Z :=
  match Prisma.lookup (ById id) (db w) with
  | Some b => Blog.views b
  | None => 0
  end.

Definition redis_counter (w : World) (id : string) : Z :=
  count w (CacheKeys.views id).

(** The claim as the specification words it: the Redis counter itself is
    the unflushed remainder. *)
Definition counter_is_unflushed_delta : Prop :=
  ∀ (w : World) (id : string) (b : Blog.t) (n : nat),
    redis_up w = true →
    Prisma.lookup (ById id) (db w) = Some b →
    live w (CacheKeys.views id) = None →
    let w' := after_views n id w in
    flushes id (dblog w') = (flushes id (dblog w) + n / 10)%nat
    ∧ persisted_views w' id + redis_counter w' id = Blog.views b + Z.of_nat n.

(** [n] reads of the same post by identifier, one after the other. *)
Fixpoint repeat_reads (n : nat) (id : string) : M unit :=
  match n with
  | O => ret tt
  | S n' => let* _ := repeat_reads n' id in
            let* _ := getBlogByIdFromDB id in
            ret tt
  end.

(** What holds after [n] recordings started in [w0] with row [b] and no
    counter. *)
Record views_inv (w0 : World) (id : string) (b : Blog.t) (n : nat) (w : World) : Prop :=
  mk_views_inv {
    vi_up : redis_up w = true;
    vi_count : count w (CacheKeys.views id) = Z.of_nat n;
    vi_ok : Z.of_nat n < max_safe_integer → counter_ok w (CacheKeys.views id);
    vi_row : Prisma.lookup (ById id) (db w)
             = Some (with_views b (Blog.views b + 10 * (Z.of_nat n / 10)));
    vi_log : flushes id (dblog w) = (flushes id (dblog w0) + n / 10)%nat
  }.

(** ** Cache population (C1) *)




(** ** Invalidation while Redis is up *)

(** The live keys a pattern selects. *)
Definition matching (pat : string) (w : World) : list string :=
  filter (λ k, glob pat k = true ∧ is_Some (live w k))
         (map fst (map_to_list (redis w))).

(** The slug key [invalidateBlogCache] adds for a truthy slug. *)
Definition slug_keys (slug : option string) : list string :=
  match slug with
  | Some s => if truthy s then [CacheKeys.blogSlug s] else []
  | None => []
  end.

(** All the keys one [invalidateBlogCache] deletes. *)
Definition doomed (blogId : string) (slug : option string) (w : World) : list string :=
  ([CacheKeys.blog blogId; CacheKeys.trending] ++ slug_keys slug)
  ++ matching "blogs:all:*" w ++ matching "blogs:user:*" w.

(** The world after [invalidateBlogCache]. *)
Definition invalidated (blogId : string) (slug : option string) (w : World) : World :=
  set_redis (λ m, foldr delete m (doomed blogId slug w)) w.

(** ** Invalidation completeness (C3) *)

(** The mutations of a post, with their arguments. *)
Inductive Mutation : Type :=
| MUpdate (id : string) (data : Patch)
| MDelete (id : string)
| MSoftDelete (id : string)
| MLike (blogId userId : string)
| MUnlike (blogId userId : string).

(** The post a mutation is about. *)
Definition target (m : Mutation) : string :=
  match m with
  | MUpdate id _ | MDelete id | MSoftDelete id | MLike id _ | MUnlike id _ => id
  end.

Definition run_mutation (m : Mutation) : M unit :=
  match m with
  | MUpdate id data => let* _ := updateIntoDb id data in ret tt
  | MDelete id => let* _ := deleteIntoDb id in ret tt
  | MSoftDelete id => let* _ := softDeleteIntoDb id in ret tt
  | MLike blogId userId => let* _ := likeBlog blogId userId in ret tt
  | MUnlike blogId userId => let* _ := unlikeBlog blogId userId in ret tt
  end.

(** No trending snapshot, no listing page, no per-owner listing. *)
Definition listings_absent (w : World) : Prop :=
  live w CacheKeys.trending = None
  ∧ (∀ page limit, live w (CacheKeys.allBlogs page limit) = None)
  ∧ (∀ userId, live w (CacheKeys.myBlogs userId) = None).

(** The claim as the specification words it. *)
Definition every_mutation_clears_every_key : Prop :=
  ∀ (m : Mutation) (w w' : World) (b : Blog.t),
    redis_up w = true →
    Prisma.lookup (ById (target m)) (db w) = Some b →
    run_mutation m w = (Ok tt, w') →
    live w' (CacheKeys.blog (target m)) = None
    ∧ live w' (CacheKeys.blogSlug (Blog.slug b)) = None
    ∧ listings_absent w'.

(** What [updateIntoDb] leaves in the cache. *)
Definition recached (id : string) (b r : Blog.t) (w' : World) : Prop :=
  Prisma.lookup (ById id) (db w') = Some r
  ∧ live w' (CacheKeys.blog id) = Some (RBlog r)
  ∧ (Blog.slug r ≠ Blog.slug b → live w' (CacheKeys.blogSlug (Blog.slug r)) = Some (RBlog r))
  ∧ (Blog.slug b ≠ "" → id ≠ "slug:" +:+ Blog.slug b →
     live w' (CacheKeys.blogSlug (Blog.slug b)) = None).

(** ** Soft-delete visibility (C4) *)

(** A later read of the post, by slug or by identifier. *)
Definition read_post (by_slug : bool) (id slug : string) : M Blog.t :=
  if by_slug then getBlogBySlug slug else getBlogByIdFromDB id.

(** A later read: made [rd_after] seconds after the previous step, with
    Redis reachable or not at that moment, by slug or by identifier. *)
Record LaterRead : Type := mkRead {
  rd_after : Z;
  rd_up : bool;
  rd_by_slug : bool
}.

(** The world in which the read is made. *)
Definition at_read (rd : LaterRead) (w : World) : World :=
  set_up (rd_up rd) (tick (rd_after rd) w).

(** Every read of a sequence fails with [NotFound]. *)
Fixpoint all_not_found (id slug : string) (reads : list LaterRead) (w : World) : Prop :=
  match reads with
  | [] => True
  | rd :: reads' =>
      fst (read_post (rd_by_slug rd) id slug (at_read rd w)) = Err NotFound
      ∧ all_not_found id slug reads'
          (snd (read_post (rd_by_slug rd) id slug (at_read rd w)))
  end.

(** The claim as the specification words it: whenever the soft delete has
    succeeded. *)
Definition soft_deleted_never_served : Prop :=
  ∀ (w w1 : World) (id : string) (b : Blog.t) (r : string) (reads : list LaterRead),
    truthy id = true →
    Prisma.lookup (ById id) (db w) = Some b →
    Prisma.lookup (BySlug (Some (Blog.slug b))) (db w) = Some b →
    softDeleteIntoDb id w = (Ok r, w1) →
    all_not_found id (Blog.slug b) reads w1.

(** The post is soft-deleted in the store and has no entry under its
    primary key, nor, when [with_slug] is set, under its slug key. *)
Record gone (id slug : string) (with_slug : bool) (w : World) : Prop := mk_gone {
  gone_blog : redis w !! CacheKeys.blog id = None;
  gone_slug : with_slug = true → redis w !! CacheKeys.blogSlug slug = None;
  gone_row : ∃ b, Prisma.lookup (ById id) (db w) = Some b ∧ Blog.isDeleted b = true;
  gone_slug_row : ∃ b, Prisma.lookup (BySlug (Some slug)) (db w) = Some b
                       ∧ Blog.isDeleted b = true
}.

(** ** Likes (C5, C6) *)

(** The claim as the specification words it: whenever the pair has no
    marker, the second of two likes in sequence is refused and the count has
    risen by 1. *)
Definition second_like_refused : Prop :=
  ∀ (w : World) (blogId userId : string) (b : Blog.t) (d : Z),
    Prisma.lookup (ById blogId) (db w) = Some b →
    live w (CacheKeys.userLike userId blogId) = None →
    0 ≤ d →
    ∃ w1 w2 b',
      likeBlog blogId userId w = (Ok "Blog liked successfully", w1)
      ∧ likeBlog blogId userId (tick d w1) = (Err AlreadyLiked, w2)
      ∧ Prisma.lookup (ById blogId) (db w2) = Some b'
      ∧ Blog.likes b' = Blog.likes b + 1.

(** The claim as the specification words it: an unlike never takes the
    persisted like count below zero. *)
Definition unlike_never_below_zero : Prop :=
  ∀ (w w' : World) (blogId userId : string) (b : Blog.t) (v : RVal) (r : string),
    redis_up w = true →
    live w (CacheKeys.userLike userId blogId) = Some v →
    Prisma.lookup (ById blogId) (db w) = Some b →
    0 ≤ Blog.likes b →
    unlikeBlog blogId userId w = (Ok r, w') →
    ∃ b', Prisma.lookup (ById blogId) (db w') = Some b' ∧ 0 ≤ Blog.likes b'.

(** ** Tag search (C7, C10) *)

(** The claim as the specification words it: the key depends only on the
    set of tags. *)
Definition same_set_same_key : Prop :=
  ∀ t1 t2 : list string, (∀ x, x ∈ t1 ↔ x ∈ t2) → search_key t1 = search_key t2.

(** What [searchByTags] does once its argument is sorted. *)
Definition search_sorted (sorted : list string) : M (list Blog.t) :=
  let cacheKey := "blogs:search:tags:" +:+ join "," sorted in
  let* cached := safeRedisGet cacheKey in
  match cached with
  | Some (RBlogs blogs) => ret blogs
  | Some _ => throw TypeConfusion
  | None =>
      let* blogs := Prisma.findMany sorted in
      let* _ := safeRedisSet cacheKey CacheTTL.list (RBlogs blogs) in
      ret blogs
  end.

(** The rows [findMany] returns for the tags. *)
Definition found (sorted : list string) (w : World) : list Blog.t :=
  Prisma.orderBy Prisma.newer
    (filter (λ b, Prisma.hasSome sorted b = true ∧ Blog.published b = true
                  ∧ Blog.isDeleted b = false) (db w)).

(** The result of [search_sorted], case by case. *)
Definition search_outcome (sorted : list string) (w : World)
    : Result (list Blog.t) * World :=
  let k := "blogs:search:tags:" +:+ join "," sorted in
  if redis_up w then
    match live w k with
    | Some (RBlogs blogs) => (Ok blogs, w)
    | Some _ => (Err TypeConfusion, w)
    | None =>
        (Ok (found sorted w),
         set_redis (<[k := mkEntry (RBlogs (found sorted w))
                              (Some (now w + CacheTTL.list))]>)
           (log_call (FindMany sorted) w))
    end
  else (Ok (found sorted w), log_call (FindMany sorted) w).

(** Reading an array through a reference, as any holder of it does. *)
Definition read_array (ref : nat) : M (list string) :=
  let* arr := gets (λ w, heap w !! ref) in
  match arr with
  | Some elems => ret elems
  | None => throw TypeConfusion
  end.

(** ** Two concurrent likes (C9)

    A request handler runs until its next [await]; the awaited Redis or
    Prisma call is served atomically and the handler resumes later.  A call
    of [likeBlog] is therefore a thread that takes one step per awaited call
    ([invalidateBlogCache] is taken as one step), and two concurrent calls
    are an interleaving of the steps of two threads. *)

(** Where a [likeBlog] call stands: the awaited call it makes next, or its
    outcome. *)
Inductive LikePc : Type :=
| LCheck
| LMark
| LCount
| LPersist
| LInvalidate
| LDone (r : Result string).

(** One step: the awaited call is made and the thread moves on. *)
Definition like_step (blogId userId : string) (pc : LikePc) (w : World) : LikePc * World :=
  let userLikeKey := CacheKeys.userLike userId blogId in
  match pc with
  | LCheck =>
      match safeRedisGet userLikeKey w with
      | (Ok (Some _), w') => (LDone (Err AlreadyLiked), w')
      | (Ok None, w') => (LMark, w')
      | (Err e, w') => (LDone (Err e), w')
      end
  | LMark =>
      match safeRedisSet userLikeKey CacheTTL.userLike (RInt 1) w with
      | (Ok _, w') => (LCount, w')
      | (Err e, w') => (LDone (Err e), w')
      end
  | LCount =>
      match try_catch (let* _ := Redis.incr (CacheKeys.likes blogId) in ret tt)
              (λ _, ret tt) w with
      | (Ok _, w') => (LPersist, w')
      | (Err e, w') => (LDone (Err e), w')
      end
  | LPersist =>
      match Prisma.update blogId (likes_by (NIncrement 1)) w with
      | (Ok _, w') => (LInvalidate, w')
      | (Err e, w') => (LDone (Err e), w')
      end
  | LInvalidate =>
      match invalidateBlogCache blogId None w with
      | (Ok _, w') => (LDone (Ok "Blog liked successfully"), w')
      | (Err e, w') => (LDone (Err e), w')
      end
  | LDone r => (LDone r, w)
  end.

(** [n] steps of one thread. *)
Fixpoint like_steps (n : nat) (blogId userId : string) (pc : LikePc) (w : World)
    : LikePc * World :=
  match n with
  | O => (pc, w)
  | S n' =>
      let '(pc', w') := like_step blogId userId pc w in
      like_steps n' blogId userId pc' w'
  end.

(** Two calls for the same pair; [true] in the schedule lets the first
    thread take its next step, [false] the second. *)
Fixpoint interleave (sched : list bool) (blogId userId : string)
    (pa pb : LikePc) (w : World) : LikePc * LikePc * World :=
  match sched with
  | [] => (pa, pb, w)
  | true :: sched' =>
      let '(pa', w') := like_step blogId userId pa w in
      interleave sched' blogId userId pa' pb w'
  | false :: sched' =>
      let '(pb', w') := like_step blogId userId pb w in
      interleave sched' blogId userId pa pb' w'
  end.

(** Both threads read the marker before either writes it. *)
Definition race_schedule : list bool :=
  [true; false; true; true; true; true; false; false; false; false].

Definition likes_of (w : World) (id : string) : Z :=
  match Prisma.lookup (ById id) (db w) with
  | Some b => Blog.likes b
  | None => 0
  end.

(** ** The calls of [BlogServices]

    Every function the service exports except [getAllBlog]. *)
Inductive ServiceCall : Type :=
| CreateIntoDb (req : Request) (newId : string)
| GetMyBlog (userId : string)
| GetBlogByIdFromDB (id : string)
| GetBlogBySlug (slug : string)
| Mutate (m : Mutation)
| GetTrendingBlogs (limit : option Z)
| SearchByTags (tags : nat).

Definition run_call (c : ServiceCall) : M unit :=
  match c with
  | CreateIntoDb req newId => let* _ := createIntoDb req newId in ret tt
  | GetMyBlog userId => let* _ := getMyBlog userId in ret tt
  | GetBlogByIdFromDB id => let* _ := getBlogByIdFromDB id in ret tt
  | GetBlogBySlug slug => let* _ := getBlogBySlug slug in ret tt
  | Mutate m => run_mutation m
  | GetTrendingBlogs limit => let* _ := getTrendingBlogs limit in ret tt
  | SearchByTags tags => let* _ := searchByTags tags in ret tt
  end.

(** ** Notions used in the further properties *)

(** The components of the world a cache operation leaves alone. *)
Definition same_store (w w' : World) : Prop :=
  db w' = db w ∧ dblog w' = dblog w ∧ now w' = now w ∧ heap w' = heap w
  ∧ redis_up w' = redis_up w.

(** How one call of the service may change the collection: not at all; by
    one new row; by a patch of the rows with one identifier, either of a
    post that is not soft-deleted or a patch that leaves [isDeleted] alone;
    or, for [deleteIntoDb], by removing the rows with one identifier. *)
Inductive db_change (rows : list Blog.t) : ServiceCall → list Blog.t → Prop :=
| db_same c : db_change rows c rows
| db_created req newId b :
    Blog.isDeleted b = false →
    db_change rows (CreateIntoDb req newId) (rows ++ [b])
| db_updated c i p b :
    Prisma.lookup (ById i) rows = Some b → Blog.isDeleted b = false →
    db_change rows c (Prisma.replace_row i p rows)
| db_counted c i p :
    p_isDeleted p = None →
    db_change rows c (Prisma.replace_row i p rows)
| db_deleted i :
    db_change rows (Mutate (MDelete i)) (filter (λ b, Blog.id b ≠ i) rows).

(** The keys a mutation of a post may write: the primary-key entry of the
    post, slug entries, the trending entry, the listing pages, the
    per-owner listings, the like markers of the post and its like counter. *)
Definition touched (m : Mutation) (k : string) : Prop :=
  k = CacheKeys.blog (target m)
  ∨ (∃ slug, k = CacheKeys.blogSlug slug)
  ∨ k = CacheKeys.trending
  ∨ (∃ rest, k = "blogs:all:" +:+ rest)
  ∨ (∃ rest, k = "blogs:user:" +:+ rest)
  ∨ (∃ userId, k = CacheKeys.userLike userId (target m))
  ∨ k = CacheKeys.likes (target m).

(** What a call leaves of the world: the collection changes as [db_change]
    allows, Redis stays up or down, no time passes, the arrays on the heap
    stay, and only keys in [P] are written. *)
Record effect (c : ServiceCall) (P : string → Prop) (w w' : World) : Prop := mk_effect {
  eff_db : db_change (db w) c (db w');
  eff_up : redis_up w' = redis_up w;
  eff_now : now w' = now w;
  eff_heap : heap w' = heap w;
  eff_redis : ∀ k, ¬ P k → redis w' !! k = redis w !! k
}.

(** The cache key a read looks up. *)
Definition read_key (by_slug : bool) (id slug : string) : string :=
  if by_slug then CacheKeys.blogSlug slug
  else if truthy id then CacheKeys.blog id
       else CacheKeys.blogSlug "undefined".

(** The entries a read meets hold payloads of their kind: the key of the
    read holds a snapshot if it holds anything, and the view counter of
    that snapshot an integer. *)
Definition kinds_respected (by_slug : bool) (id slug : string) (w : World) : Prop :=
  ∀ v, live w (read_key by_slug id slug) = Some v →
    ∃ b, v = RBlog b
         ∧ ∀ c, live w (CacheKeys.views (Blog.id b)) = Some c → ∃ z, c = RInt z.

(** No character of the string is special in a [KEYS] pattern. *)
Definition plain (s : string) : bool :=
  forallb (λ c, negb (bool_decide (c ∈ ["*"; "?"; "\"; "["]%char)))
    (list_ascii_of_string s).

(** The string holds no comma. *)
Fixpoint comma_free (s : string) : Prop :=
  match s with
  | EmptyString => True
  | String c s' => c ≠ ","%char ∧ comma_free s'
  end.

(** Reads of a post by slug, one after the other, each some seconds after
    the previous one. *)
Fixpoint reads_by_slug (slug : string) (gaps : list Z) : M (list Blog.t) :=
  match gaps with
  | [] => ret []
  | d :: gaps' =>
      let* _ := modify (tick d) in
      let* b := getBlogBySlug slug in
      let* bs := reads_by_slug slug gaps' in
      ret (b :: bs)
  end.

(** The counter of a post after [c] recorded views: absent before the first
    one, then an integer without expiry. *)
Definition counted (w : World) (k : string) (c : nat) : Prop :=
  (c = 0%nat ∧ redis w !! k = None)
  ∨ redis w !! k = Some (mkEntry (RInt (Z.of_nat c)) None).

(** [n] likes of the same post by the same user, one after the other, with
    the outcome of each; a call that fails does not stop the next one. *)
Fixpoint repeat_likes (n : nat) (blogId userId : string) (w : World)
    : list (Result string) * World :=
  match n with
  | O => ([], w)
  | S n' =>
      let '(r, w1) := likeBlog blogId userId w in
      let '(rs, w2) := repeat_likes n' blogId userId w1 in
      (r :: rs, w2)
  end.

(** ** Sample data for the further properties *)

(** The world after the post of [sample_world] was soft-deleted. *)
Definition deleted_world : World :=
  snd (softDeleteIntoDb "64f0c2a1" sample_world).

(** An update request that tries to bring a post back. *)
Definition restore : Patch :=
  mkPatch None None None None None (Some false) None None None.

(** The store of [sample_world], the array [["intro"]] at heap location 0,
    and the result of the search for it in the cache. *)
Definition searched_world : World :=
  snd (searchByTags 0%nat
         (mkWorld ∅ true 1000 [sample_post] [] (<[0%nat := ["intro"]]> ∅))).

(** A create request of user [u2] with the slug of the post of
    [sample_world]. *)
Definition reuse_request : Request :=
  mkRequest (Some "u2") "Hello again" "Same slug" "hello-world" None None.

(** * Proofs *)

(** ** Reading the world after a step *)

Section projections.
Context (w : World).

Lemma up_set_redis f : redis_up (set_redis f w) = redis_up w.
Proof. reflexivity. Qed.
Lemma up_set_db f : redis_up (set_db f w) = redis_up w.
Proof. reflexivity. Qed.
Lemma up_log_call c : redis_up (log_call c w) = redis_up w.
Proof. reflexivity. Qed.
Lemma up_set_heap f : redis_up (set_heap f w) = redis_up w.
Proof. reflexivity. Qed.
Lemma up_tick d : redis_up (tick d w) = redis_up w.
Proof. reflexivity. Qed.

Lemma now_set_redis f : now (set_redis f w) = now w.
Proof. reflexivity. Qed.
Lemma now_set_db f : now (set_db f w) = now w.
Proof. reflexivity. Qed.
Lemma now_log_call c : now (log_call c w) = now w.
Proof. reflexivity. Qed.
Lemma now_set_heap f : now (set_heap f w) = now w.
Proof. reflexivity. Qed.
Lemma now_tick d : now (tick d w) = now w + d.
Proof. reflexivity. Qed.

Lemma db_set_redis f : db (set_redis f w) = db w.
Proof. reflexivity. Qed.
Lemma db_set_db f : db (set_db f w) = f (db w).
Proof. reflexivity. Qed.
Lemma db_log_call c : db (log_call c w) = db w.
Proof. reflexivity. Qed.
Lemma db_set_heap f : db (set_heap f w) = db w.
Proof. reflexivity. Qed.
Lemma db_tick d : db (tick d w) = db w.
Proof. reflexivity. Qed.

Lemma dblog_set_redis f : dblog (set_redis f w) = dblog w.
Proof. reflexivity. Qed.
Lemma dblog_set_db f : dblog (set_db f w) = dblog w.
Proof. reflexivity. Qed.
Lemma dblog_log_call c : dblog (log_call c w) = dblog w ++ [c].
Proof. reflexivity. Qed.
Lemma dblog_set_heap f : dblog (set_heap f w) = dblog w.
Proof. reflexivity. Qed.
Lemma dblog_tick d : dblog (tick d w) = dblog w.
Proof. reflexivity. Qed.

Lemma heap_set_redis f : heap (set_redis f w) = heap w.
Proof. reflexivity. Qed.
Lemma heap_set_db f : heap (set_db f w) = heap w.
Proof. reflexivity. Qed.
Lemma heap_log_call c : heap (log_call c w) = heap w.
Proof. reflexivity. Qed.
Lemma heap_set_heap f : heap (set_heap f w) = f (heap w).
Proof. reflexivity. Qed.
Lemma heap_tick d : heap (tick d w) = heap w.
Proof. reflexivity. Qed.

Lemma redis_set_redis f : redis (set_redis f w) = f (redis w).
Proof. reflexivity. Qed.
Lemma redis_set_db f : redis (set_db f w) = redis w.
Proof. reflexivity. Qed.
Lemma redis_log_call c : redis (log_call c w) = redis w.
Proof. reflexivity. Qed.
Lemma redis_set_heap f : redis (set_heap f w) = redis w.
Proof. reflexivity. Qed.
Lemma redis_tick d : redis (tick d w) = redis w.
Proof. reflexivity. Qed.

Lemma live_set_db f k : live (set_db f w) k = live w k.
Proof. reflexivity. Qed.
Lemma live_log_call c k : live (log_call c w) k = live w k.
Proof. reflexivity. Qed.
Lemma live_set_heap f k : live (set_heap f w) k = live w k.
Proof. reflexivity. Qed.

Lemma up_set_up up : redis_up (set_up up w) = up.
Proof. reflexivity. Qed.
Lemma now_set_up up : now (set_up up w) = now w.
Proof. reflexivity. Qed.
Lemma db_set_up up : db (set_up up w) = db w.
Proof. reflexivity. Qed.
Lemma dblog_set_up up : dblog (set_up up w) = dblog w.
Proof. reflexivity. Qed.
Lemma heap_set_up up : heap (set_up up w) = heap w.
Proof. reflexivity. Qed.
Lemma redis_set_up up : redis (set_up up w) = redis w.
Proof. reflexivity. Qed.
Lemma live_set_up up k : live (set_up up w) k = live w k.
Proof. reflexivity. Qed.
End projections.

Create Rewrite HintDb world.
#[global] Hint Rewrite up_set_redis up_set_db up_log_call up_set_heap up_tick
  now_set_redis now_set_db now_log_call now_set_heap now_tick
  db_set_redis db_set_db db_log_call db_set_heap db_tick
  dblog_set_redis dblog_set_db dblog_log_call dblog_set_heap dblog_tick
  heap_set_redis heap_set_db heap_log_call heap_set_heap heap_tick
  redis_set_redis redis_set_db redis_log_call redis_set_heap redis_tick
  live_set_db live_log_call live_set_heap
  up_set_up now_set_up db_set_up dblog_set_up heap_set_up redis_set_up
  live_set_up : world.

Lemma set_redis_id (w : World) : set_redis (λ m, m) w = w.
Proof. by destruct w. Qed.

Lemma lookup_foldr_delete (m : gmap string Entry) (ks : list string) (k : string) :
  foldr delete m ks !! k = if decide (k ∈ ks) then None else m !! k.
Proof.
  induction ks as [|k' ks IH]; simpl.
  - destruct (decide (k ∈ [])) as [H|H]; [by apply elem_of_nil in H | done].
  - destruct (decide (k' = k)) as [->|Hne].
    + rewrite lookup_delete_eq.
      destruct (decide (k ∈ k :: ks)) as [H|H]; [done|].
      exfalso. apply H. left.
    + rewrite lookup_delete_ne, IH by done.
      destruct (decide (k ∈ ks)) as [H|H], (decide (k ∈ k' :: ks)) as [H'|H'];
        try done.
      * exfalso. apply H'. by right.
      * exfalso. apply elem_of_cons in H' as [?|?]; [by subst|done].
Qed.

Lemma live_insert (w : World) (k k' : string) (e : Entry) :
  live (set_redis (<[k := e]>) w) k' =
  if decide (k = k') then (if fresh (now w) e then Some (e_val e) else None)
  else live w k'.
Proof.
  unfold live. autorewrite with world.
  case_decide as H.
  - subst. by rewrite lookup_insert_eq.
  - by rewrite lookup_insert_ne.
Qed.

Lemma live_del (w : World) (ks : list string) (k : string) :
  live (set_redis (λ m, foldr delete m ks) w) k =
  if decide (k ∈ ks) then None else live w k.
Proof.
  unfold live. autorewrite with world. rewrite lookup_foldr_delete.
  by case_decide.
Qed.

(** ** One step of each primitive *)

Lemma bind_ok {A B} (m : M A) (k : A → M B) (w w' : World) (a : A) :
  m w = (Ok a, w') → bind m k w = k a w'.
Proof. unfold bind. by intros ->. Qed.

Lemma bind_err {A B} (m : M A) (k : A → M B) (w w' : World) (e : Error) :
  m w = (Err e, w') → bind m k w = (Err e, w').
Proof. unfold bind. by intros ->. Qed.

Section redis_up.
Context (w : World) (Hup : redis_up w = true).

Lemma redis_cmd_up {A} (m : M A) : redis_cmd m w = m w.
Proof. unfold redis_cmd. by rewrite Hup. Qed.

Lemma safeRedisGet_up k : safeRedisGet k w = (Ok (live w k), w).
Proof. unfold safeRedisGet, try_catch, Redis.get. by rewrite redis_cmd_up. Qed.

Lemma safeRedisSet_up k ttl v :
  safeRedisSet k ttl v w =
  (Ok tt, set_redis (<[k := mkEntry v (Some (now w + ttl))]>) w).
Proof. unfold safeRedisSet, try_catch, Redis.setex. by rewrite redis_cmd_up. Qed.

Lemma safeRedisDel_up ks :
  safeRedisDel ks w = (Ok tt, set_redis (λ m, foldr delete m ks) w).
Proof.
  destruct ks as [|k ks]; simpl.
  - unfold ret. by rewrite set_redis_id.
  - unfold try_catch, Redis.del. by rewrite redis_cmd_up.
Qed.

Lemma keys_up pat :
  try_catch (Redis.keys pat) (λ _, ret []) w =
  (Ok (filter (λ k, glob pat k = true ∧ is_Some (live w k))
         (map fst (map_to_list (redis w)))), w).
Proof. unfold try_catch, Redis.keys. by rewrite redis_cmd_up. Qed.
End redis_up.

Section redis_down.
Context (w : World) (Hdown : redis_up w = false).

Lemma redis_cmd_down {A} (m : M A) : redis_cmd m w = (Err RedisError, w).
Proof. unfold redis_cmd. by rewrite Hdown. Qed.

Lemma safeRedisGet_down k : safeRedisGet k w = (Ok None, w).
Proof. unfold safeRedisGet, try_catch, Redis.get. by rewrite redis_cmd_down. Qed.

Lemma safeRedisSet_down k ttl v : safeRedisSet k ttl v w = (Ok tt, w).
Proof. unfold safeRedisSet, try_catch, Redis.setex. by rewrite redis_cmd_down. Qed.

Lemma safeRedisDel_down ks : safeRedisDel ks w = (Ok tt, w).
Proof.
  destruct ks as [|k ks]; [done|].
  unfold safeRedisDel, try_catch, Redis.del. by rewrite redis_cmd_down.
Qed.

Lemma keys_down pat : try_catch (Redis.keys pat) (λ _, ret []) w = (Ok [], w).
Proof. unfold try_catch, Redis.keys. by rewrite redis_cmd_down. Qed.

Lemma invalidateBlogCache_down blogId slug :
  invalidateBlogCache blogId slug w = (Ok tt, w).
Proof.
  unfold invalidateBlogCache.
  rewrite (bind_ok _ _ _ _ _ (keys_down _)).
  rewrite (bind_ok _ _ _ _ _ (keys_down _)).
  apply safeRedisDel_down.
Qed.
End redis_down.

(** ** Facts about the [blogs] collection *)

Lemma place_Permutation {A} (R : relation A) `{!RelDecision R} (x : A) (l : list A) :
  Prisma.place R x l ≡ₚ x :: l.
Proof.
  induction l as [|y l IH]; [done|].
  simpl. case_decide; [done|].
  rewrite IH. apply Permutation_swap.
Qed.

Lemma orderBy_Permutation {A} (R : relation A) `{!RelDecision R} (l : list A) :
  Prisma.orderBy R l ≡ₚ l.
Proof.
  unfold Prisma.orderBy. induction l as [|x l IH]; [done|].
  simpl. by rewrite place_Permutation, IH.
Qed.

(** Where the order is total and transitive the result is sorted. *)
Lemma place_Sorted {A} (R : relation A) `{!RelDecision R} `{!Total R} (x : A) (l : list A) :
  Sorted R l → Sorted R (Prisma.place R x l).
Proof.
  induction 1 as [|y l Hs IH Hhd]; simpl.
  - by repeat constructor.
  - case_decide as Hxy.
    + constructor; [by constructor|by constructor].
    + constructor; [done|].
      destruct Hhd as [|z l Hyz]; simpl.
      * constructor. by destruct (total R x y).
      * case_decide; constructor; [by destruct (total R x y)|done].
Qed.

Lemma orderBy_Sorted {A} (R : relation A) `{!RelDecision R} `{!Total R} (l : list A) :
  Sorted R (Prisma.orderBy R l).
Proof.
  unfold Prisma.orderBy. induction l as [|x l IH]; simpl; [constructor|].
  by apply place_Sorted.
Qed.

(** Rows that are in order already, rows with equal keys among them, stay
    as they were inserted. *)
Lemma orderBy_stable {A} (R : relation A) `{!RelDecision R} (l : list A) :
  Sorted R l → Prisma.orderBy R l = l.
Proof.
  unfold Prisma.orderBy. induction 1 as [|x l Hs IH Hhd]; [done|].
  simpl. rewrite IH. destruct Hhd as [|y l Hxy]; [done|].
  simpl. by rewrite decide_True.
Qed.

Lemma matches_patched q i p b :
  p_slug p = None → Prisma.matches q (patched i p b) = Prisma.matches q b.
Proof.
  intros Hs. unfold patched. case_bool_decide; [|done].
  destruct q as [j|[s|]]; simpl; [done| |done].
  by rewrite Hs.
Qed.

Lemma lookup_replace_row q i p rows :
  p_slug p = None →
  Prisma.lookup q (Prisma.replace_row i p rows) = patched i p <$> Prisma.lookup q rows.
Proof.
  intros Hs. unfold Prisma.lookup, Prisma.replace_row.
  induction rows as [|b rows IH]; [done|].
  simpl. fold (patched i p b). rewrite matches_patched by done.
  destruct (Prisma.matches q b); [done|apply IH].
Qed.

Lemma lookup_by_id_id i rows b :
  Prisma.lookup (ById i) rows = Some b → Blog.id b = i.
Proof.
  unfold Prisma.lookup. intros H. apply find_some in H as [_ H].
  simpl in H. by apply bool_decide_eq_true in H.
Qed.

Lemma slug_free_not_taken s i rows :
  Prisma.lookup (BySlug (Some s)) rows = None → Prisma.slug_taken s i rows = false.
Proof.
  unfold Prisma.lookup, Prisma.slug_taken. intros H.
  induction rows as [|b rows IH]; [done|].
  simpl in *. destruct (bool_decide (Blog.slug b = s)); [done|].
  simpl. by apply IH.
Qed.

Lemma update_ok w i p b :
  Prisma.lookup (ById i) (db w) = Some b → p_slug p = None →
  Prisma.update i p w =
  (Ok (apply_patch p b), set_db (Prisma.replace_row i p) (log_call (Update i p) w)).
Proof. intros Hb Hs. unfold Prisma.update. by rewrite Hb, Hs. Qed.

(** ** Cache-degraded mode (C8) *)

Lemma incrementViews_down w blogId :
  redis_up w = false → incrementViews blogId None w = (Ok tt, w).
Proof.
  intros Hdown. unfold incrementViews, try_catch, bind, ret, Redis.incr, Redis.incrby.
  by rewrite redis_cmd_down.
Qed.

Lemma like_counter_down w k :
  redis_up w = false →
  try_catch (let* _ := Redis.incrby k 1 in ret tt) (λ _, ret tt) w = (Ok tt, w).
Proof.
  intros Hdown. unfold try_catch, bind, Redis.incrby. by rewrite redis_cmd_down.
Qed.

Lemma findUnique_eq w q :
  Prisma.findUnique q w = (Ok (Prisma.lookup q (db w)), log_call (FindUnique q) w).
Proof. reflexivity. Qed.

Lemma findFirst_eq w q :
  Prisma.findFirst q w = (Ok (Prisma.lookup q (db w)), log_call (FindFirst q) w).
Proof. reflexivity. Qed.

Lemma gets_eq {A} (f : World → A) w : gets f w = (Ok (f w), w).
Proof. reflexivity. Qed.

Lemma modify_eq f w : modify f w = (Ok tt, f w).
Proof. reflexivity. Qed.

Ltac world := autorewrite with world; try done.

Ltac side := autorewrite with world; solve [done | eassumption].

Ltac solve_step :=
  lazymatch goal with
  | |- safeRedisGet _ _ = _ =>
      first [ apply safeRedisGet_up; side | apply safeRedisGet_down; side ]
  | |- safeRedisSet _ _ _ _ = _ =>
      first [ apply safeRedisSet_up; side | apply safeRedisSet_down; side ]
  | |- safeRedisDel _ _ = _ =>
      first [ apply safeRedisDel_up; side | apply safeRedisDel_down; side ]
  | |- try_catch (Redis.keys _) _ _ = _ =>
      first [ apply keys_up; side | apply keys_down; side ]
  | |- try_catch (bind (Redis.incrby _ _) _) _ _ = _ =>
      apply like_counter_down; side
  | |- incrementViews _ None _ = _ => apply incrementViews_down; side
  | |- invalidateBlogCache _ _ _ = _ => apply invalidateBlogCache_down; side
  | |- Prisma.findUnique _ _ = _ => apply findUnique_eq
  | |- Prisma.findFirst _ _ = _ => apply findFirst_eq
  | |- Prisma.update _ _ _ = _ => apply update_ok; [side | reflexivity]
  | |- gets _ _ = _ => apply gets_eq
  | |- modify _ _ = _ => apply modify_eq
  end.

Ltac step :=
  cbv zeta; erewrite bind_ok; [| solve_step]; cbv beta match;
  autorewrite with world.

(** C8. With Redis failing on every command, [getBlogByIdFromDB],
    [createIntoDb] and [likeBlog] still succeed from the durable store alone:
    the failed cache read falls through to the store, and the failed cache
    writes, invalidations and counter updates are swallowed. *)
Theorem degraded_mode_succeeds (w : World) (Hdown : redis_up w = false) :
  (∀ id b, truthy id = true → Prisma.lookup (ById id) (db w) = Some b →
     Blog.isDeleted b = false →
     ∃ w', getBlogByIdFromDB id w = (Ok b, w') ∧ db w' = db w ∧ redis w' = redis w)
  ∧ (∀ req userId newId, req_user req = Some userId → truthy userId = true →
     Prisma.lookup (BySlug (Some (body_slug req))) (db w) = None →
     ∃ b w', createIntoDb req newId w = (Ok b, w') ∧ db w' = db w ++ [b]
       ∧ Blog.id b = newId ∧ Blog.slug b = body_slug req ∧ Blog.userId b = userId
       ∧ redis w' = redis w)
  ∧ (∀ blogId userId b, Prisma.lookup (ById blogId) (db w) = Some b →
     ∃ b' w', likeBlog blogId userId w = (Ok "Blog liked successfully", w')
       ∧ Prisma.lookup (ById blogId) (db w') = Some b'
       ∧ Blog.likes b' = Blog.likes b + 1 ∧ redis w' = redis w).
Proof.
  split; [|split].
  - intros id b Hid Hb Hdel.
    eexists. unfold getBlogByIdFromDB, getBlog. rewrite Hid.
    step.
    unfold truthy_opt. rewrite Hid. simpl default.
    step. rewrite Hb, Hdel.
    do 2 step.
    unfold ret. by world.
  - intros req userId newId Hu Ht Hfree.
    do 2 eexists. unfold createIntoDb. rewrite Hu, Ht. cbn [negb].
    step. rewrite Hfree. step.
    unfold bind at 1, Prisma.create. world.
    rewrite (slug_free_not_taken _ _ _ Hfree).
    do 5 step.
    unfold ret. by world.
  - intros blogId userId b Hb.
    do 2 eexists. unfold likeBlog, Redis.incr.
    do 5 step.
    unfold ret. split; [reflexivity|]. world.
    rewrite lookup_replace_row, Hb by done.
    split; [done|]. split; [|done].
    unfold patched. rewrite (lookup_by_id_id _ _ _ Hb).
    rewrite bool_decide_eq_true_2 by done. simpl. lia.
Qed.

(** The post of [degraded_world], read by identifier. *)
Lemma degraded_mode_succeeds_witness :
  ∃ w', getBlogByIdFromDB "64f0c2a1" degraded_world = (Ok sample_post, w')
    ∧ db w' = db degraded_world ∧ redis w' = redis degraded_world.
Proof.
  destruct (degraded_mode_succeeds degraded_world) as [H _].
  - reflexivity.
  - apply H; reflexivity.
Defined.

(** ** Cache keys never confused *)

Lemma length_append (s1 s2 : string) :
  String.length (s1 +:+ s2) = (String.length s1 + String.length s2)%nat.
Proof. induction s1 as [|c s1 IH]; simpl; [done|by rewrite IH]. Qed.

Lemma append_ne_self (p s : string) : p ≠ "" → p +:+ s ≠ s.
Proof.
  intros Hp Heq. apply (f_equal String.length) in Heq.
  rewrite length_append in Heq. destruct p; [done|simpl in Heq; lia].
Qed.

Lemma blog_ne_views (i : string) : CacheKeys.blog i ≠ CacheKeys.views i.
Proof.
  unfold CacheKeys.blog, CacheKeys.views. simpl. intros H.
  injection H as H. symmetry in H. by apply (append_ne_self "views:") in H.
Qed.

Lemma views_ne_blogSlug (i s : string) : CacheKeys.views i ≠ CacheKeys.blogSlug s.
Proof. unfold CacheKeys.views, CacheKeys.blogSlug. simpl. intros H. discriminate H. Qed.

Lemma blog_eq_blogSlug (i s : string) :
  CacheKeys.blog i = CacheKeys.blogSlug s → i = "slug:" +:+ s.
Proof. unfold CacheKeys.blog, CacheKeys.blogSlug. simpl. intros H. by injection H. Qed.

(** ** The view counter while Redis is up *)

Lemma incr_ok w k :
  redis_up w = true → counter_ok w k →
  Redis.incr k w = (Ok (count w k + 1), bump k w).
Proof.
  intros Hup Hok. unfold Redis.incr, Redis.incrby. rewrite redis_cmd_up by done.
  unfold bump, count, counter_ok, expiry_of, live in *.
  destruct (redis w !! k) as [e|]; [|done].
  destruct (fresh (now w) e); [|done].
  destruct (e_val e) as [z| |]; [|done|done].
  unfold max_safe_integer in Hok.
  replace ((Redis.int64_min <=? z + 1) && (z + 1 <=? Redis.int64_max)) with true; [done|].
  symmetry. apply andb_true_iff. unfold Redis.int64_min, Redis.int64_max. lia.
Qed.

Lemma live_bump w k k' :
  live (bump k w) k' = if decide (k = k') then Some (RInt (count w k + 1)) else live w k'.
Proof.
  unfold bump. rewrite live_insert. case_decide; [|done].
  replace (fresh (now w) _) with true; [done|].
  unfold fresh, expiry_of. simpl.
  destruct (redis w !! k) as [e|]; [|done].
  destruct (e_expire e) as [x|] eqn:He; unfold fresh; rewrite He; [|done].
  by destruct (now w <? x) eqn:Hx.
Qed.

Lemma incrementViews_up w id b :
  redis_up w = true → counter_ok w (CacheKeys.views id) →
  Prisma.lookup (ById id) (db w) = Some b →
  incrementViews id None w = (Ok tt, views_step id w).
Proof.
  intros Hup Hok Hb. unfold incrementViews, try_catch.
  cbv zeta. erewrite bind_ok; [|reflexivity]. cbv beta match.
  erewrite bind_ok; [|by apply incr_ok]. cbv beta.
  unfold views_step, flush_due.
  destruct (Z.rem (count w (CacheKeys.views id) + 1) 10 =? 0).
  - erewrite bind_ok.
    2:{ erewrite bind_ok; [reflexivity|]. apply update_ok; [|done].
        unfold bump. by autorewrite with world. }
    cbv beta. rewrite safeRedisDel_up; [done|]. unfold bump. by autorewrite with world.
  - erewrite bind_ok; [|reflexivity].
    cbv beta. rewrite safeRedisDel_up; [done|]. unfold bump. by autorewrite with world.
Qed.

Section views_step_facts.
Context (id : string) (w : World).

Lemma up_views_step : redis_up (views_step id w) = redis_up w.
Proof. unfold views_step, bump. by destruct (flush_due w id). Qed.

Lemma now_views_step : now (views_step id w) = now w.
Proof. unfold views_step, bump. by destruct (flush_due w id). Qed.

Lemma heap_views_step : heap (views_step id w) = heap w.
Proof. unfold views_step, bump. by destruct (flush_due w id). Qed.

Lemma db_views_step :
  db (views_step id w) =
  if flush_due w id then Prisma.replace_row id views_flush (db w) else db w.
Proof. unfold views_step, bump. by destruct (flush_due w id). Qed.

Lemma dblog_views_step :
  dblog (views_step id w) =
  dblog w ++ (if flush_due w id then [Update id views_flush] else []).
Proof.
  unfold views_step, bump. destruct (flush_due w id); autorewrite with world; [done|].
  by rewrite app_nil_r.
Qed.

Lemma live_views_step k :
  live (views_step id w) k =
  if decide (k = CacheKeys.blog id) then None
  else if decide (k = CacheKeys.views id)
       then Some (RInt (count w (CacheKeys.views id) + 1))
       else live w k.
Proof.
  unfold views_step. cbv zeta. rewrite live_del.
  destruct (decide (k ∈ [CacheKeys.blog id])) as [Hk|Hk].
  - apply list_elem_of_singleton in Hk. by rewrite decide_True.
  - rewrite decide_False by (intros ->; apply Hk; left).
    assert (Hl : ∀ w1, live (if flush_due w id
        then set_db (Prisma.replace_row id views_flush)
               (log_call (Update id views_flush) w1) else w1) k = live w1 k)
      by (intros w1; by destruct (flush_due w id)).
    rewrite Hl, live_bump.
    destruct (decide (CacheKeys.views id = k)) as [<-|Hne].
    + by rewrite decide_True.
    + by rewrite decide_False by done.
Qed.
End views_step_facts.

#[global] Hint Rewrite up_views_step now_views_step heap_views_step : world.

(** ** Counter flush boundary (C2) *)

Lemma flushes_app id l1 l2 :
  flushes id (l1 ++ l2) = (flushes id l1 + flushes id l2)%nat.
Proof. unfold flushes. by rewrite filter_app, length_app. Qed.

Lemma with_views_same b : with_views b (Blog.views b) = b.
Proof. by destruct b. Qed.

Lemma views_inv_start w id b :
  redis_up w = true → Prisma.lookup (ById id) (db w) = Some b →
  live w (CacheKeys.views id) = None → views_inv w id b 0 w.
Proof.
  intros Hup Hb Hc. split; [done| | | |].
  - unfold count. by rewrite Hc.
  - intros _. unfold counter_ok. by rewrite Hc.
  - rewrite Hb. simpl. rewrite Z.add_0_r. by rewrite with_views_same.
  - simpl. lia.
Qed.

Lemma div10_succ (n : nat) :
  (S n / 10)%nat
  = (n / 10 + (if (Z.rem (Z.of_nat n + 1) 10 =? 0)%Z then 1%nat else 0%nat))%nat.
Proof.
  rewrite Z.rem_mod_nonneg by lia.
  assert (H10 : (10 ≠ 0)%nat) by lia.
  pose proof (Nat.div_mod n 10 H10) as Hn.
  pose proof (Nat.mod_upper_bound n 10 H10) as Hlt.
  pose proof (Nat.div_mod (S n) 10 H10) as Hs.
  pose proof (Nat.mod_upper_bound (S n) 10 H10) as Hslt.
  replace (Z.of_nat n + 1) with (Z.of_nat (S n)) by lia.
  replace 10 with (Z.of_nat 10) by done.
  rewrite <- Nat2Z.inj_mod.
  destruct (Z.of_nat (S n `mod` 10) =? 0) eqn:Hz.
  - apply Z.eqb_eq in Hz. nia.
  - apply Z.eqb_neq in Hz. nia.
Qed.

Lemma div10_succ_Z (n : nat) :
  Z.of_nat (S n) / 10
  = Z.of_nat n / 10 + if Z.rem (Z.of_nat n + 1) 10 =? 0 then 1 else 0.
Proof.
  pose proof (div10_succ n) as H.
  assert (E1 : Z.of_nat (S n) / 10 = Z.of_nat (S n / 10))
    by (by rewrite Nat2Z.inj_div).
  assert (E2 : Z.of_nat n / 10 = Z.of_nat (n / 10))
    by (by rewrite Nat2Z.inj_div).
  rewrite E1, E2, H.
  destruct (Z.rem (Z.of_nat n + 1) 10 =? 0); lia.
Qed.

Lemma views_inv_step w0 id b n w :
  Z.of_nat n < max_safe_integer →
  views_inv w0 id b n w → views_inv w0 id b (S n) (views_step id w).
Proof.
  intros Hn [Hup Hc Hok Hrow Hlog].
  assert (Hdue : flush_due w id = (Z.rem (Z.of_nat n + 1) 10 =? 0))
    by (unfold flush_due; by rewrite Hc).
  split.
  - by autorewrite with world.
  - unfold count. rewrite live_views_step.
    rewrite decide_False by (intros H; by apply (blog_ne_views id)).
    rewrite decide_True by done. rewrite Hc. lia.
  - intros Hn'. unfold counter_ok. rewrite live_views_step.
    rewrite decide_False by (intros H; by apply (blog_ne_views id)).
    rewrite decide_True by done. rewrite Hc. lia.
  - rewrite db_views_step, Hdue, div10_succ_Z.
    destruct (Z.rem (Z.of_nat n + 1) 10 =? 0).
    + rewrite lookup_replace_row, Hrow by done. simpl. unfold patched. simpl.
      assert (Hid : Blog.id b = id) by (by apply lookup_by_id_id in Hrow).
      rewrite bool_decide_eq_true_2 by done.
      unfold apply_patch, with_views. simpl. do 2 f_equal. lia.
    + rewrite Hrow. do 2 f_equal. lia.
  - rewrite dblog_views_step, flushes_app, Hlog, Hdue, div10_succ.
    assert (H0 : flushes id [] = 0%nat) by done.
    assert (H1 : flushes id [Update id views_flush] = 1%nat).
    { unfold flushes. by rewrite filter_cons_True by done. }
    destruct (Z.rem (Z.of_nat n + 1) 10 =? 0); lia.
Qed.

Lemma repeat_views_run w id b n :
  redis_up w = true → Prisma.lookup (ById id) (db w) = Some b →
  live w (CacheKeys.views id) = None → Z.of_nat n ≤ max_safe_integer →
  ∃ w', repeat_views n id w = (Ok tt, w') ∧ views_inv w id b n w'.
Proof.
  intros Hup Hb Hc. induction n as [|n IH]; intros Hn.
  - exists w. split; [done|]. by apply views_inv_start.
  - destruct IH as (w' & Hrun & Hinv); [lia|].
    exists (views_step id w'). split.
    + simpl. erewrite bind_ok by exact Hrun.
      destruct Hinv as [Hup' _ Hok' Hrow' _].
      eapply incrementViews_up; [done|apply Hok'; lia|exact Hrow'].
    + apply views_inv_step; [lia|done].
Qed.

Lemma after_views_succ w id b k :
  redis_up w = true → Prisma.lookup (ById id) (db w) = Some b →
  live w (CacheKeys.views id) = None → Z.of_nat (S k) ≤ max_safe_integer →
  after_views (S k) id w = views_step id (after_views k id w).
Proof.
  intros Hup Hb Hc Hk.
  destruct (repeat_views_run w id b k Hup Hb Hc) as (wk & Hrun & Hinv); [lia|].
  unfold after_views. simpl. erewrite bind_ok by exact Hrun. rewrite Hrun. simpl.
  destruct Hinv as [Hup' _ Hok' Hrow' _].
  erewrite incrementViews_up; [done|done|apply Hok'; lia|exact Hrow'].
Qed.

(** On the concrete post, nineteen recordings leave the persisted count at
    10 and the Redis counter at 19: their sum is 29. *)
Example nineteen_views_state :
  let w' := after_views 19 "64f0c2a1" sample_world in
  flushes "64f0c2a1" (dblog w') = 1%nat
  ∧ dblog (after_views 9 "64f0c2a1" sample_world) = []
  ∧ dblog (after_views 10 "64f0c2a1" sample_world)
    = [Update "64f0c2a1" views_flush]
  ∧ persisted_views w' "64f0c2a1" = 10
  ∧ redis_counter w' "64f0c2a1" = 19.
Proof. vm_compute. repeat split. Qed.

(** The invariant as the specification words it fails: after 19 recordings
    the persisted count plus the Redis counter is 29, not 19, because the
    counter is never reset when a batch is flushed. *)
Lemma counter_is_unflushed_delta_fails : ¬ counter_is_unflushed_delta.
Proof.
  intros H.
  destruct (H sample_world "64f0c2a1"
              sample_post 19%nat eq_refl eq_refl eq_refl)
    as [_ Hsum].
  vm_compute in Hsum. discriminate Hsum.
Qed.

(** The flush boundary in general.  From a post with persisted view count
    [v0] and no Redis counter, [n] sequential [incrementViews] calls issue
    exactly [n / 10] durable increments of 10, one at each call whose number
    is a multiple of 10; the Redis counter equals [n] and the persisted
    count is [v0 + 10 * (n / 10)], so that their sum is [v0 + n] only as
    long as nothing has been flushed. *)
Theorem view_counter_flush_boundary (w : World) (id : string) (b : Blog.t) (n : nat) :
  redis_up w = true →
  Prisma.lookup (ById id) (db w) = Some b →
  live w (CacheKeys.views id) = None →
  Z.of_nat n ≤ max_safe_integer →
  let w' := after_views n id w in
  repeat_views n id w = (Ok tt, w')
  ∧ flushes id (dblog w') = (flushes id (dblog w) + n / 10)%nat
  ∧ persisted_views w' id = Blog.views b + 10 * (Z.of_nat n / 10)
  ∧ redis_counter w' id = Z.of_nat n
  ∧ persisted_views w' id + redis_counter w' id `mod` 10 = Blog.views b + Z.of_nat n
  ∧ (∀ k, (k < n)%nat →
       dblog (after_views (S k) id w)
       = dblog (after_views k id w)
         ++ (if Z.of_nat (S k) `mod` 10 =? 0 then [Update id views_flush] else [])).
Proof.
  intros Hup Hb Hc Hn w'.
  destruct (repeat_views_run w id b n Hup Hb Hc Hn) as (wn & Hrun & Hinv).
  assert (Hw' : w' = wn) by (subst w'; unfold after_views; by rewrite Hrun).
  rewrite Hw'. destruct Hinv as [_ Hcount _ Hrow Hlog].
  assert (Hp : persisted_views wn id = Blog.views b + 10 * (Z.of_nat n / 10))
    by (unfold persisted_views; by rewrite Hrow).
  split; [done|]. split; [done|]. split; [done|]. split; [done|]. split.
  - rewrite Hp. unfold redis_counter. rewrite Hcount.
    pose proof (Z.div_mod (Z.of_nat n) 10). lia.
  - intros k Hk.
    rewrite (after_views_succ w id b k) by (done || lia).
    rewrite dblog_views_step. f_equal.
    destruct (repeat_views_run w id b k Hup Hb Hc) as (wk & Hrunk & Hinvk); [lia|].
    unfold after_views. rewrite Hrunk. simpl.
    unfold flush_due. rewrite (vi_count _ _ _ _ _ Hinvk).
    rewrite Z.rem_mod_nonneg by lia.
    by replace (Z.of_nat k + 1) with (Z.of_nat (S k)) by lia.
Qed.

(** C2. Nineteen recordings on the post of [sample_world], which starts
    with 0 views and no counter.  One durable increment of 10 is issued, at
    the 10th call, as the claim says; but the counter is not reset by the
    flush: the persisted count is then 10 and the counter 19, and their sum
    is 29 where the claim says 19.  [getBlog] itself adds the whole counter
    to the persisted count of the snapshot it serves: after ten reads by
    identifier and seven reads by slug, the seventeenth view of the post is
    reported as the 27th. *)
Theorem view_counter_never_reset :
  repeat_views 19 "64f0c2a1" sample_world
  = (Ok tt, after_views 19 "64f0c2a1" sample_world)
  ∧ dblog (after_views 9 "64f0c2a1" sample_world) = []
  ∧ dblog (after_views 10 "64f0c2a1" sample_world) = [Update "64f0c2a1" views_flush]
  ∧ dblog (after_views 19 "64f0c2a1" sample_world) = [Update "64f0c2a1" views_flush]
  ∧ persisted_views (after_views 19 "64f0c2a1" sample_world) "64f0c2a1" = 10
  ∧ redis_counter (after_views 19 "64f0c2a1" sample_world) "64f0c2a1" = 19
  ∧ persisted_views (after_views 19 "64f0c2a1" sample_world) "64f0c2a1"
    + redis_counter (after_views 19 "64f0c2a1" sample_world) "64f0c2a1" = 29
  ∧ fst ((let* _ := repeat_reads 10 "64f0c2a1" in
          let* bs := reads_by_slug "hello-world" (replicate 7 1) in
          ret (Blog.views <$> bs)) sample_world)
    = Ok [10; 22; 23; 24; 25; 26; 27].
Proof.
  split; [by vm_compute|].
  split_and!; by vm_compute.
Qed.

(** Nineteen recordings on the post of [sample_world]. *)
Lemma view_counter_flush_boundary_witness :
  flushes "64f0c2a1" (dblog (after_views 19 "64f0c2a1" sample_world))
  = (flushes "64f0c2a1" (dblog sample_world) + 19 / 10)%nat
  ∧ persisted_views (after_views 19 "64f0c2a1" sample_world) "64f0c2a1"
    = Blog.views sample_post + 10 * (Z.of_nat 19 / 10).
Proof.
  destruct (view_counter_flush_boundary sample_world "64f0c2a1" sample_post 19)
    as (_ & H1 & H2 & _).
  - reflexivity.
  - reflexivity.
  - reflexivity.
  - unfold max_safe_integer. lia.
  - split; [exact H1 | exact H2].
Defined.

(** ** Cache population (C1) *)


Lemma redis_views_step id w k :
  redis (views_step id w) !! k =
  if decide (k = CacheKeys.blog id) then None
  else if decide (k = CacheKeys.views id)
       then Some (mkEntry (RInt (count w (CacheKeys.views id) + 1))
                    (expiry_of w (CacheKeys.views id)))
       else redis w !! k.
Proof.
  unfold views_step. cbv zeta. autorewrite with world.
  rewrite lookup_foldr_delete.
  destruct (decide (k ∈ [CacheKeys.blog id])) as [Hk|Hk].
  - apply list_elem_of_singleton in Hk. by rewrite decide_True.
  - rewrite decide_False by (intros ->; apply Hk; left).
    assert (Hl : ∀ w1, redis (if flush_due w id
        then set_db (Prisma.replace_row id views_flush)
               (log_call (Update id views_flush) w1) else w1) = redis w1)
      by (intros w1; by destruct (flush_due w id)).
    rewrite Hl. unfold bump. autorewrite with world.
    destruct (decide (k = CacheKeys.views id)) as [->|Hne].
    + by rewrite lookup_insert_eq.
    + by rewrite lookup_insert_ne.
Qed.








(** A read by slug served from the cached snapshot [b]. *)
Lemma getBlogBySlug_hit w slug b b' :
  redis_up w = true →
  live w (CacheKeys.blogSlug slug) = Some (RBlog b) →
  Prisma.lookup (ById (Blog.id b)) (db w) = Some b' →
  counter_ok w (CacheKeys.views (Blog.id b)) →
  getBlogBySlug slug w =
  (Ok (with_views b (Blog.views b + (count w (CacheKeys.views (Blog.id b)) + 1))),
   views_step (Blog.id b) w).
Proof.
  intros Hup Hhit Hb' Hok.
  unfold getBlogBySlug, getBlog. simpl default.
  step. rewrite Hhit.
  erewrite bind_ok; [|by eapply incrementViews_up]. cbv beta.
  step. rewrite live_views_step.
  rewrite decide_False by (intros H; symmetry in H; by apply blog_ne_views in H).
  by rewrite decide_True by done.
Qed.



Lemma lookup_views_step_some id w q b :
  Prisma.lookup q (db w) = Some b →
  Prisma.lookup q (db (views_step id w))
  = Some (if flush_due w id then patched id views_flush b else b).
Proof.
  intros Hb. rewrite db_views_step. destruct (flush_due w id); [|done].
  by rewrite lookup_replace_row, Hb.
Qed.





(** ** Invalidation while Redis is up *)

Lemma glob_star (s : string) : glob "*" s = true.
Proof. induction s as [|c s IH]; [done|]. simpl in *. by rewrite IH. Qed.

Lemma glob_all_iff (k : string) :
  glob "blogs:all:*" k = true ↔ ∃ rest, k = "blogs:all:" +:+ rest.
Proof.
  split.
  - intros H.
    do 10 (destruct k as [|? k]; [discriminate H|]; simpl in H;
           apply andb_true_iff in H as [Hc H];
           apply bool_decide_eq_true in Hc; subst).
    by exists k.
  - intros [rest ->]. simpl. apply (glob_star rest).
Qed.

Lemma glob_user_iff (k : string) :
  glob "blogs:user:*" k = true ↔ ∃ rest, k = "blogs:user:" +:+ rest.
Proof.
  split.
  - intros H.
    do 11 (destruct k as [|? k]; [discriminate H|]; simpl in H;
           apply andb_true_iff in H as [Hc H];
           apply bool_decide_eq_true in Hc; subst).
    by exists k.
  - intros [rest ->]. simpl. apply (glob_star rest).
Qed.

Lemma elem_of_matching pat w k :
  k ∈ matching pat w ↔ glob pat k = true ∧ is_Some (live w k).
Proof.
  unfold matching. rewrite list_elem_of_filter. split; [tauto|].
  intros [Hg Hl]. split; [done|].
  apply list_elem_of_fmap. unfold live in Hl.
  destruct (redis w !! k) as [e|] eqn:He; [|by destruct Hl].
  exists (k, e). split; [done|]. by apply elem_of_map_to_list.
Qed.

Lemma invalidateBlogCache_up w blogId slug :
  redis_up w = true →
  invalidateBlogCache blogId slug w = (Ok tt, invalidated blogId slug w).
Proof.
  intros Hup. unfold invalidateBlogCache. cbv zeta.
  erewrite bind_ok; [|by apply keys_up]. cbv beta.
  erewrite bind_ok; [|by apply keys_up]. cbv beta.
  by rewrite safeRedisDel_up.
Qed.

Section invalidated_facts.
Context (blogId : string) (slug : option string) (w : World).

Lemma up_invalidated : redis_up (invalidated blogId slug w) = redis_up w.
Proof. reflexivity. Qed.
Lemma now_invalidated : now (invalidated blogId slug w) = now w.
Proof. reflexivity. Qed.
Lemma db_invalidated : db (invalidated blogId slug w) = db w.
Proof. reflexivity. Qed.
Lemma dblog_invalidated : dblog (invalidated blogId slug w) = dblog w.
Proof. reflexivity. Qed.
Lemma heap_invalidated : heap (invalidated blogId slug w) = heap w.
Proof. reflexivity. Qed.

Lemma live_invalidated k :
  live (invalidated blogId slug w) k =
  if decide (k ∈ doomed blogId slug w) then None else live w k.
Proof. apply live_del. Qed.

Lemma live_invalidated_blog : live (invalidated blogId slug w) (CacheKeys.blog blogId) = None.
Proof.
  rewrite live_invalidated, decide_True; [done|].
  unfold doomed. apply elem_of_app. left. left.
Qed.

Lemma live_invalidated_trending : live (invalidated blogId slug w) CacheKeys.trending = None.
Proof.
  rewrite live_invalidated, decide_True; [done|].
  unfold doomed. apply elem_of_app. left. right. left.
Qed.

Lemma live_invalidated_slug s :
  slug = Some s → s ≠ "" → live (invalidated blogId slug w) (CacheKeys.blogSlug s) = None.
Proof.
  intros Hslug Hs. rewrite live_invalidated, decide_True; [done|].
  unfold doomed, slug_keys, truthy. rewrite Hslug.
  rewrite bool_decide_eq_false_2 by done. simpl.
  do 2 right. left.
Qed.

Lemma live_invalidated_match pat k :
  pat = "blogs:all:*" ∨ pat = "blogs:user:*" →
  glob pat k = true → live (invalidated blogId slug w) k = None.
Proof.
  intros Hpat Hg. rewrite live_invalidated.
  destruct (decide (k ∈ doomed blogId slug w)) as [|Hk]; [done|].
  destruct (live w k) as [v|] eqn:Hl; [|done].
  exfalso. apply Hk. unfold doomed. apply elem_of_app. right.
  apply elem_of_app.
  destruct Hpat as [-> | ->]; [left|right]; apply elem_of_matching; by rewrite Hl.
Qed.

Lemma live_invalidated_allBlogs page limit :
  live (invalidated blogId slug w) (CacheKeys.allBlogs page limit) = None.
Proof.
  apply (live_invalidated_match "blogs:all:*"); [by left|].
  apply glob_all_iff. unfold CacheKeys.allBlogs. by eexists.
Qed.

Lemma live_invalidated_myBlogs userId :
  live (invalidated blogId slug w) (CacheKeys.myBlogs userId) = None.
Proof.
  apply (live_invalidated_match "blogs:user:*"); [by right|].
  apply glob_user_iff. unfold CacheKeys.myBlogs. by eexists.
Qed.

End invalidated_facts.

#[global] Hint Rewrite up_invalidated now_invalidated db_invalidated
  dblog_invalidated heap_invalidated : world.

Lemma redis_invalidated blogId slug w k :
  redis (invalidated blogId slug w) !! k =
  if decide (k ∈ doomed blogId slug w) then None else redis w !! k.
Proof. unfold invalidated. autorewrite with world. apply lookup_foldr_delete. Qed.

Lemma elem_of_doomed blogId slug w k :
  k ∈ doomed blogId slug w →
  k = CacheKeys.blog blogId ∨ k = CacheKeys.trending ∨ k ∈ slug_keys slug
  ∨ (∃ rest, k = "blogs:all:" +:+ rest) ∨ (∃ rest, k = "blogs:user:" +:+ rest).
Proof.
  unfold doomed. rewrite !elem_of_app, !elem_of_cons, !elem_of_matching.
  intros [[[?|[?|Hn]]|?]|[[Hg _]|[Hg _]]]; auto.
  - by apply elem_of_nil in Hn.
  - apply glob_all_iff in Hg. auto.
  - apply glob_user_iff in Hg. auto 6.
Qed.

(** Keys of the [blog:] families never carry the [blogs] prefix of the
    listing families. *)
Lemma blog_not_plural i rest : CacheKeys.blog i ≠ "blogs" +:+ rest.
Proof. unfold CacheKeys.blog. simpl. intros H. discriminate H. Qed.

Lemma blogSlug_not_plural s rest : CacheKeys.blogSlug s ≠ "blogs" +:+ rest.
Proof. unfold CacheKeys.blogSlug. simpl. intros H. discriminate H. Qed.

Lemma blogSlug_inj s1 s2 : CacheKeys.blogSlug s1 = CacheKeys.blogSlug s2 → s1 = s2.
Proof. unfold CacheKeys.blogSlug. simpl. intros H. by injection H. Qed.

(** The like counter update inside [likeBlog] and [unlikeBlog]: whatever
    Redis answers, the step returns and touches only the counter key. *)
Lemma like_counter_total w k d :
  ∃ w2, try_catch (let* _ := Redis.incrby k d in ret tt) (λ _, ret tt) w = (Ok tt, w2)
    ∧ redis_up w2 = redis_up w ∧ now w2 = now w ∧ db w2 = db w
    ∧ dblog w2 = dblog w ∧ heap w2 = heap w
    ∧ (∀ k', k' ≠ k → redis w2 !! k' = redis w !! k').
Proof.
  unfold try_catch, bind, ret, Redis.incrby, redis_cmd.
  destruct (redis_up w) eqn:Hup; [|by exists w].
  destruct (redis w !! k) as [e|] eqn:He.
  - destruct (fresh (now w) e).
    + destruct (e_val e) as [z| |]; try by exists w.
      destruct ((Redis.int64_min <=? z + d) && (z + d <=? Redis.int64_max));
        [|by exists w].
      eexists. split; [done|]. autorewrite with world.
      split_and!; try done. intros k' Hk. by rewrite lookup_insert_ne.
    + eexists. split; [done|]. autorewrite with world.
      split_and!; try done. intros k' Hk. by rewrite lookup_insert_ne.
  - eexists. split; [done|]. autorewrite with world.
    split_and!; try done. intros k' Hk. by rewrite lookup_insert_ne.
Qed.

Lemma lookup_replace_row_by_id j i p rows :
  Prisma.lookup (ById j) (Prisma.replace_row i p rows)
  = patched i p <$> Prisma.lookup (ById j) rows.
Proof.
  unfold Prisma.lookup, Prisma.replace_row.
  induction rows as [|b rows IH]; [done|].
  simpl. fold (patched i p b).
  assert (Hid : Blog.id (patched i p b) = Blog.id b)
    by (unfold patched; by destruct (bool_decide (Blog.id b = i))).
  rewrite Hid.
  destruct (bool_decide (Blog.id b = j)); [done|apply IH].
Qed.

Lemma update_cases w i p b :
  Prisma.lookup (ById i) (db w) = Some b →
  Prisma.update i p w = (Err PrismaUnique, log_call (Update i p) w)
  ∨ Prisma.update i p w =
    (Ok (apply_patch p b), set_db (Prisma.replace_row i p) (log_call (Update i p) w)).
Proof.
  intros Hb. unfold Prisma.update. rewrite Hb.
  destruct (match p_slug p with Some s => _ | None => _ end); auto.
Qed.

Lemma fresh_new t ttl v : 0 < ttl → fresh t (mkEntry v (Some (t + ttl))) = true.
Proof. intros H. unfold fresh. simpl. apply Z.ltb_lt. lia. Qed.

Lemma delete_ok w i b :
  Prisma.lookup (ById i) (db w) = Some b →
  Prisma.delete i w =
  (Ok tt, set_db (filter (λ b, Blog.id b ≠ i)) (log_call (Delete i) w)).
Proof. intros Hb. unfold Prisma.delete. by rewrite Hb. Qed.

Ltac solve_step_up :=
  lazymatch goal with
  | |- invalidateBlogCache _ _ _ = _ =>
      first [ apply invalidateBlogCache_up; side
            | apply invalidateBlogCache_down; side ]
  | |- Prisma.delete _ _ = _ => eapply delete_ok; side
  | _ => solve_step
  end.

Ltac run :=
  cbv zeta; erewrite bind_ok; [| solve_step_up]; cbv beta match;
  autorewrite with world.

Ltac stop := unfold bind, throw; intros [=].

(** ** Invalidation completeness (C3) *)

(** C3, counterexample: after [updateIntoDb] the primary-key entry is not
    absent, it holds the snapshot of the updated row. *)
Lemma every_mutation_clears_every_key_fails : ¬ every_mutation_clears_every_key.
Proof.
  intros H.
  destruct (H (MUpdate "64f0c2a1" retitle) sample_world
              (snd (run_mutation (MUpdate "64f0c2a1" retitle) sample_world))
              sample_post eq_refl eq_refl) as [Hblog _].
  - by vm_compute.
  - vm_compute in Hblog. discriminate Hblog.
Qed.

Lemma listings_absent_invalidated blogId slug w :
  listings_absent (invalidated blogId slug w).
Proof.
  split; [apply live_invalidated_trending|].
  split; [apply live_invalidated_allBlogs|apply live_invalidated_myBlogs].
Qed.

Lemma delete_ends_invalidated w id b r w' :
  redis_up w = true → Prisma.lookup (ById id) (db w) = Some b →
  deleteIntoDb id w = (Ok r, w') →
  ∃ w1, w' = invalidated id (Some (Blog.slug b)) w1.
Proof.
  intros Hup Hb. unfold deleteIntoDb.
  run. rewrite Hb.
  do 2 run. intros [= _ <-]. by eexists.
Qed.

Lemma softDelete_ends_invalidated w id b r w' :
  redis_up w = true → Prisma.lookup (ById id) (db w) = Some b →
  softDeleteIntoDb id w = (Ok r, w') →
  ∃ w1, w' = invalidated id (Some (Blog.slug b)) w1
    ∧ db w1 = Prisma.replace_row id (soft_delete (now w)) (db w)
    ∧ Blog.isDeleted b = false.
Proof.
  intros Hup Hb. unfold softDeleteIntoDb.
  run. rewrite Hb.
  destruct (Blog.isDeleted b); [stop|].
  do 3 run. intros [= _ <-]. eexists. split; [done|]. by autorewrite with world.
Qed.

Lemma like_ends_invalidated w blogId userId b r w' :
  redis_up w = true → Prisma.lookup (ById blogId) (db w) = Some b →
  likeBlog blogId userId w = (Ok r, w') →
  ∃ w1, w' = invalidated blogId None w1.
Proof.
  intros Hup Hb. unfold likeBlog, Redis.incr.
  run. destruct (live w _); [stop|].
  run.
  match goal with
  | |- context [bind (try_catch _ _) _ ?w1] =>
      destruct (like_counter_total w1 (CacheKeys.likes blogId) 1)
        as (w2 & Hrun & Hup2 & _ & Hdb2 & _)
  end.
  erewrite bind_ok by exact Hrun. cbv beta.
  autorewrite with world in Hup2, Hdb2.
  erewrite bind_ok; [|apply update_ok; [by rewrite Hdb2|done]]. cbv beta.
  erewrite bind_ok; [|apply invalidateBlogCache_up; autorewrite with world; congruence].
  intros [= _ <-]. by eexists.
Qed.

Lemma unlike_ends_invalidated w blogId userId b r w' :
  redis_up w = true → Prisma.lookup (ById blogId) (db w) = Some b →
  unlikeBlog blogId userId w = (Ok r, w') →
  ∃ w1, w' = invalidated blogId None w1.
Proof.
  intros Hup Hb. unfold unlikeBlog, Redis.decr.
  run. destruct (live w _); [|stop].
  run.
  match goal with
  | |- context [bind (try_catch _ _) _ ?w1] =>
      destruct (like_counter_total w1 (CacheKeys.likes blogId) (-1))
        as (w2 & Hrun & Hup2 & _ & Hdb2 & _)
  end.
  erewrite bind_ok by exact Hrun. cbv beta.
  autorewrite with world in Hup2, Hdb2.
  erewrite bind_ok; [|apply update_ok; [by rewrite Hdb2|done]]. cbv beta.
  erewrite bind_ok; [|apply invalidateBlogCache_up; autorewrite with world; congruence].
  intros [= _ <-]. by eexists.
Qed.

Lemma bind_assoc {A B C} (m : M A) (f : A → M B) (g : B → M C) (w : World) :
  bind (bind m f) g w = bind m (λ x, bind (f x) g) w.
Proof. unfold bind. by destruct (m w) as [[a|e] w1]. Qed.

Lemma bind_ret {A B} (a : A) (k : A → M B) (w : World) : bind (ret a) k w = k a w.
Proof. reflexivity. Qed.

Lemma live_insert_new w k k' v t ttl :
  now w = t → 0 < ttl →
  live (set_redis (<[k := mkEntry v (Some (t + ttl))]>) w) k'
  = if decide (k = k') then Some v else live w k'.
Proof. intros <- H. rewrite live_insert. by rewrite fresh_new. Qed.

Lemma blog_ne_trending i : CacheKeys.blog i ≠ CacheKeys.trending.
Proof. apply (blog_not_plural i ":trending"). Qed.

Lemma blog_ne_allBlogs i page limit : CacheKeys.blog i ≠ CacheKeys.allBlogs page limit.
Proof. apply (blog_not_plural i (":all:" +:+ pretty page +:+ ":" +:+ pretty limit)). Qed.

Lemma blog_ne_myBlogs i u : CacheKeys.blog i ≠ CacheKeys.myBlogs u.
Proof. apply (blog_not_plural i (":user:" +:+ u)). Qed.

Lemma blogSlug_ne_trending s : CacheKeys.blogSlug s ≠ CacheKeys.trending.
Proof. apply (blogSlug_not_plural s ":trending"). Qed.

Lemma blogSlug_ne_allBlogs s page limit :
  CacheKeys.blogSlug s ≠ CacheKeys.allBlogs page limit.
Proof. apply (blogSlug_not_plural s (":all:" +:+ pretty page +:+ ":" +:+ pretty limit)). Qed.

Lemma blogSlug_ne_myBlogs s u : CacheKeys.blogSlug s ≠ CacheKeys.myBlogs u.
Proof. apply (blogSlug_not_plural s (":user:" +:+ u)). Qed.

(** Storing a snapshot under a [blog:] key leaves the listings absent. *)
Lemma listings_absent_set_blog w i v t ttl :
  now w = t → 0 < ttl → listings_absent w →
  listings_absent (set_redis (<[CacheKeys.blog i := mkEntry v (Some (t + ttl))]>) w).
Proof.
  intros Hnow Httl (Ht & Ha & Hu). split_and!; intros; rewrite live_insert_new by done.
  - by rewrite decide_False by apply blog_ne_trending.
  - by rewrite decide_False by apply blog_ne_allBlogs.
  - by rewrite decide_False by apply blog_ne_myBlogs.
Qed.

Lemma listings_absent_set_blogSlug w s v t ttl :
  now w = t → 0 < ttl → listings_absent w →
  listings_absent (set_redis (<[CacheKeys.blogSlug s := mkEntry v (Some (t + ttl))]>) w).
Proof.
  intros Hnow Httl (Ht & Ha & Hu). split_and!; intros; rewrite live_insert_new by done.
  - by rewrite decide_False by apply blogSlug_ne_trending.
  - by rewrite decide_False by apply blogSlug_ne_allBlogs.
  - by rewrite decide_False by apply blogSlug_ne_myBlogs.
Qed.

Lemma update_recaches w id data b r w' :
  redis_up w = true → Prisma.lookup (ById id) (db w) = Some b →
  updateIntoDb id data w = (Ok r, w') →
  listings_absent w' ∧ recached id b r w'.
Proof.
  intros Hup Hb. unfold updateIntoDb.
  assert (Hid : Blog.id b = id) by (by apply lookup_by_id_id in Hb).
  assert (Httl : 0 < CacheTTL.blog) by done.
  run. rewrite Hb. destruct (Blog.isDeleted b); [stop|].
  match goal with |- bind _ ?K _ = _ → _ => set (tail := K) end.
  assert (Htail : ∀ wc, redis_up wc = true → db wc = db w →
            tail tt wc = (Ok r, w') → listings_absent w' ∧ recached id b r w').
  { intros wc Hupc Hdbc. subst tail. cbv beta. run.
    destruct (update_cases wc id (stamped data (now wc)) b) as [He|Ho];
      [by rewrite Hdbc| |].
    { erewrite bind_err by exact He. intros [=]. }
    erewrite bind_ok by exact Ho. cbv beta.
    set (r' := apply_patch (stamped data (now wc)) b).
    do 2 run.
    set (w1 := invalidated id (Some (Blog.slug b)) _).
    assert (Hrow : Prisma.lookup (ById id) (db w1) = Some r').
    { subst w1. autorewrite with world.
      rewrite lookup_replace_row_by_id, Hdbc, Hb. simpl. unfold patched.
      by rewrite bool_decide_eq_true_2. }
    assert (Hnow : now w1 = now wc) by (subst w1; by autorewrite with world).
    set (w2 := set_redis (<[CacheKeys.blog id := _]>) w1).
    assert (Hnow2 : now w2 = now wc) by (subst w2; by autorewrite with world).
    assert (Hrow2 : Prisma.lookup (ById id) (db w2) = Some r')
      by (subst w2; by autorewrite with world).
    assert (Hup2 : redis_up w2 = true) by (subst w2; by autorewrite with world).
    assert (Hl2 : listings_absent w2).
    { apply listings_absent_set_blog; [done|done|]. apply listings_absent_invalidated. }
    assert (Hnew : live w2 (CacheKeys.blog id) = Some (RBlog r')).
    { subst w2. rewrite live_insert_new by done. by rewrite decide_True. }
    assert (Hold : Blog.slug b ≠ "" → id ≠ "slug:" +:+ Blog.slug b →
              live w2 (CacheKeys.blogSlug (Blog.slug b)) = None).
    { intros Hs Hne. subst w2. rewrite live_insert_new by done.
      rewrite decide_False by (intros H; by apply blog_eq_blogSlug in H).
      subst w1. by apply live_invalidated_slug. }
    clearbody w2.
    destruct (bool_decide (Blog.slug r' = Blog.slug b)) eqn:Hsl; simpl negb; cbv match.
    - apply bool_decide_eq_true in Hsl.
      rewrite bind_ret. intros [= <- <-]. unfold recached. by split_and!.
    - apply bool_decide_eq_false in Hsl.
      run. rewrite Hnow2.
      intros [= <- <-]. unfold recached.
      split; [by apply listings_absent_set_blogSlug|].
      split; [by autorewrite with world|]. split.
      { rewrite live_insert_new by done. by destruct (decide _). }
      split.
      { intros _. rewrite live_insert_new by done. by rewrite decide_True. }
      intros Hs Hne. rewrite live_insert_new by done.
      rewrite decide_False by (intros H; by apply blogSlug_inj in H).
      by apply Hold. }
  destruct (p_slug data) as [s|]; [|rewrite bind_ret; by apply Htail; autorewrite with world].
  destruct (truthy s && negb (bool_decide (s = Blog.slug b)));
    [|rewrite bind_ret; by apply Htail; autorewrite with world].
  rewrite bind_assoc. run.
  destruct (Prisma.lookup (BySlug (Some s)) (db w)); [stop|].
  rewrite bind_ret. by apply Htail; autorewrite with world.
Qed.

(** C3, amended. Every successful mutation leaves the trending entry, every
    listing page and every per-owner listing absent.  A hard or soft delete
    also leaves the primary-key entry and the entry of the post's (non-empty)
    slug absent.  A like or unlike leaves the primary-key entry absent.  An
    update removes the entry of the old slug and then stores the updated row
    again under the primary key, and under the new slug when the slug
    changed. *)
Theorem invalidation_after_mutation (m : Mutation) (w w' : World) (b : Blog.t) :
  redis_up w = true →
  Prisma.lookup (ById (target m)) (db w) = Some b →
  run_mutation m w = (Ok tt, w') →
  listings_absent w'
  ∧ match m with
    | MDelete id | MSoftDelete id =>
        live w' (CacheKeys.blog id) = None
        ∧ (Blog.slug b ≠ "" → live w' (CacheKeys.blogSlug (Blog.slug b)) = None)
    | MLike id _ | MUnlike id _ => live w' (CacheKeys.blog id) = None
    | MUpdate id _ => ∃ r, recached id b r w'
    end.
Proof.
  intros Hup Hb. destruct m as [id data|id|id|id u|id u]; simpl in Hb; simpl.
  - destruct (updateIntoDb id data w) as [[r|e] w1] eqn:Hrun;
      unfold bind; rewrite Hrun; intros [= <-].
    destruct (update_recaches _ _ _ _ _ _ Hup Hb Hrun). eauto.
  - destruct (deleteIntoDb id w) as [[r|e] w1] eqn:Hrun;
      unfold bind; rewrite Hrun; intros [= <-].
    destruct (delete_ends_invalidated _ _ _ _ _ Hup Hb Hrun) as [w2 ->].
    split; [apply listings_absent_invalidated|].
    split; [apply live_invalidated_blog|]. intros Hs. by apply live_invalidated_slug.
  - destruct (softDeleteIntoDb id w) as [[r|e] w1] eqn:Hrun;
      unfold bind; rewrite Hrun; intros [= <-].
    destruct (softDelete_ends_invalidated _ _ _ _ _ Hup Hb Hrun) as (w2 & -> & _).
    split; [apply listings_absent_invalidated|].
    split; [apply live_invalidated_blog|]. intros Hs. by apply live_invalidated_slug.
  - destruct (likeBlog id u w) as [[r|e] w1] eqn:Hrun;
      unfold bind; rewrite Hrun; intros [= <-].
    destruct (like_ends_invalidated _ _ _ _ _ _ Hup Hb Hrun) as [w2 ->].
    split; [apply listings_absent_invalidated|apply live_invalidated_blog].
  - destruct (unlikeBlog id u w) as [[r|e] w1] eqn:Hrun;
      unfold bind; rewrite Hrun; intros [= <-].
    destruct (unlike_ends_invalidated _ _ _ _ _ _ Hup Hb Hrun) as [w2 ->].
    split; [apply listings_absent_invalidated|apply live_invalidated_blog].
Qed.

(** The soft delete of the second post in [warm_world], where its
    primary-key entry, its slug entry, the trending entry, a listing page
    and its author's listing are all cached before the call. *)
Lemma invalidation_after_mutation_witness :
  (live warm_world (CacheKeys.blog "75a1d3b2") = Some (RBlog second_post)
   ∧ live warm_world (CacheKeys.blogSlug "caching") = Some (RBlog second_post)
   ∧ live warm_world CacheKeys.trending = Some (RBlogs [sample_post; second_post])
   ∧ live warm_world (CacheKeys.allBlogs 1 10) = Some (RBlogs [second_post; sample_post])
   ∧ live warm_world (CacheKeys.myBlogs "u2") = Some (RBlogs [second_post]))
  ∧ listings_absent (snd (run_mutation (MSoftDelete "75a1d3b2") warm_world))
  ∧ live (snd (run_mutation (MSoftDelete "75a1d3b2") warm_world))
      (CacheKeys.blog "75a1d3b2") = None
  ∧ live (snd (run_mutation (MSoftDelete "75a1d3b2") warm_world))
      (CacheKeys.blogSlug "caching") = None.
Proof.
  split; [by vm_compute|].
  destruct (invalidation_after_mutation (MSoftDelete "75a1d3b2") warm_world
              (snd (run_mutation (MSoftDelete "75a1d3b2") warm_world))
              second_post) as (H1 & H2 & H3).
  - reflexivity.
  - reflexivity.
  - vm_compute. reflexivity.
  - split; [exact H1|]. split; [exact H2|]. apply H3. discriminate.
Defined.

(** ** Soft-delete visibility (C4) *)

(** C4, counterexample: the snapshot of the post is cached under its slug
    when Redis becomes unreachable.  The soft delete succeeds all the same,
    its invalidation is swallowed, and once Redis is back the read by slug
    is served from the entry stored before the delete. *)
Lemma soft_deleted_never_served_fails : ¬ soft_deleted_never_served.
Proof.
  intros H.
  specialize (H outage_world (snd (softDeleteIntoDb "64f0c2a1" outage_world))
                "64f0c2a1" sample_post
                "Blog soft deleted successfully" [mkRead 1 true true]
                eq_refl eq_refl eq_refl).
  destruct H as [Hread _]; [by vm_compute|].
  vm_compute in Hread. discriminate Hread.
Qed.

(** The slip of [invalidateBlogCache] on the empty slug, which is falsy:
    [createIntoDb] caches a post whose slug is the empty string under
    [blog:slug:], the soft delete skips that key, and a read by the empty
    slug is served from it. *)
Example empty_slug_entry_survives :
  fst (softDeleteIntoDb "64f0c2a1" empty_slug_world) = Ok "Blog soft deleted successfully"
  ∧ match fst (getBlogBySlug "" (tick 1 (snd (softDeleteIntoDb "64f0c2a1"
                                                 empty_slug_world)))) with
    | Ok b => Blog.id b = "64f0c2a1" ∧ Blog.isDeleted b = false
    | Err _ => False
    end.
Proof. by vm_compute. Qed.

Lemma safeRedisGet_absent w k : redis w !! k = None → safeRedisGet k w = (Ok None, w).
Proof.
  intros Hk. unfold safeRedisGet, try_catch, Redis.get, redis_cmd, gets, live.
  rewrite Hk. by destruct (redis_up w).
Qed.

Lemma getBlogByIdFromDB_gone w id b :
  truthy id = true → redis w !! CacheKeys.blog id = None →
  Prisma.lookup (ById id) (db w) = Some b → Blog.isDeleted b = true →
  getBlogByIdFromDB id w = (Err NotFound, log_call (FindFirst (ById id)) w).
Proof.
  intros Hid Hk Hb Hdel. unfold getBlogByIdFromDB, getBlog. rewrite Hid.
  erewrite bind_ok by (by apply safeRedisGet_absent). cbv beta match.
  unfold truthy_opt. rewrite Hid. simpl default.
  run. by rewrite Hb, Hdel.
Qed.

Lemma getBlogBySlug_gone w slug b :
  redis w !! CacheKeys.blogSlug slug = None →
  Prisma.lookup (BySlug (Some slug)) (db w) = Some b → Blog.isDeleted b = true →
  getBlogBySlug slug w = (Err NotFound, log_call (FindFirst (BySlug (Some slug))) w).
Proof.
  intros Hk Hb Hdel. unfold getBlogBySlug, getBlog. simpl default.
  erewrite bind_ok by (by apply safeRedisGet_absent). cbv beta match.
  unfold truthy_opt.
  run. by rewrite Hb, Hdel.
Qed.

Lemma gone_tick id slug ws w d : gone id slug ws w → gone id slug ws (tick d w).
Proof. intros [? ? ? ?]. by split; autorewrite with world. Qed.

Lemma gone_at_read id slug ws w rd : gone id slug ws w → gone id slug ws (at_read rd w).
Proof. intros [? ? ? ?]. unfold at_read. by split; autorewrite with world. Qed.

Lemma gone_log_call id slug ws w c : gone id slug ws w → gone id slug ws (log_call c w).
Proof. intros [? ? ? ?]. by split; autorewrite with world. Qed.

Lemma gone_all_not_found id slug ws reads w :
  truthy id = true → gone id slug ws w →
  Forall (λ rd, rd_by_slug rd = true → ws = true) reads →
  all_not_found id slug reads w.
Proof.
  intros Hid Hgone Hreads. revert w Hgone.
  induction Hreads as [|[d up by_slug] reads Hr _ IH]; intros w Hgone; [done|].
  simpl in Hr. cbn [all_not_found rd_by_slug].
  set (rd := mkRead d up by_slug).
  pose proof (gone_at_read _ _ _ _ rd Hgone)
    as [Hk Hs (b1 & Hb1 & Hd1) (b2 & Hb2 & Hd2)].
  destruct by_slug; unfold read_post.
  - rewrite (getBlogBySlug_gone _ _ b2) by auto. simpl.
    split; [done|]. apply IH. by apply gone_log_call, gone_at_read.
  - rewrite (getBlogByIdFromDB_gone _ _ b1) by auto. simpl.
    split; [done|]. apply IH. by apply gone_log_call, gone_at_read.
Qed.

Lemma softDelete_gone w w1 id b r :
  redis_up w = true →
  Prisma.lookup (ById id) (db w) = Some b →
  Prisma.lookup (BySlug (Some (Blog.slug b))) (db w) = Some b →
  softDeleteIntoDb id w = (Ok r, w1) →
  gone id (Blog.slug b) (truthy (Blog.slug b)) w1.
Proof.
  intros Hup Hb Hs Hrun.
  destruct (softDelete_ends_invalidated _ _ _ _ _ Hup Hb Hrun) as (w2 & -> & Hdb & _).
  assert (Hid : Blog.id b = id) by (by apply lookup_by_id_id in Hb).
  assert (Hrow : ∀ q, Prisma.lookup q (db w) = Some b →
            ∃ b', Prisma.lookup q (db (invalidated id (Some (Blog.slug b)) w2)) = Some b'
                  ∧ Blog.isDeleted b' = true).
  { intros q Hq. autorewrite with world. rewrite Hdb.
    rewrite lookup_replace_row, Hq by done. eexists. split; [done|].
    unfold patched. by rewrite bool_decide_eq_true_2. }
  split; [| |by apply Hrow|by apply Hrow].
  - rewrite redis_invalidated, decide_True; [done|]. unfold doomed. left.
  - intros Ht. rewrite redis_invalidated, decide_True; [done|].
    unfold doomed, slug_keys. rewrite Ht. simpl. do 2 right. left.
Qed.

(** C4, amended. After a [softDeleteIntoDb] that succeeded while Redis was
    reachable, every later read of the post by identifier fails with
    [NotFound], and so does every later read by slug when the slug is not
    the empty string, whether Redis is reachable at the read or not: the
    soft delete itself removed the entries, whatever their remaining TTL. *)
Theorem soft_delete_visibility
    (w w1 : World) (id : string) (b : Blog.t) (r : string) (reads : list LaterRead) :
  redis_up w = true → truthy id = true →
  Prisma.lookup (ById id) (db w) = Some b →
  Prisma.lookup (BySlug (Some (Blog.slug b))) (db w) = Some b →
  softDeleteIntoDb id w = (Ok r, w1) →
  Blog.slug b ≠ "" ∨ Forall (λ rd, rd_by_slug rd = false) reads →
  all_not_found id (Blog.slug b) reads w1.
Proof.
  intros Hup Hid Hb Hs Hrun Hcase.
  apply (gone_all_not_found id (Blog.slug b) (truthy (Blog.slug b))); [done| |].
  - by apply (softDelete_gone w w1 id b r).
  - destruct Hcase as [Hne|Hall].
    + apply Forall_forall. intros rd _ _. unfold truthy.
      by rewrite bool_decide_eq_false_2.
    + eapply Forall_impl; [exact Hall|]. intros rd Hrd Ht. congruence.
Qed.

(** The second post of [created_world], whose snapshot is cached under its
    primary key and under its slug when it is soft-deleted; it is then read
    by slug, by identifier, and by slug again while Redis is unreachable. *)
Lemma soft_delete_visibility_witness :
  (live created_world (CacheKeys.blog "75a1d3b2") = Some (RBlog second_post)
   ∧ live created_world (CacheKeys.blogSlug "caching") = Some (RBlog second_post))
  ∧ all_not_found "75a1d3b2" "caching"
      [mkRead 1 true true; mkRead 5 true false; mkRead 5 false true]
      (snd (softDeleteIntoDb "75a1d3b2" created_world)).
Proof.
  split; [by vm_compute|].
  apply (soft_delete_visibility created_world
           (snd (softDeleteIntoDb "75a1d3b2" created_world))
           "75a1d3b2" second_post "Blog soft deleted successfully").
  - reflexivity.
  - reflexivity.
  - reflexivity.
  - reflexivity.
  - vm_compute. reflexivity.
  - left. discriminate.
Defined.

(** ** Likes (C5, C6) *)

Lemma userLike_ne_blog u i : CacheKeys.userLike u i ≠ CacheKeys.blog i.
Proof.
  unfold CacheKeys.userLike, CacheKeys.blog. simpl. intros H. injection H as H.
  apply (f_equal String.length) in H. simpl in H.
  rewrite !length_append in H. simpl in H. lia.
Qed.

Lemma userLike_ne_likes u i j : CacheKeys.userLike u i ≠ CacheKeys.likes j.
Proof. unfold CacheKeys.userLike, CacheKeys.likes. simpl. intros H. discriminate H. Qed.

Lemma userLike_not_plural u i rest : CacheKeys.userLike u i ≠ "blogs" +:+ rest.
Proof. unfold CacheKeys.userLike. simpl. intros H. discriminate H. Qed.

(** Invalidation without a slug never touches a like marker. *)
Lemma userLike_not_doomed u i w : CacheKeys.userLike u i ∉ doomed i None w.
Proof.
  intros H. apply elem_of_doomed in H as [H|[H|[H|[[rest H]|[rest H]]]]].
  - by apply userLike_ne_blog in H.
  - by apply (userLike_not_plural u i ":trending") in H.
  - by apply elem_of_nil in H.
  - by apply (userLike_not_plural u i (":all:" +:+ rest)) in H.
  - by apply (userLike_not_plural u i (":user:" +:+ rest)) in H.
Qed.

(** C5, counterexample: while Redis is unreachable the marker can be
    neither read nor written, and the second of two likes made one after
    the other succeeds like the first; the durable count has then risen by
    2. *)
Lemma second_like_refused_fails : ¬ second_like_refused.
Proof.
  intros H.
  destruct (H degraded_world "64f0c2a1" "u2" sample_post 0 eq_refl eq_refl)
    as (w1 & w2 & b' & H1 & H2 & _); [done|].
  vm_compute in H1. injection H1 as <-.
  vm_compute in H2. discriminate H2.
Qed.

(** With Redis reachable the same happens once the marker has expired: a
    second like 30 days after the first succeeds. *)
Example second_like_after_expiry :
  fst (likeBlog "64f0c2a1" "u2"
         (tick CacheTTL.userLike (snd (likeBlog "64f0c2a1" "u2" sample_world))))
  = Ok "Blog liked successfully".
Proof. by vm_compute. Qed.

(** C5, amended. For a post in the store and a user without a like marker,
    with Redis reachable, the first [likeBlog] succeeds and a second one,
    any time before the marker's 30 days have passed, fails with
    [AlreadyLiked]; across the two calls the durable like count rises by
    exactly 1 and one durable increment is issued. *)
Theorem like_twice (w : World) (blogId userId : string) (b : Blog.t) (d : Z) :
  redis_up w = true →
  Prisma.lookup (ById blogId) (db w) = Some b →
  live w (CacheKeys.userLike userId blogId) = None →
  0 ≤ d < CacheTTL.userLike →
  ∃ w1 w2 b',
    likeBlog blogId userId w = (Ok "Blog liked successfully", w1)
    ∧ likeBlog blogId userId (tick d w1) = (Err AlreadyLiked, w2)
    ∧ Prisma.lookup (ById blogId) (db w2) = Some b'
    ∧ Blog.likes b' = Blog.likes b + 1
    ∧ dblog w2 = dblog w ++ [Update blogId (likes_by (NIncrement 1))].
Proof.
  intros Hup Hb Hmark [Hd0 Hd1].
  set (marker := CacheKeys.userLike userId blogId).
  set (wa := set_redis (<[marker := mkEntry (RInt 1) (Some (now w + CacheTTL.userLike))]>) w).
  destruct (like_counter_total wa (CacheKeys.likes blogId) 1)
    as (wb & Hrun & Hupb & Hnowb & Hdbb & Hlogb & _ & Hframe).
  change (redis_up wa) with (redis_up w) in Hupb.
  change (now wa) with (now w) in Hnowb.
  change (db wa) with (db w) in Hdbb.
  change (dblog wa) with (dblog w) in Hlogb.
  set (wc := set_db (Prisma.replace_row blogId (likes_by (NIncrement 1)))
               (log_call (Update blogId (likes_by (NIncrement 1))) wb)).
  set (w1 := invalidated blogId None wc).
  assert (Hfirst : likeBlog blogId userId w = (Ok "Blog liked successfully", w1)).
  { unfold likeBlog, Redis.incr. run. rewrite Hmark. fold marker. fold wa.
    run. erewrite bind_ok by exact Hrun. cbv beta.
    erewrite bind_ok; [|apply update_ok; [by rewrite Hdbb|done]]. cbv beta.
    erewrite bind_ok; [|apply invalidateBlogCache_up; autorewrite with world; congruence].
    done. }
  assert (Hentry : redis w1 !! marker
                   = Some (mkEntry (RInt 1) (Some (now w + CacheTTL.userLike)))).
  { subst w1. rewrite redis_invalidated.
    rewrite decide_False by apply userLike_not_doomed.
    subst wc. autorewrite with world.
    rewrite Hframe by apply userLike_ne_likes.
    subst wa. autorewrite with world. by rewrite lookup_insert_eq. }
  assert (Hnow1 : now w1 = now w).
  { subst w1 wc. autorewrite with world. by rewrite Hnowb. }
  assert (Hup1 : redis_up w1 = true).
  { subst w1 wc. autorewrite with world. congruence. }
  assert (Hid : Blog.id b = blogId) by (by apply lookup_by_id_id in Hb).
  assert (Hrow1 : Prisma.lookup (ById blogId) (db w1)
                  = Some (apply_patch (likes_by (NIncrement 1)) b)).
  { subst w1 wc. autorewrite with world.
    rewrite lookup_replace_row, Hdbb by done.
    rewrite Hb. simpl. unfold patched. by rewrite bool_decide_eq_true_2. }
  assert (Hlog1 : dblog w1 = dblog w ++ [Update blogId (likes_by (NIncrement 1))]).
  { subst w1 wc. autorewrite with world. by rewrite Hlogb. }
  clearbody w1.
  assert (Hlive : live (tick d w1) marker = Some (RInt 1)).
  { unfold live. rewrite redis_tick, now_tick, Hentry, Hnow1. unfold fresh. simpl.
    by replace (now w + d <? now w + CacheTTL.userLike) with true
      by (symmetry; apply Z.ltb_lt; lia). }
  exists w1, (tick d w1), (apply_patch (likes_by (NIncrement 1)) b).
  split; [done|]. split.
  { unfold likeBlog. run. fold marker. by rewrite Hlive. }
  split_and!; autorewrite with world; [done| |done].
  simpl. lia.
Qed.

(** User [u2] likes the post of [sample_world] twice, an hour apart. *)
Lemma like_twice_witness :
  ∃ w1 w2 b',
    likeBlog "64f0c2a1" "u2" sample_world = (Ok "Blog liked successfully", w1)
    ∧ likeBlog "64f0c2a1" "u2" (tick 3600 w1) = (Err AlreadyLiked, w2)
    ∧ Prisma.lookup (ById "64f0c2a1") (db w2) = Some b'
    ∧ Blog.likes b' = Blog.likes sample_post + 1
    ∧ dblog w2 = dblog sample_world
                 ++ [Update "64f0c2a1" (likes_by (NIncrement 1))].
Proof.
  apply (like_twice sample_world "64f0c2a1" "u2" sample_post 3600).
  - reflexivity.
  - reflexivity.
  - reflexivity.
  - unfold CacheTTL.userLike. lia.
Defined.

(** C6, counterexample: the marker of [u2] is still there and the persisted
    count is 0; the unlike succeeds and leaves the count at -1. *)
Lemma unlike_never_below_zero_fails : ¬ unlike_never_below_zero.
Proof.
  intros H.
  destruct (H reset_likes_world (snd (unlikeBlog "64f0c2a1" "u2" reset_likes_world))
              "64f0c2a1" "u2"
              (Blog.mk "64f0c2a1" "hello-world" "Hello" "First post" ["intro"]
                 true false "u1" 0 0 900 1000)
              (RInt 1) "Blog unliked successfully" eq_refl eq_refl eq_refl)
    as (b' & Hb' & Hlikes); [done|by vm_compute|].
  vm_compute in Hb'. injection Hb' as <-. simpl in Hlikes. lia.
Qed.

(** C6, amended. Without a live marker (or with Redis down) [unlikeBlog]
    fails with [NotLiked] and changes nothing.  With a marker and the post
    in the store it succeeds: the marker is gone, the persisted like count
    is one less than before, with no floor at zero, one durable decrement
    was issued, and the primary-key snapshot is gone. *)
Theorem unlike_behaviour (w : World) (blogId userId : string) :
  (redis_up w = false ∨ live w (CacheKeys.userLike userId blogId) = None →
   unlikeBlog blogId userId w = (Err NotLiked, w))
  ∧ (∀ v b,
       redis_up w = true →
       live w (CacheKeys.userLike userId blogId) = Some v →
       Prisma.lookup (ById blogId) (db w) = Some b →
       ∃ w' b',
         unlikeBlog blogId userId w = (Ok "Blog unliked successfully", w')
         ∧ live w' (CacheKeys.userLike userId blogId) = None
         ∧ Prisma.lookup (ById blogId) (db w') = Some b'
         ∧ Blog.likes b' = Blog.likes b - 1
         ∧ dblog w' = dblog w ++ [Update blogId (likes_by (NDecrement 1))]
         ∧ live w' (CacheKeys.blog blogId) = None).
Proof.
  set (marker := CacheKeys.userLike userId blogId). split.
  - intros Hcase. unfold unlikeBlog. fold marker.
    destruct (redis_up w) eqn:Hup.
    + destruct Hcase as [|Hnone]; [done|]. run. by rewrite Hnone.
    + by run.
  - intros v b Hup Hlive Hb.
    set (wa := set_redis (λ m, foldr delete m [marker]) w).
    destruct (like_counter_total wa (CacheKeys.likes blogId) (-1))
      as (wb & Hrun & Hupb & Hnowb & Hdbb & Hlogb & _ & Hframe).
    change (redis_up wa) with (redis_up w) in Hupb.
    change (db wa) with (db w) in Hdbb.
    change (dblog wa) with (dblog w) in Hlogb.
    set (wc := set_db (Prisma.replace_row blogId (likes_by (NDecrement 1)))
                 (log_call (Update blogId (likes_by (NDecrement 1))) wb)).
    assert (Hid : Blog.id b = blogId) by (by apply lookup_by_id_id in Hb).
    exists (invalidated blogId None wc), (apply_patch (likes_by (NDecrement 1)) b).
    split_and!.
    + unfold unlikeBlog, Redis.decr. fold marker. run. rewrite Hlive.
      run. fold wa. erewrite bind_ok by exact Hrun. cbv beta.
      erewrite bind_ok; [|apply update_ok; [by rewrite Hdbb|done]]. cbv beta.
      erewrite bind_ok; [|apply invalidateBlogCache_up; autorewrite with world; congruence].
      done.
    + unfold live. rewrite redis_invalidated.
      destruct (decide _); [done|]. subst wc. autorewrite with world.
      rewrite Hframe by apply userLike_ne_likes.
      subst wa. autorewrite with world. rewrite lookup_foldr_delete.
      by rewrite decide_True by left.
    + subst wc. autorewrite with world.
      rewrite lookup_replace_row, Hdbb, Hb by done. simpl. unfold patched.
      by rewrite bool_decide_eq_true_2.
    + simpl. lia.
    + subst wc. autorewrite with world. by rewrite Hlogb.
    + apply live_invalidated_blog.
Qed.

(** User [u2] never liked the post of [sample_world]. *)
Lemma unlike_behaviour_witness :
  unlikeBlog "64f0c2a1" "u2" sample_world = (Err NotLiked, sample_world).
Proof.
  destruct (unlike_behaviour sample_world "64f0c2a1" "u2") as [H _].
  apply H. right. reflexivity.
Defined.

(** ** Tag search (C7, C10) *)

Example search_key_ts_cache :
  search_key ["ts"; "cache"] = "blogs:search:tags:cache,ts"
  ∧ search_key ["cache"; "ts"] = "blogs:search:tags:cache,ts"
  ∧ search_key ["ts"; "cache"; "ts"] = "blogs:search:tags:cache,ts,ts".
Proof. by vm_compute. Qed.

(** C7, counterexample: a repeated tag stays in the key. *)
Lemma same_set_same_key_fails : ¬ same_set_same_key.
Proof.
  intros H. specialize (H ["ts"; "cache"; "ts"] ["ts"; "cache"]).
  assert (Hset : ∀ x : string, x ∈ ["ts"; "cache"; "ts"] ↔ x ∈ ["ts"; "cache"]).
  { intros x. rewrite !elem_of_cons. pose proof (elem_of_nil x). tauto. }
  specialize (H Hset). vm_compute in H. discriminate H.
Qed.

Lemma sort_sorted (tags : list string) : Sorted String.le (sort tags).
Proof. apply Sorted_merge_sort, _. Qed.

Lemma sort_permutation (tags : list string) : sort tags ≡ₚ tags.
Proof. apply merge_sort_Permutation. Qed.

Lemma sort_of_permutation (t1 t2 : list string) : t1 ≡ₚ t2 → sort t1 = sort t2.
Proof.
  intros Hp. apply (Sorted_unique String.le); [apply sort_sorted..|].
  by rewrite !sort_permutation.
Qed.

Lemma searchByTags_unfold w tags elems :
  heap w !! tags = Some elems →
  searchByTags tags w
  = search_sorted (sort elems) (set_heap (<[tags := sort elems]>) w).
Proof.
  intros Hh. unfold searchByTags. run. rewrite Hh. run. reflexivity.
Qed.

Lemma findMany_eq w ts :
  Prisma.findMany ts w = (Ok (found ts w), log_call (FindMany ts) w).
Proof. reflexivity. Qed.

Lemma search_sorted_outcome sorted w :
  search_sorted sorted w = search_outcome sorted w.
Proof.
  unfold search_sorted, search_outcome. cbv zeta.
  set (k := "blogs:search:tags:" +:+ join "," sorted).
  destruct (redis_up w) eqn:Hup.
  - run. destruct (live w k) as [[z|b|bs]|]; try done.
    erewrite bind_ok by apply findMany_eq. cbv beta. by run.
  - run. erewrite bind_ok by apply findMany_eq. cbv beta. by run.
Qed.

(** The search neither reads nor writes the heap. *)
Lemma search_sorted_heap sorted f w :
  search_sorted sorted (set_heap f w)
  = (fst (search_sorted sorted w), set_heap f (snd (search_sorted sorted w))).
Proof.
  rewrite !search_sorted_outcome. unfold search_outcome, found. cbv zeta.
  autorewrite with world.
  destruct (redis_up w); [|done].
  by destruct (live w _) as [[z|b|bs]|].
Qed.

Lemma search_sorted_keeps_heap sorted w :
  heap (snd (search_sorted sorted w)) = heap w.
Proof.
  rewrite search_sorted_outcome. unfold search_outcome. cbv zeta.
  destruct (redis_up w); [|done].
  by destruct (live w _) as [[z|b|bs]|].
Qed.

(** A search that misses stores its result for [CacheTTL.list] seconds. *)
Lemma search_sorted_miss sorted w r w1 :
  redis_up w = true →
  live w ("blogs:search:tags:" +:+ join "," sorted) = None →
  search_sorted sorted w = (Ok r, w1) →
  w1 = set_redis (<["blogs:search:tags:" +:+ join "," sorted
                    := mkEntry (RBlogs r) (Some (now w + CacheTTL.list))]>)
         (log_call (FindMany sorted) w).
Proof.
  intros Hup Hmiss. rewrite search_sorted_outcome. unfold search_outcome. cbv zeta.
  rewrite Hup, Hmiss. by intros [= <- <-].
Qed.

Lemma search_sorted_hit sorted w r :
  redis_up w = true →
  live w ("blogs:search:tags:" +:+ join "," sorted) = Some (RBlogs r) →
  search_sorted sorted w = (Ok r, w).
Proof.
  intros Hup Hhit. rewrite search_sorted_outcome. unfold search_outcome. cbv zeta.
  by rewrite Hup, Hhit.
Qed.

Lemma search_key_sorted (tags : list string) :
  search_key tags = "blogs:search:tags:" +:+ join "," (sort tags).
Proof. reflexivity. Qed.

(** C7, amended. Two tag lists that are permutations of each other (the
    same tags with the same multiplicities, in any order) get the same
    cache key, the key being a function of the sorted list with duplicates
    kept.  From the same state both searches return the same result, and
    when the first search misses, the second one, made within the listing
    TTL, is served from the entry the first one wrote, without a query on
    the durable store. *)
Theorem tag_search_key_normalised (t1 t2 : list string) :
  t1 ≡ₚ t2 →
  search_key t1 = search_key t2
  ∧ (∀ w l1 l2, heap w !! l1 = Some t1 → heap w !! l2 = Some t2 →
       fst (searchByTags l1 w) = fst (searchByTags l2 w))
  ∧ (∀ w w1 l1 l2 r1 d,
       redis_up w = true →
       heap w !! l1 = Some t1 →
       live w (search_key t1) = None →
       searchByTags l1 w = (Ok r1, w1) →
       heap w1 !! l2 = Some t2 →
       0 ≤ d < CacheTTL.list →
       live (tick d w1) (search_key t2) = Some (RBlogs r1)
       ∧ ∃ w2, searchByTags l2 (tick d w1) = (Ok r1, w2) ∧ dblog w2 = dblog w1).
Proof.
  intros Hp. pose proof (sort_of_permutation t1 t2 Hp) as Hsort.
  assert (Hkey : search_key t1 = search_key t2)
    by (by rewrite !search_key_sorted, Hsort).
  split; [done|]. split.
  - intros w l1 l2 H1 H2.
    rewrite (searchByTags_unfold w l1 t1 H1), (searchByTags_unfold w l2 t2 H2).
    rewrite !search_sorted_heap. simpl. by rewrite Hsort.
  - intros w w1 l1 l2 r1 d Hup H1 Hmiss Hrun H2 [Hd0 Hd1].
    rewrite (searchByTags_unfold w l1 t1 H1) in Hrun.
    rewrite search_key_sorted in Hmiss.
    apply search_sorted_miss in Hrun; [|by autorewrite with world..].
    autorewrite with world in Hrun.
    assert (Hlive : live (tick d w1) (search_key t2) = Some (RBlogs r1)).
    { rewrite <- Hkey, search_key_sorted. subst w1.
      unfold live. autorewrite with world. rewrite lookup_insert_eq.
      unfold fresh. simpl.
      by replace (now w + d <? now w + CacheTTL.list) with true
        by (symmetry; apply Z.ltb_lt; lia). }
    split; [done|].
    assert (Hup1 : redis_up (tick d w1) = true)
      by (subst w1; by autorewrite with world).
    exists (set_heap (<[l2 := sort t2]>) (tick d w1)).
    rewrite (searchByTags_unfold (tick d w1) l2 t2) by (by autorewrite with world).
    rewrite search_sorted_heap.
    rewrite (search_sorted_hit (sort t2) (tick d w1) r1);
      [by autorewrite with world|done|by rewrite <- search_key_sorted].
Qed.

(** The two orders of the tags [ts] and [cache]. *)
Lemma tag_search_key_normalised_witness :
  search_key ["ts"; "cache"] = search_key ["cache"; "ts"].
Proof.
  destruct (tag_search_key_normalised ["ts"; "cache"] ["cache"; "ts"]) as [H _].
  - apply perm_swap.
  - exact H.
Defined.

(** C10. [searchByTags] sorts the caller's array in place: when the call is
    over, with whatever outcome, the array behind the reference it was
    given holds the same tags in sorted order, every holder of that
    reference reads the sorted array, and no other array has changed. *)
Theorem searchByTags_sorts_argument (w : World) (tags : nat) (elems : list string) :
  heap w !! tags = Some elems →
  let w' := snd (searchByTags tags w) in
  heap w' !! tags = Some (sort elems)
  ∧ Sorted String.le (sort elems)
  ∧ sort elems ≡ₚ elems
  ∧ (∀ alias, alias = tags → fst (read_array alias w') = Ok (sort elems))
  ∧ (∀ other, other ≠ tags → heap w' !! other = heap w !! other).
Proof.
  intros Hh w'. subst w'. rewrite (searchByTags_unfold w tags elems Hh).
  rewrite search_sorted_heap. simpl.
  assert (Hnew : heap (set_heap <[tags:=sort elems]> (search_sorted (sort elems) w).2)
                   !! tags = Some (sort elems)).
  { autorewrite with world. by rewrite lookup_insert_eq. }
  split_and!.
  - done.
  - apply sort_sorted.
  - apply sort_permutation.
  - intros alias ->. unfold read_array, bind, gets. by rewrite Hnew.
  - intros other Hne. autorewrite with world.
    by rewrite lookup_insert_ne, search_sorted_keeps_heap.
Qed.

(** The array of [tags_world]. *)
Lemma searchByTags_sorts_argument_witness :
  heap (snd (searchByTags 0%nat tags_world)) !! 0%nat = Some (sort ["ts"; "cache"]).
Proof.
  destruct (searchByTags_sorts_argument tags_world 0%nat ["ts"; "cache"]) as [H _].
  - reflexivity.
  - exact H.
Defined.

(** ** Two concurrent likes (C9) *)

(** A thread left alone is the sequential [likeBlog]. *)
Lemma like_steps_sequential blogId userId w :
  like_steps 5 blogId userId LCheck w
  = (LDone (fst (likeBlog blogId userId w)), snd (likeBlog blogId userId w)).
Proof.
  unfold likeBlog, like_steps, like_step, bind. cbv zeta.
  destruct (safeRedisGet _ w) as [[[v|]|e] w1]; try done.
  destruct (safeRedisSet _ _ _ w1) as [[[]|e] w2]; try done.
  destruct (try_catch _ _ w2) as [[[]|e] w3]; try done.
  destruct (Prisma.update _ _ w3) as [[b|e] w4]; try done.
  destruct (invalidateBlogCache _ _ w4) as [[[]|e] w5]; done.
Qed.

Lemma interleave_first sched blogId userId pa pb w :
  interleave (true :: sched) blogId userId pa pb w
  = interleave sched blogId userId (fst (like_step blogId userId pa w)) pb
      (snd (like_step blogId userId pa w)).
Proof. simpl. by destruct (like_step blogId userId pa w). Qed.

Lemma interleave_second sched blogId userId pa pb w :
  interleave (false :: sched) blogId userId pa pb w
  = interleave sched blogId userId pa (fst (like_step blogId userId pb w))
      (snd (like_step blogId userId pb w)).
Proof. simpl. by destruct (like_step blogId userId pb w). Qed.

Section like_step_facts.
Context (blogId userId : string) (w : World).

Lemma like_step_check :
  redis_up w = true → live w (CacheKeys.userLike userId blogId) = None →
  like_step blogId userId LCheck w = (LMark, w).
Proof. intros Hup Hm. unfold like_step. by rewrite safeRedisGet_up, Hm. Qed.

Lemma like_step_mark :
  redis_up w = true →
  like_step blogId userId LMark w
  = (LCount, set_redis (<[CacheKeys.userLike userId blogId
                          := mkEntry (RInt 1) (Some (now w + CacheTTL.userLike))]>) w).
Proof. intros Hup. unfold like_step. by rewrite safeRedisSet_up. Qed.

Lemma like_step_count w2 :
  try_catch (let* _ := Redis.incrby (CacheKeys.likes blogId) 1 in ret tt)
    (λ _, ret tt) w = (Ok tt, w2) →
  like_step blogId userId LCount w = (LPersist, w2).
Proof. intros Hrun. unfold like_step, Redis.incr. by rewrite Hrun. Qed.

Lemma like_step_persist b :
  Prisma.lookup (ById blogId) (db w) = Some b →
  like_step blogId userId LPersist w
  = (LInvalidate,
     set_db (Prisma.replace_row blogId (likes_by (NIncrement 1)))
       (log_call (Update blogId (likes_by (NIncrement 1))) w)).
Proof. intros Hb. unfold like_step. by rewrite (update_ok w _ _ b). Qed.

Lemma like_step_invalidate :
  redis_up w = true →
  like_step blogId userId LInvalidate w
  = (LDone (Ok "Blog liked successfully"), invalidated blogId None w).
Proof. intros Hup. unfold like_step. by rewrite invalidateBlogCache_up. Qed.
End like_step_facts.

(** The race does not depend on the sample post: from any world with Redis
    up, the post in the store and no marker, [race_schedule] ends with two
    successes and two durable increments. *)
Lemma like_race_any_world (w : World) (blogId userId : string) (b : Blog.t) :
  redis_up w = true →
  Prisma.lookup (ById blogId) (db w) = Some b →
  live w (CacheKeys.userLike userId blogId) = None →
  ∃ w', interleave race_schedule blogId userId LCheck LCheck w
        = (LDone (Ok "Blog liked successfully"),
           LDone (Ok "Blog liked successfully"), w')
    ∧ likes_of w' blogId = Blog.likes b + 2
    ∧ dblog w' = dblog w ++ [Update blogId (likes_by (NIncrement 1));
                             Update blogId (likes_by (NIncrement 1))].
Proof.
  intros Hup Hb Hmark.
  assert (Hid : Blog.id b = blogId) by (by apply lookup_by_id_id in Hb).
  set (marker := CacheKeys.userLike userId blogId).
  set (inc := likes_by (NIncrement 1)).
  (* first thread: mark, count, persist, invalidate *)
  set (w1 := set_redis (<[marker := mkEntry (RInt 1) (Some (now w + CacheTTL.userLike))]>) w).
  destruct (like_counter_total w1 (CacheKeys.likes blogId) 1)
    as (w2 & Hrun2 & Hup2 & Hnow2 & Hdb2 & Hlog2 & _ & _).
  change (redis_up w1) with (redis_up w) in Hup2.
  change (db w1) with (db w) in Hdb2.
  change (dblog w1) with (dblog w) in Hlog2.
  set (w3 := set_db (Prisma.replace_row blogId inc) (log_call (Update blogId inc) w2)).
  set (w4 := invalidated blogId None w3).
  assert (Hup4 : redis_up w4 = true) by (subst w4 w3; autorewrite with world; congruence).
  assert (Hdb4 : Prisma.lookup (ById blogId) (db w4) = Some (apply_patch inc b)).
  { subst w4 w3. autorewrite with world.
    rewrite lookup_replace_row, Hdb2, Hb by done. simpl. unfold patched.
    by rewrite bool_decide_eq_true_2. }
  assert (Hlog4 : dblog w4 = dblog w ++ [Update blogId inc])
    by (subst w4 w3; autorewrite with world; by rewrite Hlog2).
  (* second thread: mark, count, persist, invalidate *)
  set (w5 := set_redis (<[marker := mkEntry (RInt 1) (Some (now w4 + CacheTTL.userLike))]>) w4).
  destruct (like_counter_total w5 (CacheKeys.likes blogId) 1)
    as (w6 & Hrun6 & Hup6 & Hnow6 & Hdb6 & Hlog6 & _ & _).
  change (redis_up w5) with (redis_up w4) in Hup6.
  change (db w5) with (db w4) in Hdb6.
  change (dblog w5) with (dblog w4) in Hlog6.
  set (w7 := set_db (Prisma.replace_row blogId inc) (log_call (Update blogId inc) w6)).
  exists (invalidated blogId None w7).
  assert (Hup3 : redis_up w3 = true) by (subst w3; autorewrite with world; congruence).
  assert (Hup7 : redis_up w7 = true) by (subst w7; autorewrite with world; congruence).
  split_and!.
  - unfold race_schedule.
    rewrite interleave_first, like_step_check by done. cbn [fst snd].
    rewrite interleave_second, like_step_check by done. cbn [fst snd].
    rewrite interleave_first, like_step_mark by done. cbn [fst snd].
    rewrite interleave_first, (like_step_count _ _ _ w2) by done. cbn [fst snd].
    rewrite interleave_first, (like_step_persist _ _ _ b) by (by rewrite Hdb2).
    cbn [fst snd].
    rewrite interleave_first, like_step_invalidate by done. cbn [fst snd].
    rewrite interleave_second, like_step_mark by done. cbn [fst snd].
    rewrite interleave_second, (like_step_count _ _ _ w6) by done. cbn [fst snd].
    rewrite interleave_second, (like_step_persist _ _ _ (apply_patch inc b))
      by (by rewrite Hdb6).
    cbn [fst snd].
    rewrite interleave_second, like_step_invalidate by done. cbn [fst snd].
    done.
  - unfold likes_of. subst w7. autorewrite with world.
    rewrite lookup_replace_row, Hdb6, Hdb4 by done. simpl. unfold patched.
    simpl. rewrite bool_decide_eq_true_2 by done. simpl. lia.
  - subst w7. autorewrite with world. rewrite Hlog6, Hlog4.
    by rewrite <- app_assoc.
Qed.

(** C9. On the sample post, which starts with 0 likes and no marker, the
    interleaving [race_schedule] of two [likeBlog] calls of the same user
    lets both calls succeed and leaves the persisted like count at 2: the
    marker is read and then written, not set if absent.  Run one after the
    other, the same two calls give one success and one [AlreadyLiked]. *)
Theorem like_race_double_count :
  interleave race_schedule "64f0c2a1" "u2" LCheck LCheck sample_world
  = (LDone (Ok "Blog liked successfully"), LDone (Ok "Blog liked successfully"),
     (interleave race_schedule "64f0c2a1" "u2" LCheck LCheck sample_world).2)
  ∧ likes_of sample_world "64f0c2a1" = 0
  ∧ likes_of (interleave race_schedule "64f0c2a1" "u2" LCheck LCheck
                sample_world).2 "64f0c2a1" = 2
  ∧ fst (interleave (replicate 5 true ++ replicate 5 false) "64f0c2a1" "u2"
           LCheck LCheck sample_world)
    = (LDone (Ok "Blog liked successfully"), LDone (Err AlreadyLiked)).
Proof. by vm_compute. Qed.

(** ** The earlier revision *)

(** Both revisions record a view in the same way. *)
Lemma legacy_incrementViews_agrees blogId w :
  Legacy.incrementViews blogId w = incrementViews blogId None w.
Proof.
  unfold Legacy.incrementViews, incrementViews, safeRedisDel, try_catch, bind, ret.
  cbv zeta beta match.
  destruct (Redis.incr _ w) as [[views|e] w1]; [|done].
  destruct (Z.rem views 10 =? 0).
  - destruct (Prisma.update _ _ w1) as [[b|e] w2]; [|done].
    by destruct (Redis.del _ w2) as [[[]|e] w3].
  - by destruct (Redis.del _ w1) as [[[]|e] w3].
Qed.

Lemma redis_get_up w k : redis_up w = true → Redis.get k w = (Ok (live w k), w).
Proof. intros Hup. unfold Redis.get. by rewrite redis_cmd_up. Qed.

Lemma redis_setex_up w k ttl v :
  redis_up w = true →
  Redis.setex k ttl v w = (Ok tt, set_redis (<[k := mkEntry v (Some (now w + ttl))]>) w).
Proof. intros Hup. unfold Redis.setex. by rewrite redis_cmd_up. Qed.

(** While Redis is up both revisions run the tag search in the same way;
    in particular the earlier one sorts the caller's array as well. *)
Lemma legacy_searchByTags_agrees tags w :
  redis_up w = true → Legacy.searchByTags tags w = searchByTags tags w.
Proof.
  intros Hup. unfold Legacy.searchByTags, searchByTags, bind, gets, modify.
  cbv zeta.
  destruct (heap w !! tags) as [elems|]; [|done].
  set (w1 := set_heap _ w).
  assert (Hup1 : redis_up w1 = true) by done.
  rewrite safeRedisGet_up, redis_get_up by done.
  destruct (live w1 (search_key elems)) as [[z|b|bs]|]; try done.
  rewrite findMany_eq.
  by rewrite safeRedisSet_up, redis_setex_up by done.
Qed.

Lemma legacy_searchByTags_sorts_argument w tags elems :
  heap w !! tags = Some elems →
  heap (snd (Legacy.searchByTags tags w)) !! tags = Some (sort elems).
Proof.
  intros Hh. unfold Legacy.searchByTags, bind, gets, modify. cbv zeta.
  rewrite Hh.
  set (w1 := set_heap _ w).
  assert (Hnew : heap w1 !! tags = Some (sort elems))
    by (subst w1; autorewrite with world; by rewrite lookup_insert_eq).
  unfold Redis.get, Redis.setex, redis_cmd, gets.
  destruct (redis_up w1) eqn:Hup; [|done].
  destruct (live w1 (search_key elems)) as [[z|b|bs]|]; try done.
  rewrite findMany_eq. autorewrite with world. by rewrite Hup.
Qed.

(** The earlier [unlikeBlog] decrements without a floor as well. *)
Example legacy_unlike_below_zero :
  fst (Legacy.unlikeBlog "64f0c2a1" "u2" reset_likes_world)
  = Ok "Blog unliked successfully"
  ∧ likes_of (snd (Legacy.unlikeBlog "64f0c2a1" "u2" reset_likes_world)) "64f0c2a1"
    = -1.
Proof. by vm_compute. Qed.

(** * Further properties of the service *)

(** ** Outcomes of [createIntoDb] *)

Lemma lookup_app_some q rows rows' b :
  Prisma.lookup q rows = Some b → Prisma.lookup q (rows ++ rows') = Some b.
Proof.
  unfold Prisma.lookup. induction rows as [|r rows IH]; [done|].
  simpl. destruct (Prisma.matches q r); [done|apply IH].
Qed.

Lemma lookup_app_none q rows rows' :
  Prisma.lookup q rows = None →
  Prisma.lookup q (rows ++ rows') = Prisma.lookup q rows'.
Proof.
  unfold Prisma.lookup. induction rows as [|r rows IH]; [done|].
  simpl. destruct (Prisma.matches q r); [done|apply IH].
Qed.

(** The tail of [createIntoDb] once the row is inserted: the two snapshots
    are stored and the listings are cleared, or nothing happens when Redis
    is down; the collection is not touched. *)
Lemma create_caches (w : World) (userId : string) (blog : Blog.t) :
  ∃ w', (let* _ := safeRedisSet (CacheKeys.blog (Blog.id blog)) CacheTTL.blog (RBlog blog) in
         let* _ := safeRedisSet (CacheKeys.blogSlug (Blog.slug blog)) CacheTTL.blog
                     (RBlog blog) in
         let* listKeys := try_catch (Redis.keys "blogs:all:*") (λ _, ret []) in
         let* userBlogsKeys :=
           try_catch (Redis.keys ("blogs:user:" +:+ userId +:+ "*")) (λ _, ret []) in
         let* _ := safeRedisDel (listKeys ++ userBlogsKeys) in
         ret blog) w = (Ok blog, w')
    ∧ db w' = db w ∧ dblog w' = dblog w ∧ now w' = now w ∧ heap w' = heap w
    ∧ redis_up w' = redis_up w
    ∧ (redis_up w = false → w' = w).
Proof.
  destruct (redis_up w) eqn:Hup.
  - eexists. do 5 step. unfold ret. split; [reflexivity|]. by world.
  - eexists. do 5 step. unfold ret. split; [reflexivity|]. by world.
Qed.

(** X1. The outcomes of [createIntoDb], in any state of Redis.  Without an
    authenticated user it fails with [Unauthorized] and does nothing at
    all.  With one, it fails with [Conflict] when a row, soft-deleted or
    not, already has the slug of the request, and leaves the collection and
    the cache as they were.  Otherwise it succeeds: the new row is the last
    one of the collection and carries the fields of the body, no tags when
    the body has none, not published when the body does not say, and the
    caller as its owner. *)
Theorem createIntoDb_outcomes (req : Request) (newId : string) (w : World) :
  (truthy_opt (req_user req) = false →
   createIntoDb req newId w = (Err Unauthorized, w))
  ∧ (truthy_opt (req_user req) = true →
     is_Some (Prisma.lookup (BySlug (Some (body_slug req))) (db w)) →
     ∃ w', createIntoDb req newId w = (Err Conflict, w')
       ∧ db w' = db w ∧ redis w' = redis w)
  ∧ (truthy_opt (req_user req) = true →
     Prisma.lookup (BySlug (Some (body_slug req))) (db w) = None →
     ∃ b w', createIntoDb req newId w = (Ok b, w')
       ∧ db w' = db w ++ [b]
       ∧ Blog.id b = newId ∧ Blog.slug b = body_slug req
       ∧ Blog.title b = body_title req
       ∧ Blog.description b = body_description req
       ∧ Blog.tags b = default [] (body_tags req)
       ∧ Blog.published b = default false (body_published req)
       ∧ req_user req = Some (Blog.userId b)).
Proof.
  unfold createIntoDb.
  destruct (req_user req) as [userId|] eqn:Hu; simpl truthy_opt.
  2:{ split; [done|]. split; intros [=]. }
  destruct (truthy userId) eqn:Ht; cbn [negb].
  2:{ split; [done|]. split; intros [=]. }
  split; [intros [=]|].
  split; intros _.
  - intros [b0 Hb0]. step. rewrite Hb0. eexists. split; [reflexivity|].
    by autorewrite with world.
  - intros Hfree. step. rewrite Hfree. step.
    unfold bind at 1, Prisma.create. world.
    rewrite (slug_free_not_taken _ _ _ Hfree). cbv beta iota zeta.
    match goal with
    | |- context [bind _ _ ?w1] =>
        destruct (create_caches w1 userId
          (Blog.mk newId (body_slug req) (body_title req) (body_description req)
             (default [] (body_tags req)) (default false (body_published req))
             false userId 0 0 (now w) (now w))) as (w' & Hrun & Hdb & _)
    end.
    rewrite Hrun. autorewrite with world in Hdb.
    do 2 eexists. split; [reflexivity|]. by split_and!.
Qed.

(** A request that reuses the slug of the post cached in [created_world],
    and the request that created it. *)
Lemma createIntoDb_outcomes_witness :
  (∃ w', createIntoDb reuse_request "86b2e4c3" created_world = (Err Conflict, w')
     ∧ db w' = db created_world ∧ redis w' = redis created_world)
  ∧ ∃ b w', createIntoDb second_request "75a1d3b2" sample_world = (Ok b, w')
      ∧ db w' = db sample_world ++ [b]
      ∧ Blog.id b = "75a1d3b2" ∧ Blog.slug b = "caching".
Proof.
  split.
  - destruct (createIntoDb_outcomes reuse_request "86b2e4c3" created_world)
      as (_ & H & _).
    apply H; [reflexivity|]. vm_compute. eexists. reflexivity.
  - destruct (createIntoDb_outcomes second_request "75a1d3b2" sample_world)
      as (_ & _ & H).
    destruct H as (b & w' & Hrun & Hdb & Hid & Hslug & _); [reflexivity..|].
    exists b, w'. by split_and!.
Defined.

(** ** Recording a view *)

Lemma incrby_cases (k : string) (d : Z) (w : World) :
  redis_up w = true →
  Redis.incrby k d w = (Err RedisError, w)
  ∨ ∃ v e, Redis.incrby k d w = (Ok v, set_redis (<[k := e]>) w)
           ∧ e_val e = RInt v.
Proof.
  intros Hup. unfold Redis.incrby. rewrite redis_cmd_up by done.
  destruct (redis w !! k) as [e|]; [|right; do 2 eexists; by split].
  destruct (fresh (now w) e); [|right; do 2 eexists; by split].
  destruct (e_val e) as [z| |]; [|by left..].
  destruct ((Redis.int64_min <=? z + d) && (z + d <=? Redis.int64_max));
    [right; do 2 eexists; by split|by left].
Qed.

(** The counter key after [INCR] and the deletion of the primary-key
    entry. *)
Lemma views_entry (blogId : string) (e : Entry) (m : gmap string Entry) :
  foldr delete (<[CacheKeys.views blogId := e]> m) [CacheKeys.blog blogId]
    !! CacheKeys.views blogId = Some e.
Proof.
  rewrite lookup_foldr_delete.
  rewrite decide_False.
  - by rewrite lookup_insert_eq.
  - intros H. apply list_elem_of_singleton in H. symmetry in H.
    by apply blog_ne_views in H.
Qed.

Lemma update_missing (w : World) (i : string) (p : Patch) :
  Prisma.lookup (ById i) (db w) = None →
  Prisma.update i p w = (Err PrismaNotFound, log_call (Update i p) w).
Proof. intros Hb. unfold Prisma.update. by rewrite Hb. Qed.

(** The keys [incrementViews] may write. *)
Lemma views_frame (blogId : string) (e : Entry) (m : gmap string Entry) (k : string) :
  k ≠ CacheKeys.views blogId → k ≠ CacheKeys.blog blogId →
  foldr delete (<[CacheKeys.views blogId := e]> m) [CacheKeys.blog blogId] !! k = m !! k.
Proof.
  intros H1 H2. rewrite lookup_foldr_delete.
  rewrite decide_False by (intros H; by apply list_elem_of_singleton in H).
  by rewrite lookup_insert_ne.
Qed.

(** Whatever the state of Redis and of the store, [incrementViews] returns
    normally; it can change the view counter and the primary-key entry of
    the post, and add 10 to the persisted view count of the post. *)
Lemma incrementViews_effect (blogId : string) (cu : option string) (w : World) :
  ∃ w', incrementViews blogId cu w = (Ok tt, w')
    ∧ redis_up w' = redis_up w ∧ now w' = now w ∧ heap w' = heap w
    ∧ (db w' = db w ∨ db w' = Prisma.replace_row blogId views_flush (db w))
    ∧ (∀ k, k ≠ CacheKeys.views blogId → k ≠ CacheKeys.blog blogId →
         redis w' !! k = redis w !! k)
    ∧ (redis w' !! CacheKeys.views blogId = redis w !! CacheKeys.views blogId
       ∨ ∃ e v, redis w' !! CacheKeys.views blogId = Some e ∧ e_val e = RInt v).
Proof.
  assert (Hcount : ∀ w0, ∃ w',
    try_catch
      (let* views := Redis.incr (CacheKeys.views blogId) in
       let* _ := if Z.rem views 10 =? 0
                 then let* _ := Prisma.update blogId views_flush in ret tt
                 else ret tt in
       safeRedisDel [CacheKeys.blog blogId]) (λ _, ret tt) w0 = (Ok tt, w')
    ∧ redis_up w' = redis_up w0 ∧ now w' = now w0 ∧ heap w' = heap w0
    ∧ (db w' = db w0 ∨ db w' = Prisma.replace_row blogId views_flush (db w0))
    ∧ (∀ k, k ≠ CacheKeys.views blogId → k ≠ CacheKeys.blog blogId →
         redis w' !! k = redis w0 !! k)
    ∧ (redis w' !! CacheKeys.views blogId = redis w0 !! CacheKeys.views blogId
       ∨ ∃ e v, redis w' !! CacheKeys.views blogId = Some e ∧ e_val e = RInt v)).
  { intros w0. unfold try_catch, Redis.incr.
    destruct (redis_up w0) eqn:Hup.
    2:{ erewrite bind_err by (by apply redis_cmd_down). exists w0. by split_and!; auto. }
    destruct (incrby_cases (CacheKeys.views blogId) 1 w0 Hup) as [He|(v & e & Ho & Hv)].
    { erewrite bind_err by exact He. exists w0. by split_and!; auto. }
    erewrite bind_ok by exact Ho. cbv beta.
    destruct (Z.rem v 10 =? 0).
    - destruct (Prisma.lookup (ById blogId) (db w0)) as [b|] eqn:Hb.
      + erewrite bind_ok.
        2:{ erewrite bind_ok; [reflexivity|]. apply (update_ok _ _ _ b); [|done].
            by autorewrite with world. }
        cbv beta. rewrite safeRedisDel_up by (by autorewrite with world).
        eexists. split; [reflexivity|]. autorewrite with world.
        split_and!; auto.
        * intros k H1 H2. by apply views_frame.
        * right. exists e, v. by rewrite views_entry.
      + erewrite bind_err.
        2:{ erewrite bind_err; [reflexivity|]. apply update_missing.
            by autorewrite with world. }
        eexists. split; [reflexivity|]. autorewrite with world.
        split_and!; auto.
        * intros k H1 H2. by rewrite lookup_insert_ne.
        * right. exists e, v. by rewrite lookup_insert_eq.
    - erewrite bind_ok by reflexivity. cbv beta.
      rewrite safeRedisDel_up by (by autorewrite with world).
      eexists. split; [reflexivity|]. autorewrite with world.
      split_and!; auto.
      * intros k H1 H2. by apply views_frame.
      * right. exists e, v. by rewrite views_entry. }
  unfold incrementViews.
  destruct cu as [u|]; [|apply Hcount].
  destruct (truthy u); [|apply Hcount].
  destruct (Hcount (log_call (FindUnique (ById blogId)) w))
    as (w' & Hrun & Hup' & Hnow' & Hheap' & Hdb' & Hfr' & Hkind').
  autorewrite with world in Hup', Hnow', Hheap', Hdb', Hfr', Hkind'.
  unfold try_catch in *. rewrite bind_assoc.
  erewrite bind_ok by apply findUnique_eq. cbv beta. rewrite bind_ret.
  destruct (Prisma.lookup (ById blogId) (db w)) as [b|].
  - destruct (bool_decide (Blog.userId b = u)).
    + eexists. split; [reflexivity|]. autorewrite with world. split_and!; auto.
    + exists w'. by split_and!.
  - exists w'. by split_and!.
Qed.

(** X2. Views by the owner are not counted.  When [incrementViews] is given
    the identifier of the viewer and the viewer owns the post, the call
    looks the post up and stops: no counter, no snapshot and no row changes.
    For any other viewer, and for a post that does not exist, the call goes
    on exactly as the anonymous one does. *)
Theorem owner_view_not_counted (w : World) (blogId u : string) :
  truthy u = true →
  (∀ b, Prisma.lookup (ById blogId) (db w) = Some b → Blog.userId b = u →
     incrementViews blogId (Some u) w
     = (Ok tt, log_call (FindUnique (ById blogId)) w))
  ∧ ((∀ b, Prisma.lookup (ById blogId) (db w) = Some b → Blog.userId b ≠ u) →
     incrementViews blogId (Some u) w
     = incrementViews blogId None (log_call (FindUnique (ById blogId)) w)).
Proof.
  intros Hu. unfold incrementViews. rewrite Hu. unfold try_catch.
  split.
  - intros b Hb Hown. rewrite bind_assoc.
    erewrite bind_ok by apply findUnique_eq. cbv beta. rewrite bind_ret.
    rewrite Hb. by rewrite bool_decide_eq_true_2.
  - intros Hother. rewrite bind_assoc.
    erewrite bind_ok by apply findUnique_eq. cbv beta. rewrite !bind_ret.
    destruct (Prisma.lookup (ById blogId) (db w)) as [b|] eqn:Hb; [|done].
    by rewrite bool_decide_eq_false_2 by (by apply Hother).
Qed.

(** The author [u1] opens the post of [sample_world]. *)
Lemma owner_view_not_counted_witness :
  incrementViews "64f0c2a1" (Some "u1") sample_world
  = (Ok tt, log_call (FindUnique (ById "64f0c2a1")) sample_world).
Proof.
  destruct (owner_view_not_counted sample_world "64f0c2a1" "u1") as [H _].
  - reflexivity.
  - apply (H sample_post); reflexivity.
Defined.


(** ** The cache helpers in any state of Redis *)

Lemma same_store_refl w : same_store w w.
Proof. by split_and!. Qed.

Lemma safeRedisGet_total (k : string) (w : World) :
  ∃ o, safeRedisGet k w = (Ok o, w) ∧ (redis_up w = true → o = live w k)
       ∧ (redis_up w = false → o = None).
Proof.
  destruct (redis_up w) eqn:Hup.
  - exists (live w k). by rewrite safeRedisGet_up.
  - exists None. by rewrite safeRedisGet_down.
Qed.

Lemma safeRedisSet_total (k : string) (ttl : Z) (v : RVal) (w : World) :
  ∃ w', safeRedisSet k ttl v w = (Ok tt, w') ∧ same_store w w'
    ∧ (∀ k', k' ≠ k → redis w' !! k' = redis w !! k').
Proof.
  destruct (redis_up w) eqn:Hup.
  - eexists. rewrite safeRedisSet_up by done. split; [done|].
    split; [by split_and!|]. intros k' Hk. autorewrite with world.
    by rewrite lookup_insert_ne.
  - exists w. rewrite safeRedisSet_down by done. by split_and!.
Qed.

Lemma safeRedisDel_total (ks : list string) (w : World) :
  ∃ w', safeRedisDel ks w = (Ok tt, w') ∧ same_store w w'
    ∧ (∀ k', k' ∉ ks → redis w' !! k' = redis w !! k').
Proof.
  destruct (redis_up w) eqn:Hup.
  - eexists. rewrite safeRedisDel_up by done. split; [done|].
    split; [by split_and!|]. intros k' Hk. autorewrite with world.
    rewrite lookup_foldr_delete. by rewrite decide_False.
  - exists w. rewrite safeRedisDel_down by done. by split_and!.
Qed.

Lemma invalidateBlogCache_total (blogId : string) (slug : option string) (w : World) :
  ∃ w', invalidateBlogCache blogId slug w = (Ok tt, w') ∧ same_store w w'
    ∧ (∀ k, k ∉ doomed blogId slug w → redis w' !! k = redis w !! k).
Proof.
  destruct (redis_up w) eqn:Hup.
  - eexists. rewrite invalidateBlogCache_up by done. split; [done|].
    split; [by split_and!|]. intros k Hk. rewrite redis_invalidated.
    by rewrite decide_False.
  - exists w. rewrite invalidateBlogCache_down by done. by split_and!.
Qed.

(** ** What a read does to the store *)

Lemma Blog_id_with_views b v : Blog.id (with_views b v) = Blog.id b.
Proof. reflexivity. Qed.

Lemma getBlog_effect (id slug : option string) (w : World) :
  ∃ r w', getBlog id slug w = (r, w')
    ∧ match r with
      | Ok b => db w' = db w
                ∨ db w' = Prisma.replace_row (Blog.id b) views_flush (db w)
      | Err e => (e = NotFound ∧ db w' = db w ∧ redis w' = redis w)
                 ∨ (e = TypeConfusion
                    ∧ (db w' = db w
                       ∨ ∃ i, db w' = Prisma.replace_row i views_flush (db w)))
      end.
Proof.
  unfold getBlog. cbv zeta.
  match goal with |- context [safeRedisGet ?k] => set (cacheKey := k) end.
  destruct (safeRedisGet_total cacheKey w) as (o & Hget & _).
  erewrite bind_ok by exact Hget. cbv beta.
  destruct o as [[z|blog|bs]|].
  - do 2 eexists. split; [reflexivity|]. right. split; [done|by left].
  - destruct (incrementViews_effect (Blog.id blog) None w)
      as (w1 & Hrun & _ & _ & _ & Hdb & _).
    erewrite bind_ok by exact Hrun. cbv beta.
    destruct (safeRedisGet_total (CacheKeys.views (Blog.id blog)) w1) as (o & Hget1 & _).
    erewrite bind_ok by exact Hget1. cbv beta.
    assert (Hany : db w1 = db w ∨ ∃ i, db w1 = Prisma.replace_row i views_flush (db w))
      by (destruct Hdb; eauto).
    destruct o as [[z|b2|bs]|]; do 2 eexists; (split; [reflexivity|]);
      first [exact Hdb | right; by split].
  - do 2 eexists. split; [reflexivity|]. right. split; [done|by left].
  - erewrite bind_ok by apply findFirst_eq. cbv beta.
    destruct (Prisma.lookup _ (db w)) as [b|].
    2:{ do 2 eexists. split; [reflexivity|]. autorewrite with world. auto. }
    destruct (Blog.isDeleted b).
    { do 2 eexists. split; [reflexivity|]. autorewrite with world. auto. }
    match goal with |- context [bind (safeRedisSet _ _ _) _ ?w0] =>
      destruct (safeRedisSet_total cacheKey CacheTTL.blog (RBlog b) w0)
        as (w1 & Hset & (Hdb1 & _) & _)
    end.
    erewrite bind_ok by exact Hset. cbv beta.
    destruct (incrementViews_effect (Blog.id b) None w1)
      as (w2 & Hrun & _ & _ & _ & Hdb2 & _).
    erewrite bind_ok by exact Hrun. cbv beta.
    autorewrite with world in Hdb1. rewrite Hdb1 in Hdb2.
    do 2 eexists. split; [reflexivity|]. done.
Qed.

(** A read whose entries hold payloads of their kind does not stop on
    them. *)
Lemma getBlog_kinds (by_slug : bool) (id slug : string) (w : World) :
  kinds_respected by_slug id slug w →
  fst (read_post by_slug id slug w) ≠ Err TypeConfusion.
Proof.
  intros Hk. unfold read_post, getBlogBySlug, getBlogByIdFromDB, getBlog.
  cbv zeta. unfold kinds_respected in Hk.
  set (key := read_key by_slug id slug) in *.
  assert (Hmiss : ∀ q w0, db w0 = db w →
            fst ((let* blog := Prisma.findFirst q in
                  match blog with
                  | None => throw NotFound
                  | Some b =>
                      if Blog.isDeleted b then throw NotFound else
                      let* _ := safeRedisSet key CacheTTL.blog (RBlog b) in
                      let* _ := incrementViews (Blog.id b) None in
                      ret b
                  end) w0) ≠ Err TypeConfusion).
  { intros q w0 _. erewrite bind_ok by apply findFirst_eq. cbv beta.
    destruct (Prisma.lookup q (db w0)) as [b|]; [|done].
    destruct (Blog.isDeleted b); [done|].
    match goal with |- context [bind (safeRedisSet ?k ?t ?v) _ ?w1] =>
      destruct (safeRedisSet_total k t v w1) as (w2 & Hset & _)
    end.
    erewrite bind_ok by exact Hset. cbv beta.
    destruct (incrementViews_effect (Blog.id b) None w2) as (w3 & Hrun & _).
    erewrite bind_ok by exact Hrun. done. }
  assert (Hhit : ∀ blog, live w key = Some (RBlog blog) → redis_up w = true →
            fst ((let* _ := incrementViews (Blog.id blog) None in
                  let* counter := safeRedisGet (CacheKeys.views (Blog.id blog)) in
                  match counter with
                  | Some (RInt redisViews) =>
                      ret (with_views blog (Blog.views blog + redisViews))
                  | None => ret (with_views blog (Blog.views blog + 0))
                  | Some _ => throw TypeConfusion
                  end) w) ≠ Err TypeConfusion).
  { intros blog Hlive Hup.
    destruct (Hk _ Hlive) as (b & [= <-] & Hc).
    destruct (incrementViews_effect (Blog.id blog) None w)
      as (w1 & Hrun & Hup1 & Hnow1 & _ & _ & _ & Hkind).
    erewrite bind_ok by exact Hrun. cbv beta.
    erewrite bind_ok by (apply safeRedisGet_up; congruence). cbv beta.
    assert (Hc1 : ∀ c, live w1 (CacheKeys.views (Blog.id blog)) = Some c →
                       ∃ z, c = RInt z).
    { unfold live in *. rewrite Hnow1.
      destruct Hkind as [->|(e & z & -> & Hz)]; [exact Hc|].
      intros c. destruct (fresh (now w) e); [|done]. intros [= <-]. eauto. }
    destruct (live w1 (CacheKeys.views (Blog.id blog))) as [c|]; [|done].
    destruct (Hc1 c eq_refl) as [z ->]. done. }
  destruct (safeRedisGet_total key w) as (o & Hget & Hup & Hdown).
  destruct (redis_up w) eqn:Hw.
  - specialize (Hup eq_refl). subst o.
    destruct by_slug; subst key; unfold read_key in *; cbn [default truthy_opt] in *.
    + erewrite bind_ok by exact Hget. cbv beta.
      destruct (live w (CacheKeys.blogSlug slug)) as [v|] eqn:Hlive; [|by apply Hmiss].
      destruct (Hk v eq_refl) as (b & -> & _). by apply Hhit.
    + destruct (truthy id) eqn:Hid.
      * erewrite bind_ok by exact Hget. cbv beta.
        destruct (live w (CacheKeys.blog id)) as [v|] eqn:Hlive; [|by apply Hmiss].
        destruct (Hk v eq_refl) as (b & -> & _). by apply Hhit.
      * erewrite bind_ok by exact Hget. cbv beta.
        destruct (live w (CacheKeys.blogSlug "undefined")) as [v|] eqn:Hlive;
          [|by apply Hmiss].
        destruct (Hk v eq_refl) as (b & -> & _). by apply Hhit.
  - specialize (Hdown eq_refl). subst o.
    destruct by_slug; subst key; unfold read_key in *; cbn [default truthy_opt] in *.
    + erewrite bind_ok by exact Hget. by apply Hmiss.
    + destruct (truthy id) eqn:Hid;
        (erewrite bind_ok by exact Hget); by apply Hmiss.
Qed.

(** X3. A read of a post, by identifier or by slug, from the cache or from
    the store, in any state of Redis, changes nothing in the collection
    except that it may add 10 to the view count of the post it returns.  It
    fails only with [NotFound], and then neither the collection nor the
    cache has changed: a failure of Redis or of the view counter never
    reaches the caller.  This is stated for a read whose key holds a
    snapshot or nothing, the view counter of that snapshot holding an
    integer or nothing. *)
Theorem read_only_counts_views (by_slug : bool) (id slug : string) (w : World) :
  kinds_respected by_slug id slug w →
  let w' := snd (read_post by_slug id slug w) in
  match fst (read_post by_slug id slug w) with
  | Ok b => db w' = db w
            ∨ db w' = Prisma.replace_row (Blog.id b) views_flush (db w)
  | Err e => e = NotFound ∧ db w' = db w ∧ redis w' = redis w
  end.
Proof.
  intros Hk. pose proof (getBlog_kinds by_slug id slug w Hk) as Hno.
  cbv zeta. revert Hno. unfold read_post, getBlogBySlug, getBlogByIdFromDB.
  destruct by_slug.
  - destruct (getBlog_effect None (Some slug) w) as (r & w' & -> & H).
    simpl. destruct r as [b|e]; [done|]. intros Hno.
    destruct H as [?|[-> _]]; [done|]. by destruct Hno.
  - destruct (getBlog_effect (Some id) None w) as (r & w' & -> & H).
    simpl. destruct r as [b|e]; [done|]. intros Hno.
    destruct H as [?|[-> _]]; [done|]. by destruct Hno.
Qed.

(** The post cached under its slug in [created_world] is read by slug: the
    read is served from the snapshot and leaves the collection as it is. *)
Lemma read_only_counts_views_witness :
  live created_world (read_key true "75a1d3b2" "caching") = Some (RBlog second_post)
  ∧ match fst (read_post true "75a1d3b2" "caching" created_world) with
    | Ok b => db (snd (read_post true "75a1d3b2" "caching" created_world))
              = db created_world
              ∨ db (snd (read_post true "75a1d3b2" "caching" created_world))
                = Prisma.replace_row (Blog.id b) views_flush (db created_world)
    | Err e => e = NotFound
               ∧ db (snd (read_post true "75a1d3b2" "caching" created_world))
                 = db created_world
               ∧ redis (snd (read_post true "75a1d3b2" "caching" created_world))
                 = redis created_world
    end.
Proof.
  split; [by vm_compute|].
  apply (read_only_counts_views true "75a1d3b2" "caching" created_world).
  intros v Hv. vm_compute in Hv. injection Hv as <-.
  eexists. split; [reflexivity|].
  intros c Hc. vm_compute in Hc. discriminate Hc.
Defined.

(** ** What each call does to the world *)

Lemma effect_cache_step (c : ServiceCall) (P Q : string → Prop) (w w1 w2 : World) :
  same_store w1 w2 →
  (∀ k, ¬ Q k → redis w2 !! k = redis w1 !! k) →
  (∀ k, Q k → P k) →
  effect c P w w1 → effect c P w w2.
Proof.
  intros (Hdb & _ & Hnow & Hheap & Hup) Hfr Hsub [? ? ? ? Hr].
  split; [by rewrite Hdb|congruence..|].
  intros k Hk. rewrite Hfr by (intros HQ; by apply Hk, Hsub). by apply Hr.
Qed.

Lemma effect_start (c : ServiceCall) (P : string → Prop) (w : World) : effect c P w w.
Proof. split; [constructor|done..]. Qed.

Lemma effect_log (c : ServiceCall) (P : string → Prop) (w w1 : World) (x : DbCall) :
  effect c P w w1 → effect c P w (log_call x w1).
Proof. intros [? ? ? ? ?]. by split; autorewrite with world. Qed.

Lemma effect_set_db (c : ServiceCall) (P : string → Prop) (w w1 : World)
    (f : list Blog.t → list Blog.t) (x : DbCall) :
  effect c P w w1 → db_change (db w) c (f (db w1)) →
  effect c P w (set_db f (log_call x w1)).
Proof. intros [? ? ? ? ?] Hdb. by split; autorewrite with world. Qed.

(** The steps of the cache helpers, as effects. *)
Lemma effect_set (c : ServiceCall) (P : string → Prop) (w w1 : World)
    (k : string) (ttl : Z) (v : RVal) :
  P k → effect c P w w1 →
  ∃ w2, safeRedisSet k ttl v w1 = (Ok tt, w2) ∧ effect c P w w2.
Proof.
  intros HP He. destruct (safeRedisSet_total k ttl v w1) as (w2 & Hrun & Hs & Hfr).
  exists w2. split; [done|].
  apply (effect_cache_step c P (λ k', k' = k) w w1 w2); [done| | |done].
  - intros k' Hk. by apply Hfr.
  - by intros k' ->.
Qed.

Lemma effect_del (c : ServiceCall) (P : string → Prop) (w w1 : World) (ks : list string) :
  (∀ k, k ∈ ks → P k) → effect c P w w1 →
  ∃ w2, safeRedisDel ks w1 = (Ok tt, w2) ∧ effect c P w w2.
Proof.
  intros HP He. destruct (safeRedisDel_total ks w1) as (w2 & Hrun & Hs & Hfr).
  exists w2. split; [done|].
  apply (effect_cache_step c P (λ k', k' ∈ ks) w w1 w2); [done| |done|done].
  intros k' Hk. by apply Hfr.
Qed.

Lemma effect_counter (c : ServiceCall) (P : string → Prop) (w w1 : World)
    (k : string) (d : Z) :
  P k → effect c P w w1 →
  ∃ w2, try_catch (let* _ := Redis.incrby k d in ret tt) (λ _, ret tt) w1 = (Ok tt, w2)
    ∧ effect c P w w2.
Proof.
  intros HP He.
  destruct (like_counter_total w1 k d) as (w2 & Hrun & Hup & Hnow & Hdb & Hlog & Hheap & Hfr).
  exists w2. split; [done|].
  apply (effect_cache_step c P (λ k', k' = k) w w1 w2); [done| | |done].
  - intros k' Hk. by apply Hfr.
  - by intros k' ->.
Qed.

Lemma doomed_touched (m : Mutation) (slug : option string) (w : World) (k : string) :
  k ∈ doomed (target m) slug w → touched m k.
Proof.
  intros H. apply elem_of_doomed in H as [H|[H|[H|[H|H]]]]; unfold touched; auto 10.
  unfold slug_keys in H. destruct slug as [s|]; [|by apply elem_of_nil in H].
  destruct (truthy s); [|by apply elem_of_nil in H].
  apply list_elem_of_singleton in H. eauto.
Qed.

Lemma effect_invalidate (m : Mutation) (slug : option string) (w w1 : World) :
  effect (Mutate m) (touched m) w w1 →
  ∃ w2, invalidateBlogCache (target m) slug w1 = (Ok tt, w2)
    ∧ effect (Mutate m) (touched m) w w2.
Proof.
  intros He.
  destruct (invalidateBlogCache_total (target m) slug w1) as (w2 & Hrun & Hs & Hfr).
  exists w2. split; [done|].
  apply (effect_cache_step _ _ (λ k, k ∈ doomed (target m) slug w1) w w1 w2);
    [done| | |done].
  - intros k Hk. by apply Hfr.
  - intros k. apply doomed_touched.
Qed.

Lemma touched_blog m : touched m (CacheKeys.blog (target m)).
Proof. by left. Qed.

Lemma touched_slug m s : touched m (CacheKeys.blogSlug s).
Proof. right. left. by eexists. Qed.

Lemma touched_marker m u : touched m (CacheKeys.userLike u (target m)).
Proof. do 5 right. left. by eexists. Qed.

Lemma touched_likes m : touched m (CacheKeys.likes (target m)).
Proof. by do 6 right. Qed.

Lemma updateIntoDb_effect (id : string) (data : Patch) (w : World) :
  ∃ r w', updateIntoDb id data w = (r, w')
    ∧ effect (Mutate (MUpdate id data)) (touched (MUpdate id data)) w w'.
Proof.
  set (m := MUpdate id data).
  unfold updateIntoDb.
  erewrite bind_ok by apply findUnique_eq. cbv beta.
  pose proof (effect_log _ _ _ _ (FindUnique (ById id)) (effect_start (Mutate m) (touched m) w))
    as He0.
  destruct (Prisma.lookup (ById id) (db w)) as [b|] eqn:Hb; [|by do 2 eexists].
  destruct (Blog.isDeleted b) eqn:Hdel; [by do 2 eexists|].
  match goal with |- context [bind _ ?K _] => set (tail := K) end.
  assert (Htail : ∀ wc, effect (Mutate m) (touched m) w wc → db wc = db w →
            ∃ r w', tail tt wc = (r, w') ∧ effect (Mutate m) (touched m) w w').
  { intros wc Hec Hdbc. subst tail. cbv beta.
    erewrite bind_ok by apply gets_eq. cbv beta.
    destruct (update_cases wc id (stamped data (now wc)) b) as [He|Ho];
      [by rewrite Hdbc| |].
    { erewrite bind_err by exact He. do 2 eexists. split; [reflexivity|].
      by apply effect_log. }
    erewrite bind_ok by exact Ho. cbv beta.
    assert (He1 : effect (Mutate m) (touched m) w
              (set_db (Prisma.replace_row id (stamped data (now wc)))
                 (log_call (Update id (stamped data (now wc))) wc))).
    { apply effect_set_db; [done|]. rewrite Hdbc. by apply (db_updated _ _ _ _ b). }
    destruct (effect_invalidate m (Some (Blog.slug b)) _ _ He1) as (w1 & Hinv & He2).
    erewrite bind_ok by exact Hinv. cbv beta.
    destruct (effect_set _ _ _ _ (CacheKeys.blog id) CacheTTL.blog
                (RBlog (apply_patch (stamped data (now wc)) b)) (touched_blog m) He2)
      as (w2 & Hset & He3).
    erewrite bind_ok by exact Hset. cbv beta.
    destruct (negb _).
    - destruct (effect_set _ _ _ _
                  (CacheKeys.blogSlug (Blog.slug (apply_patch (stamped data (now wc)) b)))
                  CacheTTL.blog (RBlog (apply_patch (stamped data (now wc)) b))
                  (touched_slug m _) He3) as (w3 & Hset3 & He4).
      erewrite bind_ok by exact Hset3. cbv beta. by do 2 eexists.
    - rewrite bind_ret. by do 2 eexists. }
  destruct (p_slug data) as [s|];
    [|rewrite bind_ret; apply Htail; [done|by autorewrite with world]].
  destruct (truthy s && negb (bool_decide (s = Blog.slug b)));
    [|rewrite bind_ret; apply Htail; [done|by autorewrite with world]].
  rewrite bind_assoc. erewrite bind_ok by apply findUnique_eq. cbv beta.
  autorewrite with world.
  destruct (Prisma.lookup (BySlug (Some s)) (db w)).
  { do 2 eexists. split; [reflexivity|]. by apply effect_log. }
  rewrite bind_ret. apply Htail; [by apply effect_log|by autorewrite with world].
Qed.

Lemma deleteIntoDb_effect (id : string) (w : World) :
  ∃ r w', deleteIntoDb id w = (r, w')
    ∧ effect (Mutate (MDelete id)) (touched (MDelete id)) w w'.
Proof.
  set (m := MDelete id).
  unfold deleteIntoDb.
  erewrite bind_ok by apply findUnique_eq. cbv beta.
  pose proof (effect_log _ _ _ _ (FindUnique (ById id)) (effect_start (Mutate m) (touched m) w))
    as He0.
  destruct (Prisma.lookup (ById id) (db w)) as [b|] eqn:Hb; [|by do 2 eexists].
  erewrite bind_ok by (apply (delete_ok _ _ b); by autorewrite with world).
  cbv beta.
  assert (He1 : effect (Mutate m) (touched m) w
            (set_db (filter (λ b, Blog.id b ≠ id))
               (log_call (Delete id) (log_call (FindUnique (ById id)) w)))).
  { apply effect_set_db; [done|]. autorewrite with world. constructor. }
  destruct (effect_invalidate m (Some (Blog.slug b)) _ _ He1) as (w1 & Hinv & He2).
  erewrite bind_ok by exact Hinv. cbv beta. by do 2 eexists.
Qed.

Lemma softDeleteIntoDb_effect (id : string) (w : World) :
  ∃ r w', softDeleteIntoDb id w = (r, w')
    ∧ effect (Mutate (MSoftDelete id)) (touched (MSoftDelete id)) w w'.
Proof.
  set (m := MSoftDelete id).
  unfold softDeleteIntoDb.
  erewrite bind_ok by apply findUnique_eq. cbv beta.
  pose proof (effect_log _ _ _ _ (FindUnique (ById id)) (effect_start (Mutate m) (touched m) w))
    as He0.
  destruct (Prisma.lookup (ById id) (db w)) as [b|] eqn:Hb; [|by do 2 eexists].
  destruct (Blog.isDeleted b) eqn:Hdel; [by do 2 eexists|].
  erewrite bind_ok by apply gets_eq. cbv beta.
  erewrite bind_ok by (apply (update_ok _ _ _ b); [by autorewrite with world|done]).
  cbv beta. autorewrite with world.
  assert (He1 : effect (Mutate m) (touched m) w
            (set_db (Prisma.replace_row id (soft_delete (now w)))
               (log_call (Update id (soft_delete (now w)))
                  (log_call (FindUnique (ById id)) w)))).
  { apply effect_set_db; [done|]. autorewrite with world.
    by apply (db_updated _ _ _ _ b). }
  destruct (effect_invalidate m (Some (Blog.slug b)) _ _ He1) as (w1 & Hinv & He2).
  erewrite bind_ok by exact Hinv. cbv beta. by do 2 eexists.
Qed.

(** The steps [likeBlog] and [unlikeBlog] share once the marker is dealt
    with: the counter, the persisted count, the invalidation. *)
Lemma like_tail_effect (m : Mutation) (d : Z) (o : NumOp) (msg : string) (w w1 : World) :
  effect (Mutate m) (touched m) w w1 → db w1 = db w →
  ∃ r w',
    (let* _ := try_catch (let* _ := Redis.incrby (CacheKeys.likes (target m)) d in ret tt)
                 (λ _, ret tt) in
     let* _ := Prisma.update (target m) (likes_by o) in
     let* _ := invalidateBlogCache (target m) None in
     ret msg) w1 = (r, w')
    ∧ effect (Mutate m) (touched m) w w'.
Proof.
  intros He Hdb.
  destruct (effect_counter _ _ _ _ (CacheKeys.likes (target m)) d (touched_likes m) He)
    as (w2 & Hrun & He2).
  erewrite bind_ok by exact Hrun. cbv beta.
  assert (Hdb2 : db w2 = db w).
  { destruct (like_counter_total w1 (CacheKeys.likes (target m)) d)
      as (w2' & Hrun' & _ & _ & Hdb' & _).
    rewrite Hrun in Hrun'. injection Hrun' as <-. congruence. }
  destruct (Prisma.lookup (ById (target m)) (db w2)) as [b|] eqn:Hb.
  - erewrite bind_ok by (by apply (update_ok _ _ _ b)). cbv beta.
    assert (He3 : effect (Mutate m) (touched m) w
              (set_db (Prisma.replace_row (target m) (likes_by o))
                 (log_call (Update (target m) (likes_by o)) w2))).
    { apply effect_set_db; [done|]. rewrite Hdb2. by constructor. }
    destruct (effect_invalidate m None _ _ He3) as (w3 & Hinv & He4).
    erewrite bind_ok by exact Hinv. cbv beta. by do 2 eexists.
  - erewrite bind_err by (by apply update_missing).
    do 2 eexists. split; [reflexivity|]. by apply effect_log.
Qed.

Lemma likeBlog_effect (blogId userId : string) (w : World) :
  ∃ r w', likeBlog blogId userId w = (r, w')
    ∧ effect (Mutate (MLike blogId userId)) (touched (MLike blogId userId)) w w'.
Proof.
  set (m := MLike blogId userId).
  unfold likeBlog, Redis.incr. cbv zeta.
  destruct (safeRedisGet_total (CacheKeys.userLike userId blogId) w) as (o & Hget & _).
  erewrite bind_ok by exact Hget. cbv beta.
  pose proof (effect_start (Mutate m) (touched m) w) as He0.
  destruct o as [v|]; [by do 2 eexists|].
  destruct (effect_set _ _ _ _ (CacheKeys.userLike userId blogId) CacheTTL.userLike
              (RInt 1) (touched_marker m userId) He0) as (w1 & Hset & He1).
  erewrite bind_ok by exact Hset. cbv beta.
  apply (like_tail_effect m); [done|].
  destruct (safeRedisSet_total (CacheKeys.userLike userId blogId) CacheTTL.userLike
              (RInt 1) w) as (w1' & Hset' & (Hdb & _) & _).
  rewrite Hset in Hset'. by injection Hset' as <-.
Qed.

Lemma unlikeBlog_effect (blogId userId : string) (w : World) :
  ∃ r w', unlikeBlog blogId userId w = (r, w')
    ∧ effect (Mutate (MUnlike blogId userId)) (touched (MUnlike blogId userId)) w w'.
Proof.
  set (m := MUnlike blogId userId).
  unfold unlikeBlog, Redis.decr. cbv zeta.
  destruct (safeRedisGet_total (CacheKeys.userLike userId blogId) w) as (o & Hget & _).
  erewrite bind_ok by exact Hget. cbv beta.
  pose proof (effect_start (Mutate m) (touched m) w) as He0.
  destruct o as [v|]; [|by do 2 eexists].
  destruct (effect_del _ _ _ _ [CacheKeys.userLike userId blogId]
              (λ k Hk, eq_ind_r (touched m) (touched_marker m userId)
                         (proj1 (list_elem_of_singleton k _) Hk)) He0)
    as (w1 & Hdel & He1).
  erewrite bind_ok by exact Hdel. cbv beta.
  apply (like_tail_effect m); [done|].
  destruct (safeRedisDel_total [CacheKeys.userLike userId blogId] w)
    as (w1' & Hdel' & (Hdb & _) & _).
  rewrite Hdel in Hdel'. by injection Hdel' as <-.
Qed.

(** Every mutation, whatever its outcome and the state of Redis, writes
    only keys of [touched] and changes the collection as [db_change]
    allows. *)
Lemma run_mutation_effect (m : Mutation) (w : World) :
  effect (Mutate m) (touched m) w (snd (run_mutation m w)).
Proof.
  assert (Hlift : ∀ {A} (f : M A),
            (∃ r w', f w = (r, w') ∧ effect (Mutate m) (touched m) w w') →
            effect (Mutate m) (touched m) w (snd ((let* _ := f in ret tt) w))).
  { intros A f (r & w' & Hrun & HP). unfold bind. rewrite Hrun. by destruct r. }
  destruct m as [id data|id|id|id u|id u]; simpl run_mutation; apply Hlift.
  - apply updateIntoDb_effect.
  - apply deleteIntoDb_effect.
  - apply softDeleteIntoDb_effect.
  - apply likeBlog_effect.
  - apply unlikeBlog_effect.
Qed.


Lemma createIntoDb_db (req : Request) (newId : string) (w : World) :
  ∃ r w', createIntoDb req newId w = (r, w')
    ∧ db_change (db w) (CreateIntoDb req newId) (db w').
Proof.
  unfold createIntoDb.
  destruct (req_user req) as [userId|]; [|do 2 eexists; split; [done|constructor]].
  destruct (truthy userId); cbn [negb]; [|do 2 eexists; split; [done|constructor]].
  step.
  destruct (Prisma.lookup _ (db w)) as [b0|] eqn:Hfree.
  { do 2 eexists. split; [done|]. world. constructor. }
  step.
  unfold bind at 1, Prisma.create. world.
  rewrite (slug_free_not_taken _ _ _ Hfree). cbv beta iota zeta.
  match goal with
  | |- context [bind _ _ ?w1] =>
      destruct (create_caches w1 userId
        (Blog.mk newId (body_slug req) (body_title req) (body_description req)
           (default [] (body_tags req)) (default false (body_published req))
           false userId 0 0 (now w) (now w))) as (w' & Hrun & Hdb & _)
  end.
  rewrite Hrun. autorewrite with world in Hdb.
  do 2 eexists. split; [done|]. rewrite Hdb. by constructor.
Qed.

Lemma getBlog_db (c : ServiceCall) (id slug : option string) (w : World) :
  ∃ r w', getBlog id slug w = (r, w') ∧ db_change (db w) c (db w').
Proof.
  destruct (getBlog_effect id slug w) as (r & w' & Hrun & H).
  exists r, w'. split; [done|].
  assert (Hflush : ∀ i, db w' = db w ∨ db w' = Prisma.replace_row i views_flush (db w) →
            db_change (db w) c (db w')).
  { intros i [-> | ->]; by constructor. }
  destruct r as [b|e]; [by apply (Hflush (Blog.id b))|].
  destruct H as [(_ & -> & _)|(_ & [->|[i ->]])]; by constructor.
Qed.

Lemma getMyBlog_db (userId : string) (w : World) :
  ∃ r w', getMyBlog userId w = (r, w') ∧ db w' = db w.
Proof.
  unfold getMyBlog. cbv zeta.
  destruct (safeRedisGet_total (CacheKeys.myBlogs userId) w) as (o & Hget & _).
  erewrite bind_ok by exact Hget. cbv beta.
  destruct o as [[z|b|bs]|]; try (do 2 eexists; split; [reflexivity|done]).
  erewrite bind_ok by apply gets_eq. cbv beta.
  match goal with |- context [bind (safeRedisSet ?k ?t ?v) _ w] =>
    destruct (safeRedisSet_total k t v w) as (w1 & Hset & (Hdb1 & _) & _)
  end.
  erewrite bind_ok by exact Hset. cbv beta.
  do 2 eexists. split; [reflexivity|done].
Qed.

Lemma getTrendingBlogs_db (limit : option Z) (w : World) :
  ∃ r w', getTrendingBlogs limit w = (r, w') ∧ db w' = db w.
Proof.
  unfold getTrendingBlogs. cbv zeta.
  destruct (safeRedisGet_total CacheKeys.trending w) as (o & Hget & _).
  erewrite bind_ok by exact Hget. cbv beta.
  destruct o as [[z|b|bs]|]; try (do 2 eexists; split; [reflexivity|done]).
  erewrite bind_ok by apply gets_eq. cbv beta.
  match goal with |- context [bind (safeRedisSet ?k ?t ?v) _ w] =>
    destruct (safeRedisSet_total k t v w) as (w1 & Hset & (Hdb1 & _) & _)
  end.
  erewrite bind_ok by exact Hset. cbv beta.
  do 2 eexists. split; [reflexivity|done].
Qed.

Lemma searchByTags_db (tags : nat) (w : World) :
  ∃ r w', searchByTags tags w = (r, w') ∧ db w' = db w.
Proof.
  destruct (heap w !! tags) as [elems|] eqn:Hh.
  - rewrite (searchByTags_unfold _ _ _ Hh), search_sorted_outcome.
    unfold search_outcome. cbv zeta. autorewrite with world.
    destruct (redis_up w); [|by do 2 eexists].
    destruct (live _ _) as [[z|b|bs]|]; by do 2 eexists.
  - unfold searchByTags. erewrite bind_ok by apply gets_eq. cbv beta.
    rewrite Hh. by do 2 eexists.
Qed.

(** Every call changes the collection in one of the ways of [db_change]. *)
Lemma run_call_db (c : ServiceCall) (w : World) :
  db_change (db w) c (db (snd (run_call c w))).
Proof.
  assert (Hlift : ∀ {A} (m : M A) (P : list Blog.t → Prop),
            (∃ r w', m w = (r, w') ∧ P (db w')) →
            P (db (snd ((let* _ := m in ret tt) w)))).
  { intros A m P (r & w' & Hrun & HP). unfold bind. rewrite Hrun. by destruct r. }
  destruct c as [req newId|userId|id|slug|m|limit|tags]; simpl run_call.
  - apply Hlift, createIntoDb_db.
  - apply Hlift. destruct (getMyBlog_db userId w) as (r & w' & Hrun & Hdb).
    exists r, w'. split; [done|]. rewrite Hdb. constructor.
  - apply Hlift, getBlog_db.
  - apply Hlift, getBlog_db.
  - apply run_mutation_effect.
  - apply Hlift. destruct (getTrendingBlogs_db limit w) as (r & w' & Hrun & Hdb).
    exists r, w'. split; [done|]. rewrite Hdb. constructor.
  - apply Hlift. destruct (searchByTags_db tags w) as (r & w' & Hrun & Hdb).
    exists r, w'. split; [done|]. rewrite Hdb. constructor.
Qed.

(** ** Soft delete is final *)

Lemma lookup_filter_other (id i : string) (rows : list Blog.t) :
  i ≠ id →
  Prisma.lookup (ById id) (filter (λ b, Blog.id b ≠ i) rows)
  = Prisma.lookup (ById id) rows.
Proof.
  intros Hne. unfold Prisma.lookup.
  induction rows as [|r rows IH]; [done|].
  rewrite filter_cons. simpl.
  destruct (decide (Blog.id r ≠ i)) as [Hr|Hr]; simpl.
  - destruct (bool_decide (Blog.id r = id)); [done|apply IH].
  - rewrite bool_decide_eq_false_2; [apply IH|].
    intros Heq. apply Hr. congruence.
Qed.

Lemma lookup_filter_same (id : string) (rows : list Blog.t) :
  Prisma.lookup (ById id) (filter (λ b, Blog.id b ≠ id) rows) = None.
Proof.
  unfold Prisma.lookup. induction rows as [|r rows IH]; [done|].
  rewrite filter_cons.
  destruct (decide (Blog.id r ≠ id)) as [Hr|Hr]; [|apply IH].
  simpl. by rewrite bool_decide_eq_false_2.
Qed.

Lemma patched_other (i : string) (p : Patch) (b : Blog.t) :
  Blog.id b ≠ i → patched i p b = b.
Proof. intros H. unfold patched. by rewrite bool_decide_eq_false_2. Qed.

(** X4. Soft delete is final.  Once a post is soft-deleted, no call of the
    service brings it back: after any call, in any state of Redis and
    whatever the call's outcome, the post is still soft-deleted, unless the
    call was the [deleteIntoDb] of that post, which removes it.  In
    particular an update that writes [isDeleted: false] does not restore
    it. *)
Theorem soft_delete_is_final (c : ServiceCall) (w : World) (id : string) (b : Blog.t) :
  Prisma.lookup (ById id) (db w) = Some b → Blog.isDeleted b = true →
  (∃ b', Prisma.lookup (ById id) (db (snd (run_call c w))) = Some b'
         ∧ Blog.isDeleted b' = true)
  ∨ (c = Mutate (MDelete id)
     ∧ Prisma.lookup (ById id) (db (snd (run_call c w))) = None).
Proof.
  intros Hb Hdel.
  assert (Hid : Blog.id b = id) by (by apply lookup_by_id_id in Hb).
  destruct (run_call_db c w) as [c|req newId b0 Hb0|c i p b0 Hb0 Hdel0|c i p Hp|i].
  - left. by exists b.
  - left. exists b. split; [|done]. by apply lookup_app_some.
  - left. rewrite lookup_replace_row_by_id, Hb. simpl.
    destruct (decide (i = id)) as [->|Hne]; [congruence|].
    exists b. split; [|done]. rewrite patched_other; [done|congruence].
  - left. rewrite lookup_replace_row_by_id, Hb. simpl.
    eexists. split; [done|]. unfold patched.
    destruct (bool_decide (Blog.id b = i)); [|done].
    simpl. by rewrite Hp.
  - destruct (decide (i = id)) as [->|Hne].
    + right. split; [done|]. apply lookup_filter_same.
    + left. exists b. by rewrite lookup_filter_other.
Qed.

(** An update that writes [isDeleted: false] on the soft-deleted post of
    [deleted_world]. *)
Lemma soft_delete_is_final_witness :
  (∃ b', Prisma.lookup (ById "64f0c2a1")
           (db (snd (run_call (Mutate (MUpdate "64f0c2a1" restore)) deleted_world)))
         = Some b' ∧ Blog.isDeleted b' = true)
  ∨ (Mutate (MUpdate "64f0c2a1" restore) = Mutate (MDelete "64f0c2a1")
     ∧ Prisma.lookup (ById "64f0c2a1")
         (db (snd (run_call (Mutate (MUpdate "64f0c2a1" restore)) deleted_world)))
       = None).
Proof.
  eapply (soft_delete_is_final _ deleted_world "64f0c2a1").
  - vm_compute. reflexivity.
  - reflexivity.
Defined.


(** ** Hard delete *)

Lemma deleteIntoDb_ok (w : World) (id : string) (b : Blog.t) :
  Prisma.lookup (ById id) (db w) = Some b →
  ∃ w', deleteIntoDb id w = (Ok "Blog deleted successfully", w')
    ∧ db w' = filter (λ r, Blog.id r ≠ id) (db w)
    ∧ redis_up w' = redis_up w ∧ now w' = now w
    ∧ (redis_up w = true → redis w' !! CacheKeys.blog id = None).
Proof.
  intros Hb. unfold deleteIntoDb.
  erewrite bind_ok by apply findUnique_eq. cbv beta. rewrite Hb.
  erewrite bind_ok by (apply (delete_ok _ _ b); by autorewrite with world).
  cbv beta.
  match goal with |- context [bind (invalidateBlogCache _ ?s) _ ?w0] =>
    destruct (invalidateBlogCache_total id s w0) as (w1 & Hinv & (Hdb1 & _ & Hnow & _ & Hup) & _);
    pose proof (invalidateBlogCache_up w0 id s) as Hinv_up
  end.
  erewrite bind_ok by exact Hinv. cbv beta.
  autorewrite with world in *.
  eexists. split; [reflexivity|]. split_and!; try done.
  intros Hup0. rewrite Hinv_up in Hinv by done. injection Hinv as <-.
  rewrite redis_invalidated, decide_True; [done|]. unfold doomed. left.
Qed.

(** A read by identifier when no row has the identifier and the
    primary-key entry is absent, or Redis is down. *)
Lemma getBlogByIdFromDB_missing (w : World) (id : string) :
  truthy id = true →
  (redis_up w = true → redis w !! CacheKeys.blog id = None) →
  Prisma.lookup (ById id) (db w) = None →
  getBlogByIdFromDB id w = (Err NotFound, log_call (FindFirst (ById id)) w).
Proof.
  intros Hid Hk Hb. unfold getBlogByIdFromDB, getBlog. rewrite Hid.
  destruct (safeRedisGet_total (CacheKeys.blog id) w) as (o & Hget & Hup & Hdown).
  assert (o = None) as ->.
  { destruct (redis_up w) eqn:Hu; [|by apply Hdown].
    rewrite Hup by done. unfold live. by rewrite Hk. }
  erewrite bind_ok by exact Hget. cbv beta match.
  unfold truthy_opt. rewrite Hid. simpl default.
  erewrite bind_ok by apply findFirst_eq. cbv beta. by rewrite Hb.
Qed.

(** X5. [deleteIntoDb] removes a post for good, soft-deleted or not.  When
    the identifier names a row the call succeeds in any state of Redis; the
    rows with that identifier are gone and all other rows are kept; at any
    later time, and whether Redis is reachable then or not, a second
    delete, an update and a soft delete fail with [NotFound], and so does a
    read by identifier, provided Redis was reachable during the delete or
    is unreachable at the read. *)
Theorem hard_delete_removes (w : World) (id : string) (b : Blog.t) :
  Prisma.lookup (ById id) (db w) = Some b →
  ∃ w', deleteIntoDb id w = (Ok "Blog deleted successfully", w')
    ∧ db w' = filter (λ r, Blog.id r ≠ id) (db w)
    ∧ (truthy id = true → ∀ d up, redis_up w = true ∨ up = false →
         fst (getBlogByIdFromDB id (set_up up (tick d w'))) = Err NotFound)
    ∧ (∀ d up, fst (deleteIntoDb id (set_up up (tick d w'))) = Err NotFound)
    ∧ (∀ d up data, fst (updateIntoDb id data (set_up up (tick d w'))) = Err NotFound)
    ∧ (∀ d up, fst (softDeleteIntoDb id (set_up up (tick d w'))) = Err NotFound).
Proof.
  intros Hb.
  destruct (deleteIntoDb_ok w id b Hb) as (w' & Hrun & Hdb & Hup & Hnow & Hkey).
  assert (Hgone : ∀ d up, Prisma.lookup (ById id) (db (set_up up (tick d w'))) = None).
  { intros d up. autorewrite with world. rewrite Hdb. apply lookup_filter_same. }
  exists w'. split_and!; try done.
  - intros Hid d up Hcase.
    rewrite getBlogByIdFromDB_missing; [done|done| |apply Hgone].
    autorewrite with world. intros ->. apply Hkey. by destruct Hcase.
  - intros d up. unfold deleteIntoDb. erewrite bind_ok by apply findUnique_eq.
    cbv beta. by rewrite Hgone.
  - intros d up data. unfold updateIntoDb. erewrite bind_ok by apply findUnique_eq.
    cbv beta. by rewrite Hgone.
  - intros d up. unfold softDeleteIntoDb. erewrite bind_ok by apply findUnique_eq.
    cbv beta. by rewrite Hgone.
Qed.

(** The second post of [created_world], whose snapshot is cached under its
    primary key, is deleted and read again a minute later. *)
Lemma hard_delete_removes_witness :
  live created_world (CacheKeys.blog "75a1d3b2") = Some (RBlog second_post)
  ∧ ∃ w', deleteIntoDb "75a1d3b2" created_world = (Ok "Blog deleted successfully", w')
      ∧ db w' = [sample_post]
      ∧ fst (getBlogByIdFromDB "75a1d3b2" (set_up true (tick 60 w'))) = Err NotFound.
Proof.
  split; [by vm_compute|].
  destruct (hard_delete_removes created_world "75a1d3b2" second_post)
    as (w' & H1 & H2 & H3 & _).
  - reflexivity.
  - exists w'. split; [exact H1|]. split; [exact H2|].
    apply H3; [reflexivity|]. left. reflexivity.
Defined.

(** What the proviso excludes: the delete is made while Redis is
    unreachable, its invalidation is swallowed, and once Redis is back the
    read by identifier is served from the snapshot cached before. *)
Example deleted_post_served_after_outage :
  fst (deleteIntoDb "75a1d3b2" (set_up false created_world))
  = Ok "Blog deleted successfully"
  ∧ db (snd (deleteIntoDb "75a1d3b2" (set_up false created_world))) = [sample_post]
  ∧ match fst (getBlogByIdFromDB "75a1d3b2"
                 (set_up true (tick 60 (snd (deleteIntoDb "75a1d3b2"
                                               (set_up false created_world)))))) with
    | Ok r => Blog.id r = "75a1d3b2"
    | Err _ => False
    end.
Proof. by vm_compute. Qed.

(** ** Slugs of deleted posts *)

Lemma softDeleteIntoDb_ok (w : World) (id : string) (b : Blog.t) :
  Prisma.lookup (ById id) (db w) = Some b → Blog.isDeleted b = false →
  ∃ w', softDeleteIntoDb id w = (Ok "Blog soft deleted successfully", w')
    ∧ db w' = Prisma.replace_row id (soft_delete (now w)) (db w)
    ∧ redis_up w' = redis_up w ∧ now w' = now w.
Proof.
  intros Hb Hdel. unfold softDeleteIntoDb.
  erewrite bind_ok by apply findUnique_eq. cbv beta. rewrite Hb, Hdel.
  erewrite bind_ok by apply gets_eq. cbv beta.
  erewrite bind_ok by (apply (update_ok _ _ _ b); [by autorewrite with world|done]).
  cbv beta.
  match goal with |- context [bind (invalidateBlogCache _ ?s) _ ?w0] =>
    destruct (invalidateBlogCache_total id s w0) as (w1 & Hinv & (Hdb1 & _ & Hnow & _ & Hup) & _)
  end.
  erewrite bind_ok by exact Hinv. cbv beta.
  autorewrite with world in *.
  eexists. split; [reflexivity|]. by split_and!.
Qed.

Lemma lookup_slug_of_row (rows : list Blog.t) (q : Where) (b : Blog.t) :
  Prisma.lookup q rows = Some b →
  is_Some (Prisma.lookup (BySlug (Some (Blog.slug b))) rows).
Proof.
  unfold Prisma.lookup. intros H. apply find_some in H as [Hin _].
  destruct (find _ rows) eqn:Hf; [by eexists|].
  exfalso. eapply find_none in Hf; [|exact Hin].
  simpl in Hf. by rewrite bool_decide_eq_true_2 in Hf.
Qed.

Lemma lookup_slug_filter_none (rows : list Blog.t) (id s : string) :
  (∀ r, r ∈ rows → Blog.slug r = s → Blog.id r = id) →
  Prisma.lookup (BySlug (Some s)) (filter (λ r, Blog.id r ≠ id) rows) = None.
Proof.
  intros Honly. unfold Prisma.lookup.
  destruct (find _ _) as [r|] eqn:Hf; [|done].
  apply find_some in Hf as [Hin Hm]. simpl in Hm. apply bool_decide_eq_true in Hm.
  apply list_elem_of_In, list_elem_of_filter in Hin as [Hne Hin].
  exfalso. apply Hne. by apply Honly.
Qed.

(** X6. The slug of a soft-deleted post stays reserved, the slug of a
    hard-deleted post is free again.  After [softDeleteIntoDb] a
    [createIntoDb] with the slug of the deleted post fails with [Conflict];
    after [deleteIntoDb] the same request succeeds, provided no other row
    had that slug. *)
Theorem slug_of_deleted_post
    (w : World) (id : string) (b : Blog.t) (req : Request) (userId newId : string) :
  Prisma.lookup (ById id) (db w) = Some b →
  req_user req = Some userId → truthy userId = true →
  body_slug req = Blog.slug b →
  (Blog.isDeleted b = false →
   fst (softDeleteIntoDb id w) = Ok "Blog soft deleted successfully"
   ∧ fst (createIntoDb req newId (snd (softDeleteIntoDb id w))) = Err Conflict)
  ∧ ((∀ r, r ∈ db w → Blog.slug r = Blog.slug b → Blog.id r = id) →
     fst (deleteIntoDb id w) = Ok "Blog deleted successfully"
     ∧ ∃ b', fst (createIntoDb req newId (snd (deleteIntoDb id w))) = Ok b'
             ∧ Blog.slug b' = Blog.slug b ∧ Blog.id b' = newId).
Proof.
  intros Hb Hu Ht Hslug. split.
  - intros Hdel.
    destruct (softDeleteIntoDb_ok w id b Hb Hdel) as (w' & -> & Hdb & _).
    split; [done|]. simpl snd.
    unfold createIntoDb. rewrite Hu, Ht. cbn [negb].
    erewrite bind_ok by apply findUnique_eq. cbv beta.
    rewrite Hdb, Hslug, lookup_replace_row by done.
    by destruct (lookup_slug_of_row _ _ _ Hb) as [r ->].
  - intros Honly.
    destruct (deleteIntoDb_ok w id b Hb) as (w' & -> & Hdb & _).
    split; [done|]. simpl snd.
    assert (Hfree : Prisma.lookup (BySlug (Some (body_slug req))) (db w') = None)
      by (rewrite Hdb, Hslug; by apply lookup_slug_filter_none).
    unfold createIntoDb. rewrite Hu, Ht. cbn [negb].
    erewrite bind_ok by apply findUnique_eq. cbv beta. rewrite Hfree.
    erewrite bind_ok by apply gets_eq. cbv beta.
    unfold bind at 1, Prisma.create. autorewrite with world.
    rewrite (slug_free_not_taken _ _ _ Hfree). cbv beta iota zeta.
    match goal with
    | |- context [bind _ _ ?w1] =>
        destruct (create_caches w1 userId
          (Blog.mk newId (body_slug req) (body_title req) (body_description req)
             (default [] (body_tags req)) (default false (body_published req))
             false userId 0 0 (now w') (now w'))) as (w2 & Hrun & _)
    end.
    rewrite Hrun. eexists. split; [reflexivity|]. by rewrite <- Hslug.
Qed.

(** The slug of the post of [sample_world] after a soft delete. *)
Lemma slug_of_deleted_post_witness :
  fst (softDeleteIntoDb "64f0c2a1" sample_world) = Ok "Blog soft deleted successfully"
  ∧ fst (createIntoDb reuse_request "75a1d3b2"
           (snd (softDeleteIntoDb "64f0c2a1" sample_world))) = Err Conflict.
Proof.
  destruct (slug_of_deleted_post sample_world "64f0c2a1" sample_post reuse_request
              "u2" "75a1d3b2") as [H _].
  - reflexivity.
  - reflexivity.
  - reflexivity.
  - reflexivity.
  - apply H. reflexivity.
Defined.


(** ** Likes over time *)

(** A like of a post in the store by a user without a live marker. *)
Lemma likeBlog_ok (w : World) (blogId userId : string) (b : Blog.t) :
  redis_up w = true →
  Prisma.lookup (ById blogId) (db w) = Some b →
  live w (CacheKeys.userLike userId blogId) = None →
  ∃ w1, likeBlog blogId userId w = (Ok "Blog liked successfully", w1)
    ∧ redis_up w1 = true ∧ now w1 = now w
    ∧ db w1 = Prisma.replace_row blogId (likes_by (NIncrement 1)) (db w)
    ∧ dblog w1 = dblog w ++ [Update blogId (likes_by (NIncrement 1))]
    ∧ redis w1 !! CacheKeys.userLike userId blogId
      = Some (mkEntry (RInt 1) (Some (now w + CacheTTL.userLike))).
Proof.
  intros Hup Hb Hmark.
  set (marker := CacheKeys.userLike userId blogId).
  set (wa := set_redis (<[marker := mkEntry (RInt 1) (Some (now w + CacheTTL.userLike))]>) w).
  destruct (like_counter_total wa (CacheKeys.likes blogId) 1)
    as (wb & Hrun & Hupb & Hnowb & Hdbb & Hlogb & _ & Hframe).
  change (redis_up wa) with (redis_up w) in Hupb.
  change (now wa) with (now w) in Hnowb.
  change (db wa) with (db w) in Hdbb.
  change (dblog wa) with (dblog w) in Hlogb.
  exists (invalidated blogId None
            (set_db (Prisma.replace_row blogId (likes_by (NIncrement 1)))
               (log_call (Update blogId (likes_by (NIncrement 1))) wb))).
  split.
  { unfold likeBlog, Redis.incr. run. rewrite Hmark. fold marker. fold wa.
    run. erewrite bind_ok by exact Hrun. cbv beta.
    erewrite bind_ok; [|apply update_ok; [by rewrite Hdbb|done]]. cbv beta.
    erewrite bind_ok; [|apply invalidateBlogCache_up; autorewrite with world; congruence].
    reflexivity. }
  autorewrite with world. split_and!; try congruence.
  rewrite redis_invalidated.
  rewrite decide_False by apply userLike_not_doomed.
  autorewrite with world.
  rewrite Hframe by apply userLike_ne_likes.
  subst wa. autorewrite with world. by rewrite lookup_insert_eq.
Qed.

(** An unlike of a post in the store by a user with a live marker. *)
Lemma unlikeBlog_ok (w : World) (blogId userId : string) (b : Blog.t) (v : RVal) :
  redis_up w = true →
  Prisma.lookup (ById blogId) (db w) = Some b →
  live w (CacheKeys.userLike userId blogId) = Some v →
  ∃ w1, unlikeBlog blogId userId w = (Ok "Blog unliked successfully", w1)
    ∧ redis_up w1 = true ∧ now w1 = now w
    ∧ db w1 = Prisma.replace_row blogId (likes_by (NDecrement 1)) (db w)
    ∧ redis w1 !! CacheKeys.userLike userId blogId = None.
Proof.
  intros Hup Hb Hmark.
  set (marker := CacheKeys.userLike userId blogId).
  set (wa := set_redis (λ m, foldr delete m [marker]) w).
  destruct (like_counter_total wa (CacheKeys.likes blogId) (-1))
    as (wb & Hrun & Hupb & Hnowb & Hdbb & Hlogb & _ & Hframe).
  change (redis_up wa) with (redis_up w) in Hupb.
  change (now wa) with (now w) in Hnowb.
  change (db wa) with (db w) in Hdbb.
  exists (invalidated blogId None
            (set_db (Prisma.replace_row blogId (likes_by (NDecrement 1)))
               (log_call (Update blogId (likes_by (NDecrement 1))) wb))).
  split.
  { unfold unlikeBlog, Redis.decr. run. rewrite Hmark.
    run. fold marker. fold wa. erewrite bind_ok by exact Hrun. cbv beta.
    erewrite bind_ok; [|apply update_ok; [by rewrite Hdbb|done]]. cbv beta.
    erewrite bind_ok; [|apply invalidateBlogCache_up; autorewrite with world; congruence].
    reflexivity. }
  autorewrite with world. split_and!; try congruence.
  rewrite redis_invalidated.
  destruct (decide _); [done|]. autorewrite with world.
  rewrite Hframe by apply userLike_ne_likes.
  subst wa. autorewrite with world. rewrite lookup_foldr_delete.
  by rewrite decide_True by left.
Qed.

Lemma live_entry_tick (w : World) (k : string) (v : RVal) (t d : Z) :
  redis w !! k = Some (mkEntry v (Some t)) →
  live (tick d w) k = if now w + d <? t then Some v else None.
Proof.
  intros He. unfold live. autorewrite with world. rewrite He. reflexivity.
Qed.

Lemma unlike_undoes_like (i : string) (rows : list Blog.t) :
  Prisma.replace_row i (likes_by (NDecrement 1))
    (Prisma.replace_row i (likes_by (NIncrement 1)) rows) = rows.
Proof.
  unfold Prisma.replace_row. rewrite <- list_fmap_compose.
  rewrite <- (list_fmap_id rows) at 2. apply list_fmap_ext. intros _ b _. simpl.
  destruct (bool_decide (Blog.id b = i)) eqn:Hi; [|by rewrite Hi].
  simpl. rewrite Hi. destruct b. unfold apply_patch. simpl. f_equal. lia.
Qed.

(** X7. A like followed by an unlike of the same pair, made while the like
    marker is alive, restores the collection exactly: the like count of the
    post is what it was, no other field and no other row has changed, and
    the marker is gone, so that the user can like the post again. *)
Theorem like_then_unlike (w : World) (blogId userId : string) (b : Blog.t) (d : Z) :
  redis_up w = true →
  Prisma.lookup (ById blogId) (db w) = Some b →
  live w (CacheKeys.userLike userId blogId) = None →
  0 ≤ d < CacheTTL.userLike →
  ∃ w1 w2,
    likeBlog blogId userId w = (Ok "Blog liked successfully", w1)
    ∧ unlikeBlog blogId userId (tick d w1) = (Ok "Blog unliked successfully", w2)
    ∧ db w2 = db w
    ∧ live w2 (CacheKeys.userLike userId blogId) = None
    ∧ fst (likeBlog blogId userId w2) = Ok "Blog liked successfully".
Proof.
  intros Hup Hb Hmark [Hd0 Hd1].
  destruct (likeBlog_ok w blogId userId b Hup Hb Hmark)
    as (w1 & Hlike & Hup1 & Hnow1 & Hdb1 & _ & Hentry).
  assert (Hlive : live (tick d w1) (CacheKeys.userLike userId blogId) = Some (RInt 1)).
  { rewrite (live_entry_tick _ _ _ _ _ Hentry), Hnow1.
    by replace (now w + d <? now w + CacheTTL.userLike) with true
      by (symmetry; apply Z.ltb_lt; lia). }
  assert (Hrow : Prisma.lookup (ById blogId) (db (tick d w1))
                 = Some (patched blogId (likes_by (NIncrement 1)) b)).
  { autorewrite with world. by rewrite Hdb1, lookup_replace_row_by_id, Hb. }
  destruct (unlikeBlog_ok (tick d w1) blogId userId _ _
              ltac:(by autorewrite with world) Hrow Hlive)
    as (w2 & Hunlike & Hup2 & Hnow2 & Hdb2 & Hgone).
  autorewrite with world in Hdb2. rewrite Hdb1, unlike_undoes_like in Hdb2.
  assert (Hlive2 : live w2 (CacheKeys.userLike userId blogId) = None)
    by (unfold live; by rewrite Hgone).
  exists w1, w2. split_and!; try done.
  destruct (likeBlog_ok w2 blogId userId b Hup2) as (w3 & -> & _); [congruence|done|done].
Qed.

(** User [u2] likes the post of [sample_world] and takes the like back an
    hour later. *)
Lemma like_then_unlike_witness :
  ∃ w1 w2,
    likeBlog "64f0c2a1" "u2" sample_world = (Ok "Blog liked successfully", w1)
    ∧ unlikeBlog "64f0c2a1" "u2" (tick 3600 w1) = (Ok "Blog unliked successfully", w2)
    ∧ db w2 = db sample_world.
Proof.
  destruct (like_then_unlike sample_world "64f0c2a1" "u2" sample_post 3600)
    as (w1 & w2 & H1 & H2 & H3 & _).
  - reflexivity.
  - reflexivity.
  - reflexivity.
  - unfold CacheTTL.userLike. lia.
  - exists w1, w2. split; [exact H1|]. split; [exact H2|exact H3].
Defined.

(** X8. The like marker lives 30 days.  Once they have passed, the post
    counts as not liked by the user: an unlike fails with [NotLiked] and
    leaves the like in the count, and a second like of the same pair
    succeeds, so that the persisted count has then risen by 2 for one
    user. *)
Theorem like_marker_expires (w : World) (blogId userId : string) (b : Blog.t) (d : Z) :
  redis_up w = true →
  Prisma.lookup (ById blogId) (db w) = Some b →
  live w (CacheKeys.userLike userId blogId) = None →
  CacheTTL.userLike ≤ d →
  ∃ w1 w2 b2,
    likeBlog blogId userId w = (Ok "Blog liked successfully", w1)
    ∧ unlikeBlog blogId userId (tick d w1) = (Err NotLiked, tick d w1)
    ∧ likeBlog blogId userId (tick d w1) = (Ok "Blog liked successfully", w2)
    ∧ Prisma.lookup (ById blogId) (db w2) = Some b2
    ∧ Blog.likes b2 = Blog.likes b + 2.
Proof.
  intros Hup Hb Hmark Hd.
  destruct (likeBlog_ok w blogId userId b Hup Hb Hmark)
    as (w1 & Hlike & Hup1 & Hnow1 & Hdb1 & _ & Hentry).
  assert (Hid : Blog.id b = blogId) by (by apply lookup_by_id_id in Hb).
  assert (Hlive : live (tick d w1) (CacheKeys.userLike userId blogId) = None).
  { rewrite (live_entry_tick _ _ _ _ _ Hentry), Hnow1.
    by replace (now w + d <? now w + CacheTTL.userLike) with false
      by (symmetry; apply Z.ltb_ge; lia). }
  assert (Hrow : Prisma.lookup (ById blogId) (db (tick d w1))
                 = Some (apply_patch (likes_by (NIncrement 1)) b)).
  { autorewrite with world. rewrite Hdb1, lookup_replace_row_by_id, Hb. simpl.
    unfold patched. by rewrite bool_decide_eq_true_2. }
  assert (Hupt : redis_up (tick d w1) = true) by (by autorewrite with world).
  destruct (likeBlog_ok (tick d w1) blogId userId _ Hupt Hrow Hlive)
    as (w2 & Hlike2 & _ & _ & Hdb2 & _).
  exists w1, w2, (apply_patch (likes_by (NIncrement 1))
                    (apply_patch (likes_by (NIncrement 1)) b)).
  split_and!; try done.
  - unfold unlikeBlog. run. by rewrite Hlive.
  - rewrite Hdb2, lookup_replace_row_by_id, Hrow. simpl. unfold patched.
    by rewrite bool_decide_eq_true_2.
  - simpl. lia.
Qed.

(** User [u2] likes the post of [sample_world] again 31 days later. *)
Lemma like_marker_expires_witness :
  ∃ w1 w2 b2,
    likeBlog "64f0c2a1" "u2" sample_world = (Ok "Blog liked successfully", w1)
    ∧ likeBlog "64f0c2a1" "u2" (tick (86400 * 31) w1) = (Ok "Blog liked successfully", w2)
    ∧ Prisma.lookup (ById "64f0c2a1") (db w2) = Some b2
    ∧ Blog.likes b2 = Blog.likes sample_post + 2.
Proof.
  destruct (like_marker_expires sample_world "64f0c2a1" "u2" sample_post (86400 * 31))
    as (w1 & w2 & b2 & H1 & _ & H2 & H3 & H4).
  - reflexivity.
  - reflexivity.
  - reflexivity.
  - unfold CacheTTL.userLike. lia.
  - exists w1, w2, b2. split; [exact H1|]. split; [exact H2|]. split; [exact H3|exact H4].
Defined.

(** X9. A like of a post that does not exist is not rolled back.  With
    Redis up and no row for the identifier, [likeBlog] fails with the
    store's own not-found error, not with an [AppError], after it has
    written the like marker; the collection is unchanged, and until the
    marker expires a further like of the same pair fails with
    [AlreadyLiked]. *)
Theorem like_of_missing_post (w : World) (blogId userId : string) (d : Z) :
  redis_up w = true →
  Prisma.lookup (ById blogId) (db w) = None →
  live w (CacheKeys.userLike userId blogId) = None →
  0 ≤ d < CacheTTL.userLike →
  ∃ w1, likeBlog blogId userId w = (Err PrismaNotFound, w1)
    ∧ db w1 = db w
    ∧ live (tick d w1) (CacheKeys.userLike userId blogId) = Some (RInt 1)
    ∧ likeBlog blogId userId (tick d w1) = (Err AlreadyLiked, tick d w1).
Proof.
  intros Hup Hb Hmark [Hd0 Hd1].
  set (marker := CacheKeys.userLike userId blogId).
  set (wa := set_redis (<[marker := mkEntry (RInt 1) (Some (now w + CacheTTL.userLike))]>) w).
  destruct (like_counter_total wa (CacheKeys.likes blogId) 1)
    as (wb & Hrun & Hupb & Hnowb & Hdbb & Hlogb & _ & Hframe).
  change (redis_up wa) with (redis_up w) in Hupb.
  change (now wa) with (now w) in Hnowb.
  change (db wa) with (db w) in Hdbb.
  exists (log_call (Update blogId (likes_by (NIncrement 1))) wb).
  assert (Hlive : live (tick d (log_call (Update blogId (likes_by (NIncrement 1))) wb)) marker
                  = Some (RInt 1)).
  { rewrite (live_entry_tick _ _ (RInt 1) (now w + CacheTTL.userLike)).
    - autorewrite with world. rewrite Hnowb.
      by replace (now w + d <? now w + CacheTTL.userLike) with true
        by (symmetry; apply Z.ltb_lt; lia).
    - autorewrite with world. rewrite Hframe by apply userLike_ne_likes.
      subst wa. autorewrite with world. by rewrite lookup_insert_eq. }
  split_and!.
  - unfold likeBlog, Redis.incr. run. rewrite Hmark. fold marker. fold wa.
    run. erewrite bind_ok by exact Hrun. cbv beta.
    erewrite bind_err; [reflexivity|]. apply update_missing. by rewrite Hdbb.
  - by autorewrite with world.
  - done.
  - unfold likeBlog. fold marker.
    erewrite bind_ok by (apply safeRedisGet_up; autorewrite with world; congruence).
    cbv beta. by rewrite Hlive.
Qed.

(** User [u2] likes a post that was never created. *)
Lemma like_of_missing_post_witness :
  ∃ w1, likeBlog "0000" "u2" sample_world = (Err PrismaNotFound, w1)
    ∧ db w1 = db sample_world
    ∧ likeBlog "0000" "u2" (tick 60 w1) = (Err AlreadyLiked, tick 60 w1).
Proof.
  destruct (like_of_missing_post sample_world "0000" "u2" 60) as (w1 & H1 & H2 & _ & H3).
  - reflexivity.
  - reflexivity.
  - reflexivity.
  - unfold CacheTTL.userLike. lia.
  - exists w1. split; [exact H1|]. split; [exact H2|exact H3].
Defined.


(** ** The listings *)

Lemma getMyBlog_miss (w : World) (userId : string) :
  redis_up w = true → live w (CacheKeys.myBlogs userId) = None →
  getMyBlog userId w
  = (Ok (Listings.ofUser userId (db w)),
     set_redis (<[CacheKeys.myBlogs userId
                  := mkEntry (RBlogs (Listings.ofUser userId (db w)))
                       (Some (now w + CacheTTL.blog))]>) w).
Proof.
  intros Hup Hmiss. unfold getMyBlog. run. rewrite Hmiss. by do 2 run.
Qed.

Lemma getMyBlog_hit (w : World) (userId : string) (l : list Blog.t) :
  redis_up w = true → live w (CacheKeys.myBlogs userId) = Some (RBlogs l) →
  getMyBlog userId w = (Ok l, w).
Proof. intros Hup Hhit. unfold getMyBlog. run. by rewrite Hhit. Qed.

Lemma getTrendingBlogs_miss (w : World) (limit : option Z) :
  redis_up w = true → live w CacheKeys.trending = None →
  getTrendingBlogs limit w
  = (Ok (Listings.trending (default 10 limit) (db w)),
     set_redis (<[CacheKeys.trending
                  := mkEntry (RBlogs (Listings.trending (default 10 limit) (db w)))
                       (Some (now w + CacheTTL.trending))]>) w).
Proof.
  intros Hup Hmiss. unfold getTrendingBlogs. run. rewrite Hmiss. by do 2 run.
Qed.

Lemma getTrendingBlogs_hit (w : World) (limit : option Z) (l : list Blog.t) :
  redis_up w = true → live w CacheKeys.trending = Some (RBlogs l) →
  getTrendingBlogs limit w = (Ok l, w).
Proof. intros Hup Hhit. unfold getTrendingBlogs. run. by rewrite Hhit. Qed.

(** X10. The trending entry does not depend on [limit].  A call that
    misses stores the rows it computed for its own limit, for 300 seconds;
    until then every call is answered with those rows, whatever limit it
    asks for and without a look at the store; from then on a call computes
    the rows for its own limit again. *)
Theorem trending_cache_ignores_limit (w : World) (l1 l2 : option Z) (d : Z) :
  redis_up w = true → live w CacheKeys.trending = None → 0 ≤ d →
  ∃ w1, getTrendingBlogs l1 w = (Ok (Listings.trending (default 10 l1) (db w)), w1)
    ∧ (d < CacheTTL.trending →
       getTrendingBlogs l2 (tick d w1)
       = (Ok (Listings.trending (default 10 l1) (db w)), tick d w1))
    ∧ (CacheTTL.trending ≤ d →
       fst (getTrendingBlogs l2 (tick d w1))
       = Ok (Listings.trending (default 10 l2) (db w))).
Proof.
  intros Hup Hmiss Hd.
  eexists. split; [by apply getTrendingBlogs_miss|].
  set (w1 := set_redis _ w).
  assert (Hlive : live (tick d w1) CacheKeys.trending
                  = if now w + d <? now w + CacheTTL.trending
                    then Some (RBlogs (Listings.trending (default 10 l1) (db w)))
                    else None).
  { rewrite (live_entry_tick w1 _ (RBlogs (Listings.trending (default 10 l1) (db w)))
               (now w + CacheTTL.trending)); [done|].
    subst w1. autorewrite with world. by rewrite lookup_insert_eq. }
  split.
  - intros Hlt. apply getTrendingBlogs_hit; [done|]. rewrite Hlive.
    by replace (now w + d <? now w + CacheTTL.trending) with true
      by (symmetry; apply Z.ltb_lt; lia).
  - intros Hge. rewrite getTrendingBlogs_miss; [done|done|]. rewrite Hlive.
    by replace (now w + d <? now w + CacheTTL.trending) with false
      by (symmetry; apply Z.ltb_ge; lia).
Qed.

(** A first call in [sample_world] asks for 5 rows, a second one, a minute
    later, for 20. *)
Lemma trending_cache_ignores_limit_witness :
  ∃ w1, getTrendingBlogs (Some 5) sample_world
        = (Ok (Listings.trending 5 (db sample_world)), w1)
    ∧ getTrendingBlogs (Some 20) (tick 60 w1)
      = (Ok (Listings.trending 5 (db sample_world)), tick 60 w1).
Proof.
  destruct (trending_cache_ignores_limit sample_world (Some 5) (Some 20) 60)
    as (w1 & H1 & H2 & _).
  - reflexivity.
  - reflexivity.
  - lia.
  - exists w1. split; [exact H1|]. apply H2. unfold CacheTTL.trending. lia.
Defined.


(** A successful mutation leaves no listing and no trending entry. *)
Lemma mutation_clears_listings (m : Mutation) (w w' : World) (b : Blog.t) :
  redis_up w = true →
  Prisma.lookup (ById (target m)) (db w) = Some b →
  run_mutation m w = (Ok tt, w') →
  listings_absent w' ∧ redis_up w' = true.
Proof.
  intros Hup Hb Hrun.
  split.
  2:{ pose proof (eff_up _ _ _ _ (run_mutation_effect m w)) as H.
      rewrite Hrun in H. simpl in H. congruence. }
  revert Hrun.
  destruct m as [id data|id|id|id u|id u]; simpl in Hb; simpl.
  - destruct (updateIntoDb id data w) as [[r|e] w1] eqn:Hrun;
      unfold bind; rewrite Hrun; intros [= <-].
    by destruct (update_recaches _ _ _ _ _ _ Hup Hb Hrun).
  - destruct (deleteIntoDb id w) as [[r|e] w1] eqn:Hrun;
      unfold bind; rewrite Hrun; intros [= <-].
    destruct (delete_ends_invalidated _ _ _ _ _ Hup Hb Hrun) as [w2 ->].
    apply listings_absent_invalidated.
  - destruct (softDeleteIntoDb id w) as [[r|e] w1] eqn:Hrun;
      unfold bind; rewrite Hrun; intros [= <-].
    destruct (softDelete_ends_invalidated _ _ _ _ _ Hup Hb Hrun) as (w2 & -> & _).
    apply listings_absent_invalidated.
  - destruct (likeBlog id u w) as [[r|e] w1] eqn:Hrun;
      unfold bind; rewrite Hrun; intros [= <-].
    destruct (like_ends_invalidated _ _ _ _ _ _ Hup Hb Hrun) as [w2 ->].
    apply listings_absent_invalidated.
  - destruct (unlikeBlog id u w) as [[r|e] w1] eqn:Hrun;
      unfold bind; rewrite Hrun; intros [= <-].
    destruct (unlike_ends_invalidated _ _ _ _ _ _ Hup Hb Hrun) as [w2 ->].
    apply listings_absent_invalidated.
Qed.

Lemma elem_of_ofUser (userId : string) (rows : list Blog.t) (r : Blog.t) :
  r ∈ Listings.ofUser userId rows
  ↔ r ∈ rows ∧ Blog.userId r = userId ∧ Blog.isDeleted r = false.
Proof.
  unfold Listings.ofUser. rewrite orderBy_Permutation, list_elem_of_filter. tauto.
Qed.

Lemma elem_of_trending (limit : Z) (rows : list Blog.t) (r : Blog.t) :
  r ∈ Listings.trending limit rows →
  r ∈ rows ∧ Blog.published r = true ∧ Blog.isDeleted r = false.
Proof.
  unfold Listings.trending, Listings.take. intros H.
  assert (H' : r ∈ Prisma.orderBy Listings.hotter
                 (filter (λ b, Blog.published b = true ∧ Blog.isDeleted b = false) rows)).
  { destruct (0 <=? limit); [by eapply subseteq_take|by eapply subseteq_drop]. }
  rewrite orderBy_Permutation, list_elem_of_filter in H'. tauto.
Qed.

Lemma elem_of_replace_row (i : string) (p : Patch) (rows : list Blog.t) (r : Blog.t) :
  r ∈ Prisma.replace_row i p rows ↔ ∃ b, r = patched i p b ∧ b ∈ rows.
Proof. unfold Prisma.replace_row. apply list_elem_of_fmap. Qed.

(** X11. After a successful mutation the listings are read from the store.
    With Redis up, once an update, a delete, a soft delete, a like or an
    unlike of a post has succeeded, the next [getMyBlog] of any user and
    the next [getTrendingBlogs] are answered from the collection as the
    mutation left it, not from an entry cached before; after a delete or a
    soft delete of a post no such answer contains a row of that post. *)
Theorem listings_fresh_after_mutation (m : Mutation) (w w' : World) (b : Blog.t) :
  redis_up w = true →
  Prisma.lookup (ById (target m)) (db w) = Some b →
  run_mutation m w = (Ok tt, w') →
  (∀ userId, fst (getMyBlog userId w') = Ok (Listings.ofUser userId (db w')))
  ∧ (∀ limit, fst (getTrendingBlogs limit w')
              = Ok (Listings.trending (default 10 limit) (db w')))
  ∧ match m with
    | MDelete id | MSoftDelete id =>
        ∀ r, Blog.id r = id →
          (∀ userId, r ∉ Listings.ofUser userId (db w'))
          ∧ (∀ limit, r ∉ Listings.trending limit (db w'))
    | _ => True
    end.
Proof.
  intros Hup Hb Hrun.
  destruct (mutation_clears_listings m w w' b Hup Hb Hrun) as [(Ht & _ & Hu) Hup'].
  split; [|split].
  - intros userId. by rewrite getMyBlog_miss.
  - intros limit. by rewrite getTrendingBlogs_miss.
  - assert (Hgone : ∀ id, target m = id →
              (db w' = filter (λ r, Blog.id r ≠ id) (db w)
               ∨ ∃ t, db w' = Prisma.replace_row id (soft_delete t) (db w)) →
              ∀ r, Blog.id r = id →
                (∀ userId, r ∉ Listings.ofUser userId (db w'))
                ∧ (∀ limit, r ∉ Listings.trending limit (db w'))).
    { intros id Hid Hdb r Hr.
      assert (Hno : r ∈ db w' → Blog.isDeleted r = false → False).
      { intros Hin Hdel. destruct Hdb as [Hdb|[t Hdb]]; rewrite Hdb in Hin.
        - apply list_elem_of_filter in Hin as [Hne _]. done.
        - apply elem_of_replace_row in Hin as (b0 & -> & _).
          unfold patched in Hdel, Hr.
          destruct (bool_decide (Blog.id b0 = id)) eqn:Hb0; [done|].
          by apply bool_decide_eq_false in Hb0. }
      split.
      - intros userId Hin. apply elem_of_ofUser in Hin as (? & _ & ?). auto.
      - intros limit Hin. apply elem_of_trending in Hin as (? & _ & ?). auto. }
    destruct m as [id data|id|id|id u|id u]; try done; simpl in Hb, Hrun.
    + apply Hgone; [done|]. left.
      destruct (deleteIntoDb_ok w id b Hb) as (w1 & Hd & Hdb & _).
      unfold bind in Hrun. rewrite Hd in Hrun. by injection Hrun as <-.
    + apply Hgone; [done|]. right. exists (now w).
      destruct (softDeleteIntoDb id w) as [[r0|e] w1] eqn:Hsd;
        unfold bind in Hrun; rewrite Hsd in Hrun; [|discriminate Hrun].
      injection Hrun as <-.
      destruct (softDelete_ends_invalidated _ _ _ _ _ Hup Hb Hsd) as (w2 & -> & Hdb & _).
      by autorewrite with world.
Qed.

(** The soft delete of the second post in [warm_world], where its
    author's listing and the trending list are cached with the post in
    them: the listings read next come from the store and no longer hold
    it. *)
Lemma listings_fresh_after_mutation_witness :
  (live warm_world (CacheKeys.myBlogs "u2") = Some (RBlogs [second_post])
   ∧ live warm_world CacheKeys.trending = Some (RBlogs [sample_post; second_post]))
  ∧ fst (getMyBlog "u2" (snd (run_mutation (MSoftDelete "75a1d3b2") warm_world)))
    = Ok (Listings.ofUser "u2"
            (db (snd (run_mutation (MSoftDelete "75a1d3b2") warm_world))))
  ∧ Listings.ofUser "u2" (db (snd (run_mutation (MSoftDelete "75a1d3b2") warm_world)))
    = []
  ∧ fst (getTrendingBlogs None (snd (run_mutation (MSoftDelete "75a1d3b2") warm_world)))
    = Ok (Listings.trending (default 10 None)
            (db (snd (run_mutation (MSoftDelete "75a1d3b2") warm_world))))
  ∧ Listings.trending (default 10 None)
      (db (snd (run_mutation (MSoftDelete "75a1d3b2") warm_world)))
    = [sample_post].
Proof.
  split; [by vm_compute|].
  destruct (listings_fresh_after_mutation (MSoftDelete "75a1d3b2") warm_world
              (snd (run_mutation (MSoftDelete "75a1d3b2") warm_world)) second_post)
    as (H1 & H2 & _).
  - reflexivity.
  - reflexivity.
  - vm_compute. reflexivity.
  - split; [apply H1|]. split; [by vm_compute|].
    split; [apply H2|]. by vm_compute.
Defined.


(** ** Patterns with a literal prefix *)

Lemma glob_literal (c : ascii) (p s : string) :
  c ∉ ["*"; "?"; "\"]%char →
  glob (String c p) s
  = match s with
    | EmptyString => false
    | String d s' => bool_decide (c = d) && glob p s'
    end.
Proof.
  intros Hc.
  assert (H1 : c ≠ "*"%char) by (intros ->; apply Hc; left).
  assert (H2 : c ≠ "?"%char) by (intros ->; apply Hc; right; left).
  assert (H3 : c ≠ "\"%char) by (intros ->; apply Hc; do 2 right; left).
  clear Hc.
  destruct s as [|d s'];
    destruct c as [[] [] [] [] [] [] [] []]; try reflexivity; try done;
    destruct p; try reflexivity; done.
Qed.

Lemma append_empty_r (s : string) : s +:+ "" = s.
Proof.
  induction s as [|c s IH]; [done|].
  change (String c (s +:+ "") = String c s). by rewrite IH.
Qed.

Lemma plain_cons (c : ascii) (s : string) :
  plain (String c s) = true → (c ∉ ["*"; "?"; "\"]%char) ∧ plain s = true.
Proof.
  unfold plain. simpl. intros H. apply andb_true_iff in H as [Hc Hs].
  split; [|done]. apply negb_true_iff, bool_decide_eq_false in Hc.
  intros Hin. apply Hc. rewrite !elem_of_cons in *. tauto.
Qed.

Lemma glob_prefix (p rest : string) :
  plain p = true → glob (p +:+ "*") (p +:+ rest) = true.
Proof.
  intros Hp. induction p as [|c p IH]; [apply glob_star|].
  apply plain_cons in Hp as [Hc Hp].
  change (glob (String c (p +:+ "*")) (String c (p +:+ rest)) = true).
  rewrite glob_literal by done.
  rewrite bool_decide_eq_true_2 by done. by apply IH.
Qed.

(** The pattern [createIntoDb] builds for the author selects the author's
    own listing. *)
Lemma glob_author (userId : string) :
  plain userId = true →
  glob ("blogs:user:" +:+ userId +:+ "*") (CacheKeys.myBlogs userId) = true.
Proof.
  intros Hp. unfold CacheKeys.myBlogs.
  rewrite <- (append_empty_r userId) at 2.
  simpl. exact (glob_prefix userId "" Hp).
Qed.

Lemma glob_author_trending (userId : string) :
  glob ("blogs:user:" +:+ userId +:+ "*") CacheKeys.trending = false.
Proof. reflexivity. Qed.

(** ** A new post and the listings *)

Lemma createIntoDb_up (w : World) (req : Request) (newId userId : string) :
  redis_up w = true → req_user req = Some userId → truthy userId = true →
  Prisma.lookup (BySlug (Some (body_slug req))) (db w) = None →
  let blog := Blog.mk newId (body_slug req) (body_title req) (body_description req)
                (default [] (body_tags req)) (default false (body_published req))
                false userId 0 0 (now w) (now w) in
  let w2 := set_redis (<[CacheKeys.blogSlug (body_slug req)
                         := mkEntry (RBlog blog) (Some (now w + CacheTTL.blog))]>)
              (set_redis (<[CacheKeys.blog newId
                            := mkEntry (RBlog blog) (Some (now w + CacheTTL.blog))]>)
                 (set_db (λ rows, rows ++ [blog])
                    (log_call (Create newId)
                       (log_call (FindUnique (BySlug (Some (body_slug req)))) w)))) in
  createIntoDb req newId w
  = (Ok blog,
     set_redis (λ m, foldr delete m
                  (matching "blogs:all:*" w2
                   ++ matching ("blogs:user:" +:+ userId +:+ "*") w2)) w2).
Proof.
  intros Hup Hu Ht Hfree blog w2.
  unfold createIntoDb. rewrite Hu, Ht. cbn [negb].
  step. rewrite Hfree. step.
  unfold bind at 1, Prisma.create. world.
  rewrite (slug_free_not_taken _ _ _ Hfree). cbv beta iota zeta.
  do 5 step. reflexivity.
Qed.

(** X12. A new post shows up in its author's listing at once, not in the
    trending list.  With Redis up, after a successful [createIntoDb] by a
    user whose identifier has no pattern character, the next [getMyBlog] of
    that user is answered from the store and contains the new post; the
    trending entry is left as it was, so a cached trending list is served
    unchanged until it expires. *)
Theorem create_refreshes_own_listing
    (w : World) (req : Request) (newId userId : string) :
  redis_up w = true → req_user req = Some userId → truthy userId = true →
  plain userId = true →
  Prisma.lookup (BySlug (Some (body_slug req))) (db w) = None →
  ∃ b w', createIntoDb req newId w = (Ok b, w')
    ∧ fst (getMyBlog userId w') = Ok (Listings.ofUser userId (db w'))
    ∧ b ∈ Listings.ofUser userId (db w')
    ∧ live w' CacheKeys.trending = live w CacheKeys.trending.
Proof.
  intros Hup Hu Ht Hplain Hfree.
  pose proof (createIntoDb_up w req newId userId Hup Hu Ht Hfree) as Hrun.
  cbv zeta in Hrun.
  set (blog := Blog.mk _ _ _ _ _ _ _ _ _ _ _ _) in *.
  set (w2 := set_redis (<[CacheKeys.blogSlug _ := _]>) _) in *.
  set (ks := matching _ w2 ++ matching _ w2) in *.
  exists blog, (set_redis (λ m, foldr delete m ks) w2).
  assert (Hdb : db (set_redis (λ m, foldr delete m ks) w2) = db w ++ [blog]) by done.
  split_and!.
  - done.
  - rewrite getMyBlog_miss; [done|done|].
    rewrite live_del.
    destruct (decide (CacheKeys.myBlogs userId ∈ ks)) as [|Hk]; [done|].
    destruct (live w2 (CacheKeys.myBlogs userId)) as [v|] eqn:Hl; [|done].
    exfalso. apply Hk. subst ks. apply elem_of_app. right.
    apply elem_of_matching. split; [by apply glob_author|by rewrite Hl].
  - rewrite Hdb. apply elem_of_ofUser. split_and!; try done.
    apply elem_of_app. right. left.
  - rewrite live_del.
    rewrite decide_False.
    + subst w2. rewrite !live_insert_new by done.
      rewrite decide_False by apply blogSlug_ne_trending.
      rewrite decide_False by apply blog_ne_trending.
      by autorewrite with world.
    + subst ks. rewrite elem_of_app, !elem_of_matching.
      intros [[Hg _]|[Hg _]]; [|by rewrite glob_author_trending in Hg].
      apply glob_all_iff in Hg as [rest Hg]. discriminate Hg.
Qed.

(** User [u2] writes a first post in [sample_world]. *)
Lemma create_refreshes_own_listing_witness :
  ∃ b w', createIntoDb second_request "75a1d3b2" sample_world = (Ok b, w')
    ∧ fst (getMyBlog "u2" w') = Ok (Listings.ofUser "u2" (db w'))
    ∧ b ∈ Listings.ofUser "u2" (db w').
Proof.
  destruct (create_refreshes_own_listing sample_world second_request "75a1d3b2" "u2")
    as (b & w' & H1 & H2 & H3 & _).
  - reflexivity.
  - reflexivity.
  - reflexivity.
  - reflexivity.
  - reflexivity.
  - exists b, w'. split; [exact H1|]. split; [exact H2|exact H3].
Defined.


(** ** Mutations and the tag search *)

Lemma search_key_not_touched (m : Mutation) (tags : list string) :
  CacheKeys.blog (target m) ≠ search_key tags → ¬ touched m (search_key tags).
Proof.
  intros Hne [H|[[s H]|[H|[[rest H]|[[rest H]|[[u H]|H]]]]]]; try done;
    unfold search_key in H; simpl in H; discriminate H.
Qed.

(** X13. No mutation invalidates a tag search.  An update, delete, soft
    delete, like or unlike leaves every entry of the tag search as it is,
    in any state of Redis and whatever its outcome; a search whose result
    is cached is therefore answered with the rows cached before the
    mutation, changed or deleted posts included, until the entry expires.
    (The identifier of the post must not make its primary key coincide
    with the search key.) *)
Theorem search_entries_survive_mutations (m : Mutation) (w : World) (tags : list string) :
  CacheKeys.blog (target m) ≠ search_key tags →
  redis (snd (run_mutation m w)) !! search_key tags = redis w !! search_key tags
  ∧ ∀ l r, redis_up w = true → heap w !! l = Some tags →
      live w (search_key tags) = Some (RBlogs r) →
      fst (searchByTags l (snd (run_mutation m w))) = Ok r.
Proof.
  intros Hne.
  destruct (run_mutation_effect m w) as [_ Hup Hnow Hheap Hfr].
  set (w' := snd (run_mutation m w)) in *.
  assert (Hkey : redis w' !! search_key tags = redis w !! search_key tags)
    by (by apply Hfr, search_key_not_touched).
  split; [done|].
  intros l r Hup0 Hl Hhit.
  rewrite (searchByTags_unfold w' l tags) by (by rewrite Hheap).
  rewrite search_sorted_heap. simpl.
  rewrite (search_sorted_hit (sort tags) w' r); [done|congruence|].
  rewrite <- search_key_sorted. unfold live in *. by rewrite Hkey, Hnow.
Qed.

(** The post of [searched_world] is soft-deleted; the search for its tag
    still returns it. *)
Lemma search_entries_survive_mutations_witness :
  fst (searchByTags 0%nat (snd (run_mutation (MSoftDelete "64f0c2a1") searched_world)))
  = Ok [sample_post].
Proof.
  destruct (search_entries_survive_mutations (MSoftDelete "64f0c2a1") searched_world
              ["intro"]) as [_ H].
  - discriminate.
  - apply H; reflexivity.
Defined.


(** ** The key of a tag query *)

Lemma split_nonempty (s : string) : split "," s ≠ [].
Proof.
  destruct s as [|c s]; [done|]. simpl.
  destruct (bool_decide (c = ","%char)); [done|].
  by destruct (split "," s).
Qed.

Lemma split_single_empty (s : string) : split "," s = [""] → s = "".
Proof.
  destruct s as [|c s]; [done|]. simpl. intros H. exfalso.
  destruct (bool_decide (c = ","%char)).
  - injection H as H. by apply split_nonempty in H.
  - destruct (split "," s); discriminate H.
Qed.

Lemma split_comma_free (s : string) : Forall comma_free (split "," s).
Proof.
  induction s as [|c s IH]; [by repeat constructor|].
  simpl. destruct (bool_decide (c = ","%char)) eqn:Hc.
  - by constructor.
  - apply bool_decide_eq_false in Hc.
    destruct (split "," s) as [|piece pieces]; [by repeat constructor|].
    apply Forall_cons in IH as [Hp Hps]. by constructor.
Qed.

(** What follows the first element in a joined list: nothing, or a comma
    and the rest. *)
Lemma join_cons (x : string) (l : list string) :
  join "," (x :: l) = x +:+ match l with [] => "" | _ => "," +:+ join "," l end.
Proof.
  unfold join. destruct l as [|y l]; simpl; [symmetry; apply append_empty_r|done].
Qed.

Lemma comma_free_head (x y t1 t2 : string) :
  comma_free x → comma_free y →
  (t1 = "" ∨ ∃ r, t1 = String "," r) → (t2 = "" ∨ ∃ r, t2 = String "," r) →
  x +:+ t1 = y +:+ t2 → x = y ∧ t1 = t2.
Proof.
  revert y. induction x as [|c x IH]; intros y Hx Hy H1 H2 Heq.
  - destruct y as [|c y]; [done|]. simpl in Heq. destruct Hy as [Hc _].
    destruct H1 as [->|[r ->]]; [discriminate Heq|]. injection Heq as <- _. done.
  - destruct y as [|c' y]; simpl in Heq.
    + destruct Hx as [Hc _].
      destruct H2 as [->|[r ->]]; [discriminate Heq|]. injection Heq as -> _. done.
    + injection Heq as -> Heq. destruct Hx as [_ Hx], Hy as [_ Hy].
      destruct (IH y Hx Hy H1 H2 Heq) as [-> ->]. done.
Qed.

Lemma join_inj (l1 l2 : list string) :
  Forall comma_free l1 → Forall comma_free l2 → l1 ≠ [] → l2 ≠ [] →
  join "," l1 = join "," l2 → l1 = l2.
Proof.
  revert l2. induction l1 as [|x l1 IH]; intros l2 H1 H2 Hn1 Hn2 Heq; [done|].
  destruct l2 as [|y l2]; [done|].
  apply Forall_cons in H1 as [Hx H1]. apply Forall_cons in H2 as [Hy H2].
  rewrite !join_cons in Heq.
  apply comma_free_head in Heq as [-> Ht]; try done.
  - f_equal. destruct l1 as [|x1 l1], l2 as [|y1 l2]; try done.
    apply IH; try done. simpl in Ht. by injection Ht.
  - destruct l1; [by left|right; by eexists].
  - destruct l2; [by left|right; by eexists].
Qed.

Lemma Forall_sort (P : string → Prop) (tags : list string) :
  Forall P tags → Forall P (sort tags).
Proof. intros H. by rewrite sort_permutation. Qed.

Lemma sort_nonempty (tags : list string) : tags ≠ [] → sort tags ≠ [].
Proof.
  intros Hn Hs. pose proof (Permutation_length (sort_permutation tags)) as Hl.
  rewrite Hs in Hl. by destruct tags.
Qed.

(** Two lists of comma-free tags, neither empty, that get the same key are
    permutations of each other. *)
Lemma search_key_inj (t1 t2 : list string) :
  Forall comma_free t1 → Forall comma_free t2 → t1 ≠ [] → t2 ≠ [] →
  search_key t1 = search_key t2 → t1 ≡ₚ t2.
Proof.
  intros H1 H2 Hn1 Hn2 Heq. unfold search_key in Heq. simpl in Heq.
  injection Heq as Heq.
  apply join_inj in Heq; [|by apply Forall_sort|by apply Forall_sort
                           |by apply sort_nonempty|by apply sort_nonempty].
  by rewrite <- (sort_permutation t1), Heq, sort_permutation.
Qed.

Lemma tags_cases (q : option string) :
  q = None ∧ BlogController.tags q = []
  ∨ BlogController.tags q ≠ [] ∧ Forall comma_free (BlogController.tags q).
Proof.
  destruct q as [s|]; [right|by left]. simpl.
  split; [apply split_nonempty|apply split_comma_free].
Qed.

Lemma search_key_empty (t : list string) :
  Forall comma_free t → t ≠ [] → search_key [] = search_key t → t = [""].
Proof.
  intros Hf Hn Heq. unfold search_key in Heq. simpl in Heq. injection Heq as Heq.
  assert (Hs : sort t = [""]).
  { pose proof (sort_nonempty t Hn) as Hsn. pose proof (Forall_sort _ _ Hf) as Hsf.
    destruct (sort t) as [|x l]; [done|].
    change (join "," [] = join "," (x :: l)) in Heq. rewrite join_cons in Heq.
    change (join "," []) with "" in Heq.
    destruct x as [|c x]; [|discriminate Heq].
    destruct l as [|y l]; [done|discriminate Heq]. }
  pose proof (sort_permutation t) as Hp. rewrite Hs in Hp.
  by apply Permutation_singleton_l in Hp.
Qed.

Lemma controller_search_unfold (q : option string) (w : World) :
  BlogController.searchByTags q w
  = searchByTags (base.fresh (dom (heap w)))
      (set_heap (<[base.fresh (dom (heap w)) := BlogController.tags q]>) w).
Proof. reflexivity. Qed.

(** X14. The key of a tag query identifies the tags searched for.  Two
    requests of the tag search get the same cache key exactly when their
    comma-separated tags are the same up to order, with one exception: a
    request without the [tags] parameter (no tag at all) and a request with
    an empty one (the single empty tag) share a key.  The handler gives the
    service a new array, and a search that misses writes the entry of its
    own key and no other. *)
Theorem tag_query_key (q1 q2 : option string) :
  (search_key (BlogController.tags q1) = search_key (BlogController.tags q2)
   ↔ BlogController.tags q1 ≡ₚ BlogController.tags q2
     ∨ (q1 = None ∧ q2 = Some "") ∨ (q1 = Some "" ∧ q2 = None))
  ∧ ∀ w k, k ≠ search_key (BlogController.tags q1) →
      redis (snd (BlogController.searchByTags q1 w)) !! k = redis w !! k.
Proof.
  split.
  - split.
    + intros Heq.
      destruct (tags_cases q1) as [[-> H1]|[Hn1 Hf1]],
               (tags_cases q2) as [[-> H2]|[Hn2 Hf2]].
      * by left.
      * simpl in Heq. apply search_key_empty in Heq; [|done..].
        right. left. split; [done|].
        destruct q2 as [s|]; [|done]. simpl in Heq.
        by apply split_single_empty in Heq as ->.
      * simpl in Heq. symmetry in Heq. apply search_key_empty in Heq; [|done..].
        right. right. split; [|done].
        destruct q1 as [s|]; [|done]. simpl in Heq.
        by apply split_single_empty in Heq as ->.
      * left. by apply search_key_inj.
    + intros [Hp|[[-> ->]|[-> ->]]]; [|done..].
      by rewrite !search_key_sorted, (sort_of_permutation _ _ Hp).
  - intros w k Hk. rewrite controller_search_unfold.
    set (ref := base.fresh (dom (heap w))).
    set (w0 := set_heap (<[ref := BlogController.tags q1]>) w).
    rewrite (searchByTags_unfold w0 ref (BlogController.tags q1))
      by (subst w0; autorewrite with world; by rewrite lookup_insert_eq).
    rewrite search_sorted_heap. simpl.
    rewrite search_sorted_outcome. unfold search_outcome. cbv zeta.
    rewrite <- search_key_sorted.
    subst w0. autorewrite with world.
    destruct (redis_up w); [|done].
    destruct (live _ _) as [[z|b|bs]|]; try done.
    simpl. autorewrite with world. by rewrite lookup_insert_ne.
Qed.


(** ** The earlier revision while Redis is down *)

(** X15. In the revision that calls Redis directly an outage of Redis
    reaches the caller.  With Redis down, [likeBlog] fails with the Redis
    error before anything is written.  [createIntoDb] fails with the Redis
    error as well, but only after the row has been inserted: the post
    exists although the call failed, and the same request sent again fails
    with [Conflict]. *)
Theorem legacy_outage_reaches_caller (w : World) :
  redis_up w = false →
  (∀ blogId userId, LegacyWrites.likeBlog blogId userId w = (Err RedisError, w))
  ∧ (∀ req userId newId newId',
       req_user req = Some userId → truthy userId = true →
       Prisma.lookup (BySlug (Some (body_slug req))) (db w) = None →
       ∃ b w', LegacyWrites.createIntoDb req newId w = (Err RedisError, w')
         ∧ db w' = db w ++ [b]
         ∧ Blog.id b = newId ∧ Blog.slug b = body_slug req
         ∧ fst (LegacyWrites.createIntoDb req newId' w') = Err Conflict).
Proof.
  intros Hdown. split.
  - intros blogId userId. unfold LegacyWrites.likeBlog. cbv zeta.
    erewrite bind_err; [reflexivity|]. unfold Redis.get. by apply redis_cmd_down.
  - intros req userId newId newId' Hu Ht Hfree.
    set (b := Blog.mk newId (body_slug req) (body_title req) (body_description req)
                (default [] (body_tags req)) (default false (body_published req))
                false userId 0 0 (now w) (now w)).
    set (w' := set_db (λ rows, rows ++ [b])
                 (log_call (Create newId)
                    (log_call (FindUnique (BySlug (Some (body_slug req)))) w))).
    exists b, w'. split_and!; try done.
    + unfold LegacyWrites.createIntoDb. rewrite Hu, Ht. cbn [negb].
      erewrite bind_ok by apply findUnique_eq. cbv beta. rewrite Hfree.
      erewrite bind_ok by apply gets_eq. cbv beta.
      unfold bind at 1, Prisma.create. autorewrite with world.
      rewrite (slug_free_not_taken _ _ _ Hfree). cbv beta iota zeta.
      fold b. fold w'.
      erewrite bind_err; [reflexivity|]. unfold Redis.setex. by apply redis_cmd_down.
    + unfold LegacyWrites.createIntoDb. rewrite Hu, Ht. cbn [negb].
      erewrite bind_ok by apply findUnique_eq. cbv beta.
      subst w'. autorewrite with world.
      rewrite (lookup_app_none _ _ _ Hfree). simpl.
      by rewrite bool_decide_eq_true_2.
Qed.

(** User [u2] likes the post of [degraded_world]. *)
Lemma legacy_outage_reaches_caller_witness :
  LegacyWrites.likeBlog "64f0c2a1" "u2" degraded_world = (Err RedisError, degraded_world).
Proof.
  destruct (legacy_outage_reaches_caller degraded_world) as [H _].
  - reflexivity.
  - apply H.
Defined.


(** ** View counts reported by reads by slug *)

Lemma live_no_expiry (w : World) (k : string) (v : RVal) :
  redis w !! k = Some (mkEntry v None) → live w k = Some v.
Proof. intros He. unfold live. by rewrite He. Qed.

Lemma counted_count (w : World) (k : string) (c : nat) :
  counted w k c → count w k = Z.of_nat c ∧ expiry_of w k = None
  ∧ (Z.of_nat c < max_safe_integer → counter_ok w k).
Proof.
  unfold counted, count, expiry_of, counter_ok, live.
  intros [ [-> ->] | -> ]; [done|]. simpl. split_and!; try done. lia.
Qed.

Lemma reads_by_slug_from (slug : string) (b : Blog.t) (t : Z) (gaps : list Z) :
  Blog.id b ≠ "slug:" +:+ slug →
  ∀ (c : nat) (w : World) (b0 : Blog.t),
    redis_up w = true →
    redis w !! CacheKeys.blogSlug slug = Some (mkEntry (RBlog b) (Some t)) →
    counted w (CacheKeys.views (Blog.id b)) c →
    Prisma.lookup (ById (Blog.id b)) (db w) = Some b0 →
    Forall (λ d, 0 ≤ d) gaps → now w + foldr Z.add 0 gaps < t →
    Z.of_nat c + Z.of_nat (length gaps) < max_safe_integer →
    fst (reads_by_slug slug gaps w)
    = Ok (imap (λ k _, with_views b (Blog.views b + (Z.of_nat c + Z.of_nat (S k)))) gaps).
Proof.
  intros Hne. induction gaps as [|d gaps IH]; intros c w b0 Hup Hslug Hcnt Hrow Hpos Hsum Hmax;
    [done|].
  apply Forall_cons in Hpos as [Hd Hpos].
  assert (Hrest : 0 ≤ foldr Z.add 0 gaps).
  { clear -Hpos. induction Hpos; simpl; lia. }
  simpl in Hsum, Hmax.
  set (vk := CacheKeys.views (Blog.id b)) in *.
  set (w1 := tick d w).
  assert (Hcnt1 : counted w1 vk c) by exact Hcnt.
  destruct (counted_count w1 vk c Hcnt1) as (Hcount & Hexp & Hok).
  assert (Hlive : live w1 (CacheKeys.blogSlug slug) = Some (RBlog b)).
  { subst w1. rewrite (live_entry_tick _ _ _ _ _ Hslug).
    by replace (now w + d <? t) with true by (symmetry; apply Z.ltb_lt; lia). }
  simpl reads_by_slug.
  erewrite bind_ok by apply modify_eq. cbv beta. fold w1.
  erewrite bind_ok.
  2:{ apply (getBlogBySlug_hit w1 slug b b0); [done|done|done|]. apply Hok. lia. }
  cbv beta. fold vk. rewrite Hcount.
  set (w2 := views_step (Blog.id b) w1).
  assert (Hslug2 : redis w2 !! CacheKeys.blogSlug slug = Some (mkEntry (RBlog b) (Some t))).
  { subst w2. rewrite redis_views_step.
    rewrite decide_False by (intros H; symmetry in H; by apply blog_eq_blogSlug in H).
    rewrite decide_False by (intros H; symmetry in H; by apply views_ne_blogSlug in H).
    done. }
  assert (Hcnt2 : counted w2 vk (S c)).
  { right. subst w2. rewrite redis_views_step.
    rewrite decide_False by (intros H; symmetry in H; by apply blog_ne_views in H).
    rewrite decide_True by done. fold vk. rewrite Hcount, Hexp.
    do 3 f_equal. lia. }
  assert (Hrow2 : ∃ b2, Prisma.lookup (ById (Blog.id b)) (db w2) = Some b2).
  { subst w2. erewrite lookup_views_step_some by exact Hrow. by eexists. }
  destruct Hrow2 as [b2 Hrow2].
  assert (Hnow2 : now w2 = now w + d) by (subst w2 w1; by autorewrite with world).
  assert (IH' : fst (reads_by_slug slug gaps w2)
                = Ok (imap (λ k _, with_views b
                              (Blog.views b + (Z.of_nat (S c) + Z.of_nat (S k)))) gaps)).
  { apply (IH (S c) w2 b2); try done.
    - subst w2 w1. by autorewrite with world.
    - lia.
    - lia. }
  unfold bind at 1. destruct (reads_by_slug slug gaps w2) as [[bs|e] w3]; [|done].
  simpl in IH'. injection IH' as ->. unfold ret. cbn [fst].
  rewrite imap_cons. f_equal. f_equal.
  apply imap_ext. intros k x _. simpl. f_equal. lia.
Qed.

(** X16. Reads by slug count the views exactly while the snapshot lasts.
    When the snapshot of a post is cached under its slug and no view of the
    post has been counted yet, the k-th of any number of reads by slug made
    before the snapshot expires returns the post with a view count k above
    the one in the snapshot; it is served from the cache, the flush to the
    store every tenth view included. *)
Theorem reads_by_slug_count
    (w : World) (slug : string) (b b0 : Blog.t) (t : Z) (gaps : list Z) :
  redis_up w = true →
  redis w !! CacheKeys.blogSlug slug = Some (mkEntry (RBlog b) (Some t)) →
  redis w !! CacheKeys.views (Blog.id b) = None →
  Prisma.lookup (ById (Blog.id b)) (db w) = Some b0 →
  Blog.id b ≠ "slug:" +:+ slug →
  Forall (λ d, 0 ≤ d) gaps → now w + foldr Z.add 0 gaps < t →
  Z.of_nat (length gaps) < max_safe_integer →
  fst (reads_by_slug slug gaps w)
  = Ok (imap (λ k _, with_views b (Blog.views b + Z.of_nat (S k))) gaps).
Proof.
  intros Hup Hslug Hcnt Hrow Hne Hpos Hsum Hmax.
  exact (reads_by_slug_from slug b t gaps Hne 0 w b0 Hup Hslug
           (or_introl (conj eq_refl Hcnt)) Hrow Hpos Hsum Hmax).
Qed.

(** The post created in [created_world], read by slug three times, ten
    seconds apart. *)
Lemma reads_by_slug_count_witness :
  fst (reads_by_slug "caching" [10; 10; 10] created_world)
  = Ok (imap (λ k _, with_views second_post (Blog.views second_post + Z.of_nat (S k)))
          [10; 10; 10]).
Proof.
  apply (reads_by_slug_count created_world "caching" second_post second_post 4600).
  - reflexivity.
  - vm_compute. reflexivity.
  - reflexivity.
  - vm_compute. reflexivity.
  - discriminate.
  - repeat constructor; lia.
  - vm_compute. reflexivity.
  - vm_compute. reflexivity.
Defined.


(** ** The rest of the service while Redis is down *)

Lemma getMyBlog_down (w : World) (userId : string) :
  redis_up w = false → getMyBlog userId w = (Ok (Listings.ofUser userId (db w)), w).
Proof. intros Hdown. unfold getMyBlog. by do 3 run. Qed.

Lemma getTrendingBlogs_down (w : World) (limit : option Z) :
  redis_up w = false →
  getTrendingBlogs limit w = (Ok (Listings.trending (default 10 limit) (db w)), w).
Proof. intros Hdown. unfold getTrendingBlogs. by do 3 run. Qed.

(** X17. Cache-degraded mode covers the rest of the service.  With Redis
    failing on every command, [updateIntoDb], [softDeleteIntoDb] and
    [deleteIntoDb] of a post that is in the store and not soft-deleted
    succeed and change the collection as they do with Redis up, and
    [getMyBlog], [getTrendingBlogs] and the tag search are answered from
    the collection; the cache is left as it is. *)
Theorem degraded_mode_other_calls (w : World) (id : string) (b : Blog.t) :
  redis_up w = false →
  Prisma.lookup (ById id) (db w) = Some b → Blog.isDeleted b = false →
  (∀ data, p_slug data = None →
     ∃ w', updateIntoDb id data w = (Ok (apply_patch (stamped data (now w)) b), w')
       ∧ db w' = Prisma.replace_row id (stamped data (now w)) (db w)
       ∧ redis w' = redis w)
  ∧ (∃ w', softDeleteIntoDb id w = (Ok "Blog soft deleted successfully", w')
       ∧ db w' = Prisma.replace_row id (soft_delete (now w)) (db w)
       ∧ redis w' = redis w)
  ∧ (∃ w', deleteIntoDb id w = (Ok "Blog deleted successfully", w')
       ∧ db w' = filter (λ r, Blog.id r ≠ id) (db w)
       ∧ redis w' = redis w)
  ∧ (∀ userId, getMyBlog userId w = (Ok (Listings.ofUser userId (db w)), w))
  ∧ (∀ limit, getTrendingBlogs limit w
              = (Ok (Listings.trending (default 10 limit) (db w)), w))
  ∧ (∀ l tags, heap w !! l = Some tags →
       fst (searchByTags l w) = Ok (found (sort tags) w)).
Proof.
  intros Hdown Hb Hdel. split_and!.
  - intros data Hslug. eexists. unfold updateIntoDb.
    run. rewrite Hb, Hdel, Hslug. rewrite bind_ret.
    run.
    erewrite bind_ok by (apply (update_ok _ _ _ b); [by autorewrite with world|done]).
    cbv beta.
    do 2 run.
    assert (Hs : Blog.slug (apply_patch (stamped data (now w)) b) = Blog.slug b)
      by (simpl; by rewrite Hslug).
    rewrite Hs, bool_decide_eq_true_2 by done. simpl negb. cbv match.
    rewrite bind_ret. unfold ret. split; [reflexivity|]. by autorewrite with world.
  - eexists. unfold softDeleteIntoDb.
    run. rewrite Hb, Hdel. run.
    erewrite bind_ok by (apply (update_ok _ _ _ b); [by autorewrite with world|done]).
    cbv beta. run. unfold ret. split; [reflexivity|]. by autorewrite with world.
  - eexists. unfold deleteIntoDb.
    run. rewrite Hb. do 2 run. unfold ret. split; [reflexivity|].
    by autorewrite with world.
  - intros userId. by apply getMyBlog_down.
  - intros limit. by apply getTrendingBlogs_down.
  - intros l tags Hl. rewrite (searchByTags_unfold _ _ _ Hl), search_sorted_heap.
    simpl. rewrite search_sorted_outcome. unfold search_outcome. cbv zeta.
    by rewrite Hdown.
Qed.

(** The post of [degraded_world] is soft-deleted. *)
Lemma degraded_mode_other_calls_witness :
  ∃ w', softDeleteIntoDb "64f0c2a1" degraded_world
        = (Ok "Blog soft deleted successfully", w')
    ∧ db w' = Prisma.replace_row "64f0c2a1" (soft_delete (now degraded_world))
                (db degraded_world)
    ∧ redis w' = redis degraded_world.
Proof.
  destruct (degraded_mode_other_calls degraded_world "64f0c2a1" sample_post)
    as (_ & H & _).
  - reflexivity.
  - reflexivity.
  - reflexivity.
  - exact H.
Defined.

Lemma likeBlog_down (w : World) (blogId userId : string) (b : Blog.t) :
  redis_up w = false → Prisma.lookup (ById blogId) (db w) = Some b →
  likeBlog blogId userId w
  = (Ok "Blog liked successfully",
     set_db (Prisma.replace_row blogId (likes_by (NIncrement 1)))
       (log_call (Update blogId (likes_by (NIncrement 1))) w)).
Proof.
  intros Hdown Hb. unfold likeBlog, Redis.incr. by do 5 step.
Qed.

(** X18. While Redis is down a like is not remembered.  The marker can be
    neither read nor written, so every [likeBlog] of a post in the store
    succeeds: [n] calls of the same user raise the persisted like count by
    [n]. *)
Theorem degraded_likes_repeat (n : nat) (w : World) (blogId userId : string) (b : Blog.t) :
  redis_up w = false →
  Prisma.lookup (ById blogId) (db w) = Some b →
  let '(rs, w') := repeat_likes n blogId userId w in
  rs = replicate n (Ok "Blog liked successfully")
  ∧ likes_of w' blogId = Blog.likes b + Z.of_nat n.
Proof.
  revert w b. induction n as [|n IH]; intros w b Hdown Hb.
  - simpl. unfold likes_of. rewrite Hb. split; [done|lia].
  - simpl. rewrite (likeBlog_down w blogId userId b Hdown Hb).
    set (w1 := set_db _ _).
    assert (Hb1 : Prisma.lookup (ById blogId) (db w1)
                  = Some (patched blogId (likes_by (NIncrement 1)) b)).
    { subst w1. autorewrite with world. by rewrite lookup_replace_row_by_id, Hb. }
    specialize (IH w1 _ ltac:(done) Hb1).
    destruct (repeat_likes n blogId userId w1) as [rs w2].
    destruct IH as [-> Hlikes]. split; [done|].
    rewrite Hlikes. unfold patched.
    rewrite bool_decide_eq_true_2 by (by apply lookup_by_id_id in Hb).
    simpl. lia.
Qed.

(** User [u2] likes the post of [degraded_world] three times. *)
Lemma degraded_likes_repeat_witness :
  let '(rs, w') := repeat_likes 3 "64f0c2a1" "u2" degraded_world in
  rs = replicate 3 (Ok "Blog liked successfully")
  ∧ likes_of w' "64f0c2a1" = Blog.likes sample_post + Z.of_nat 3.
Proof.
  apply (degraded_likes_repeat 3 degraded_world "64f0c2a1" "u2" sample_post).
  - reflexivity.
  - reflexivity.
Defined.


(** ** Outcomes of [updateIntoDb] *)

(** What [updateIntoDb] does once the checks have passed. *)
Lemma update_tail (id : string) (data : Patch) (b : Blog.t) (w wc : World) :
  db wc = db w → redis wc = redis w → now wc = now w →
  Prisma.lookup (ById id) (db w) = Some b →
  ∃ r w',
    (let* t := gets now in
     let* updatedBlog := Prisma.update id (stamped data t) in
     let* _ := invalidateBlogCache id (Some (Blog.slug b)) in
     let* _ := safeRedisSet (CacheKeys.blog id) CacheTTL.blog (RBlog updatedBlog) in
     let* _ :=
       if negb (bool_decide (Blog.slug updatedBlog = Blog.slug b))
       then safeRedisSet (CacheKeys.blogSlug (Blog.slug updatedBlog)) CacheTTL.blog
              (RBlog updatedBlog)
       else ret tt in
     ret updatedBlog) wc = (r, w')
    ∧ match r with
      | Ok u => u = apply_patch (stamped data (now w)) b
                ∧ db w' = Prisma.replace_row id (stamped data (now w)) (db w)
                ∧ (∀ s, p_slug data = Some s → Prisma.slug_taken s id (db w) = false)
      | Err e => e = PrismaUnique ∧ db w' = db w ∧ redis w' = redis w
                 ∧ ∃ s, p_slug data = Some s ∧ Prisma.slug_taken s id (db w) = true
      end.
Proof.
  intros Hdb Hredis Hnow Hb.
  erewrite bind_ok by apply gets_eq. cbv beta. rewrite Hnow.
  unfold bind at 1, Prisma.update. rewrite Hdb, Hb. simpl p_slug.
  destruct (p_slug data) as [s|] eqn:Hs.
  - destruct (Prisma.slug_taken s id (db w)) eqn:Htaken.
    + do 2 eexists. split; [reflexivity|]. autorewrite with world. split_and!; eauto.
    + match goal with |- context [bind (invalidateBlogCache _ ?sl) _ ?w0] =>
        destruct (invalidateBlogCache_total id sl w0) as (w1 & Hinv & (Hdb1 & _) & _)
      end.
      erewrite bind_ok by exact Hinv. cbv beta.
      match goal with |- context [bind (safeRedisSet ?k ?t ?v) _ w1] =>
        destruct (safeRedisSet_total k t v w1) as (w2 & Hset & (Hdb2 & _) & _)
      end.
      erewrite bind_ok by exact Hset. cbv beta.
      autorewrite with world in Hdb1.
      destruct (negb _).
      * match goal with |- context [bind (safeRedisSet ?k ?t ?v) _ w2] =>
          destruct (safeRedisSet_total k t v w2) as (w3 & Hset3 & (Hdb3 & _) & _)
        end.
        erewrite bind_ok by exact Hset3. cbv beta.
        do 2 eexists. split; [reflexivity|]. split; [done|].
        split; [congruence|]. intros s' Hs'. congruence.
      * rewrite bind_ret. do 2 eexists. split; [reflexivity|]. split; [done|].
        split; [congruence|]. intros s' Hs'. congruence.
  - match goal with |- context [bind (invalidateBlogCache _ ?sl) _ ?w0] =>
      destruct (invalidateBlogCache_total id sl w0) as (w1 & Hinv & (Hdb1 & _) & _)
    end.
    erewrite bind_ok by exact Hinv. cbv beta.
    match goal with |- context [bind (safeRedisSet ?k ?t ?v) _ w1] =>
      destruct (safeRedisSet_total k t v w1) as (w2 & Hset & (Hdb2 & _) & _)
    end.
    erewrite bind_ok by exact Hset. cbv beta.
    autorewrite with world in Hdb1.
    destruct (negb _).
    + match goal with |- context [bind (safeRedisSet ?k ?t ?v) _ w2] =>
        destruct (safeRedisSet_total k t v w2) as (w3 & Hset3 & (Hdb3 & _) & _)
      end.
      erewrite bind_ok by exact Hset3. cbv beta.
      do 2 eexists. split; [reflexivity|]. split; [done|].
      split; [congruence|]. intros s' Hs'. congruence.
    + rewrite bind_ret. do 2 eexists. split; [reflexivity|]. split; [done|].
      split; [congruence|]. intros s' Hs'. congruence.
Qed.

(** Every outcome of [updateIntoDb] with what led to it. *)
Lemma updateIntoDb_cases (id : string) (data : Patch) (w : World) :
  match updateIntoDb id data w with
  | (Ok u, w') =>
      ∃ b, Prisma.lookup (ById id) (db w) = Some b ∧ Blog.isDeleted b = false
        ∧ u = apply_patch (stamped data (now w)) b
        ∧ db w' = Prisma.replace_row id (stamped data (now w)) (db w)
        ∧ (∀ s, p_slug data = Some s →
             Prisma.slug_taken s id (db w) = false
             ∧ (s = "" ∨ s = Blog.slug b
                ∨ Prisma.lookup (BySlug (Some s)) (db w) = None))
  | (Err e, w') =>
      db w' = db w ∧ redis w' = redis w
      ∧ ((e = NotFound
          ∧ ∀ b, Prisma.lookup (ById id) (db w) = Some b → Blog.isDeleted b = true)
         ∨ (e = Conflict
            ∧ ∃ s b, p_slug data = Some s ∧ s ≠ ""
                ∧ Prisma.lookup (ById id) (db w) = Some b
                ∧ Blog.isDeleted b = false ∧ s ≠ Blog.slug b
                ∧ is_Some (Prisma.lookup (BySlug (Some s)) (db w)))
         ∨ (e = PrismaUnique
            ∧ ∃ s b, p_slug data = Some s
                ∧ Prisma.lookup (ById id) (db w) = Some b
                ∧ Blog.isDeleted b = false
                ∧ (s = "" ∨ s = Blog.slug b)
                ∧ Prisma.slug_taken s id (db w) = true))
  end.
Proof.
  pattern (updateIntoDb id data w).
  match goal with |- ?P _ => set (post := P) end.
  unfold updateIntoDb.
  erewrite bind_ok by apply findUnique_eq. cbv beta.
  destruct (Prisma.lookup (ById id) (db w)) as [b|] eqn:Hb.
  2:{ subst post. simpl. autorewrite with world. rewrite ?Hb.
      split_and!; try done. left. by split. }
  destruct (Blog.isDeleted b) eqn:Hdel.
  { subst post. simpl. autorewrite with world. rewrite ?Hb.
    split_and!; try done. left. split; [done|]. by intros b' [= <-]. }
  match goal with |- context [bind _ ?K _] => set (tail := K) end.
  assert (Htail : ∀ wc, db wc = db w → redis wc = redis w → now wc = now w →
            (∀ s, p_slug data = Some s → s = "" ∨ s = Blog.slug b
                  ∨ Prisma.lookup (BySlug (Some s)) (db w) = None) →
            post (tail tt wc)).
  { intros wc Hdbc Hredisc Hnowc Hchecked. subst tail. cbv beta.
    destruct (update_tail id data b w wc Hdbc Hredisc Hnowc Hb) as (r & w' & -> & Hr).
    subst post. cbv beta iota. rewrite ?Hb.
    destruct r as [u|e].
    - destruct Hr as (-> & Hdb & Hfree). exists b. split_and!; try done.
      intros s Hs. split; [by apply Hfree|by apply Hchecked].
    - destruct Hr as (-> & Hdb & Hredis & s & Hs & Htaken).
      split_and!; try done. right. right. split; [done|].
      exists s, b. split_and!; try done.
      destruct (Hchecked s Hs) as [?|[?|Hfree]]; auto.
      by rewrite (slug_free_not_taken _ _ _ Hfree) in Htaken. }
  destruct (p_slug data) as [s|] eqn:Hs.
  2:{ change (post (tail tt (log_call (FindUnique (ById id)) w))); apply Htail; by autorewrite with world. }
  destruct (truthy s) eqn:Ht; simpl andb.
  2:{ change (post (tail tt (log_call (FindUnique (ById id)) w))); apply Htail; try by autorewrite with world.
      intros s' [= <-]. left. unfold truthy in Ht.
      apply negb_false_iff, bool_decide_eq_true in Ht. done. }
  destruct (bool_decide (s = Blog.slug b)) eqn:Hsame; simpl negb; cbv match.
  { change (post (tail tt (log_call (FindUnique (ById id)) w))); apply Htail; try by autorewrite with world.
    intros s' [= <-]. right. left. by apply bool_decide_eq_true in Hsame. }
  rewrite bind_assoc. erewrite bind_ok by apply findUnique_eq. cbv beta.
  autorewrite with world.
  destruct (Prisma.lookup (BySlug (Some s)) (db w)) as [b1|] eqn:Hfree.
  { subst post. simpl. autorewrite with world. rewrite ?Hb, ?Hfree.
    split_and!; try done. right. left.
    split; [done|]. exists s, b. split_and!; try done.
    - unfold truthy in Ht. apply negb_true_iff, bool_decide_eq_false in Ht. done.
    - by apply bool_decide_eq_false in Hsame. }
  change (post (tail tt (log_call (FindUnique (BySlug (Some s)))
                           (log_call (FindUnique (ById id)) w))));
    apply Htail; try by autorewrite with world.
  intros s' [= <-]. by do 2 right.
Qed.

(** X19. The outcomes of [updateIntoDb], in any state of Redis.  It fails
    with [NotFound] when no row has the identifier or the row is
    soft-deleted.  On a row that is there and not soft-deleted it fails with
    [Conflict] when [data] carries a non-empty slug other than the post's
    own that some row, soft-deleted ones included, already has; it fails
    with the unique-constraint error of the store when [data] carries the
    empty slug or the post's own and another row has that slug, which the
    check of the service lets through; and it succeeds when [data] carries
    no slug, a slug that no row has, or the post's own while no other row
    has it: the row it returns and stores is the old row with the fields of
    [data] written over it and [updatedAt] set to the time of the call,
    whatever [data] says about [updatedAt].  Every failure leaves the
    collection and the cache unchanged. *)
Theorem updateIntoDb_outcomes (id : string) (data : Patch) (w : World) :
  ((∀ b, Prisma.lookup (ById id) (db w) = Some b → Blog.isDeleted b = true) →
   fst (updateIntoDb id data w) = Err NotFound)
  ∧ (∀ b, Prisma.lookup (ById id) (db w) = Some b → Blog.isDeleted b = false →
       (∀ s, p_slug data = Some s → s ≠ "" → s ≠ Blog.slug b →
          is_Some (Prisma.lookup (BySlug (Some s)) (db w)) →
          fst (updateIntoDb id data w) = Err Conflict)
       ∧ (∀ s, p_slug data = Some s → s = "" ∨ s = Blog.slug b →
            Prisma.slug_taken s id (db w) = true →
            fst (updateIntoDb id data w) = Err PrismaUnique)
       ∧ ((∀ s, p_slug data = Some s →
             Prisma.lookup (BySlug (Some s)) (db w) = None
             ∨ (s = Blog.slug b ∧ Prisma.slug_taken s id (db w) = false)) →
          ∃ w', updateIntoDb id data w
                = (Ok (apply_patch (stamped data (now w)) b), w')
            ∧ Blog.updatedAt (apply_patch (stamped data (now w)) b) = now w
            ∧ db w' = Prisma.replace_row id (stamped data (now w)) (db w)))
  ∧ (∀ e w', updateIntoDb id data w = (Err e, w') →
       db w' = db w ∧ redis w' = redis w).
Proof.
  pose proof (updateIntoDb_cases id data w) as Hcases.
  destruct (updateIntoDb id data w) as [[u|e] w1]; simpl fst.
  - destruct Hcases as (b0 & Hb0 & Hlive & -> & Hdb & Hslug).
    split; [|split].
    + intros Hgone. specialize (Hgone b0 Hb0). congruence.
    + intros b Hb Hdel. assert (b0 = b) as -> by congruence.
      split; [|split].
      * intros s Hs Hne Hother [r Hr].
        destruct (Hslug s Hs) as (_ & [?|[?|Hfree]]); congruence.
      * intros s Hs _ Htaken. destruct (Hslug s Hs) as (Hfree & _). congruence.
      * intros _. by exists w1.
    + intros e w' [=].
  - destruct Hcases as (Hdb & Hredis & Hwhy).
    split; [|split].
    + intros Hgone.
      destruct Hwhy as [[-> _]|[(_ & s & b & _ & _ & Hb & Hlive & _)
                              |(_ & s & b & _ & Hb & Hlive & _)]]; [done|..];
        specialize (Hgone b Hb); congruence.
    + intros b Hb Hdel.
      split; [|split].
      * intros s Hs Hne Hother Htaken.
        destruct Hwhy as [[_ Hgone]|[[-> _]|(_ & s' & b' & Hs' & Hb' & _ & Hown & _)]].
        -- specialize (Hgone b Hb). congruence.
        -- done.
        -- assert (s' = s) as -> by congruence.
           assert (b' = b) as -> by congruence.
           by destruct Hown.
      * intros s Hs Hown Htaken.
        destruct Hwhy as [[_ Hgone]|[(_ & s' & b' & Hs' & Hne & Hb' & _ & Hother & _)
                                    |[-> _]]].
        -- specialize (Hgone b Hb). congruence.
        -- assert (s' = s) as -> by congruence.
           assert (b' = b) as -> by congruence.
           by destruct Hown.
        -- done.
      * intros Hfree. exfalso.
        destruct Hwhy as [[_ Hgone]|[(_ & s & b' & Hs & _ & Hb' & _ & Hother & [r Hr])
                                    |(_ & s & b' & Hs & Hb' & _ & _ & Htaken)]].
        -- specialize (Hgone b Hb). congruence.
        -- assert (b' = b) as -> by congruence.
           destruct (Hfree s Hs) as [?|[? _]]; congruence.
        -- destruct (Hfree s Hs) as [Hnone|[_ ?]]; [|congruence].
           rewrite (slug_free_not_taken _ _ _ Hnone) in Htaken. done.
    + intros e' w' [= <- <-]. done.
Qed.

(** In [created_world], which holds two posts: the first one cannot take the
    slug of the second, and can be given a new title. *)
Lemma updateIntoDb_outcomes_witness :
  fst (updateIntoDb "64f0c2a1"
         (mkPatch None None (Some "caching") None None None None None None)
         created_world) = Err Conflict
  ∧ ∃ w', updateIntoDb "64f0c2a1" retitle created_world
          = (Ok (apply_patch (stamped retitle (now created_world)) sample_post), w')
      ∧ db w' = Prisma.replace_row "64f0c2a1" (stamped retitle (now created_world))
                  (db created_world).
Proof.
  destruct (updateIntoDb_outcomes "64f0c2a1"
              (mkPatch None None (Some "caching") None None None None None None)
              created_world) as (_ & H & _).
  destruct (H sample_post eq_refl eq_refl) as (Hconflict & _).
  destruct (updateIntoDb_outcomes "64f0c2a1" retitle created_world) as (_ & H' & _).
  destruct (H' sample_post eq_refl eq_refl) as (_ & _ & Hok).
  split.
  - apply (Hconflict "caching"); [reflexivity|discriminate|discriminate|].
    vm_compute. eexists. reflexivity.
  - destruct Hok as (w' & Hrun & _ & Hdb); [intros s; discriminate|].
    exists w'. split; [exact Hrun|exact Hdb].
Defined.

(** ** A search without tags *)

Lemma found_nothing (w : World) : found [] w = [].
Proof.
  unfold found. replace (filter _ (db w)) with (@nil Blog.t); [done|].
  symmetry. induction (db w) as [|r rows IH]; [done|].
  rewrite filter_cons. destruct (decide _) as [[H _]|_]; [done|apply IH].
Qed.

(** X20. A tag search without tags finds nothing.  A request without the
    [tags] parameter is a search for the empty list; unless an entry is
    cached under the bare prefix it returns no row, whatever the collection
    holds, in any state of Redis. *)
Theorem search_without_tags (w : World) :
  redis_up w = false ∨ live w (search_key []) = None →
  fst (BlogController.searchByTags None w) = Ok [].
Proof.
  intros Hcase. rewrite controller_search_unfold.
  set (ref := base.fresh (dom (heap w))). simpl BlogController.tags.
  rewrite (searchByTags_unfold _ ref [])
    by (autorewrite with world; by rewrite lookup_insert_eq).
  rewrite search_sorted_heap. simpl fst.
  rewrite search_sorted_outcome. unfold search_outcome. cbv zeta.
  change (sort []) with (@nil string).
  autorewrite with world.
  destruct (redis_up w) eqn:Hup.
  - destruct Hcase as [|Hmiss]; [done|].
    change ("blogs:search:tags:" +:+ join "," []) with (search_key []).
    rewrite ?live_set_heap, Hmiss. simpl. by rewrite found_nothing.
  - simpl. by rewrite found_nothing.
Qed.

(** A request without tags in [sample_world]. *)
Lemma search_without_tags_witness :
  fst (BlogController.searchByTags None sample_world) = Ok [].
Proof.
  apply (search_without_tags sample_world). right. reflexivity.
Defined.
